(** * A shallow embedding of [svd.py]

    The program builds a user x movie rating table from rating records,
    aligns the tables of a train and a test split, factorises the train
    table with a truncated SVD, rescales the reconstruction into the rating
    range, scores it against the test table and ranks movies for a user.

    Conventions of the embedding.

    - A Python call either returns a value or raises: [result A] is the
      value or the exception, threaded with a small error monad.
    - A [float64] is an exact rational, [+inf], [-inf] or [NaN].  Finite
      arithmetic is exact (rounding, overflow and the sign of zero are not
      represented); the exceptional results of IEEE-754 arithmetic, which
      numpy produces instead of raising, are kept: [0/0], [inf - inf],
      [0 * inf] and [inf / inf] are [NaN], and [x / 0] is an infinity for
      [x <> 0].  These cells carry what does not depend on rounding: which
      call raises, which cells are selected, tested against 0 or [NaN].
    - Where rounding or overflow decides, the rescaling is taken on
      binary64 numbers, module [B64]: the numbers of numpy, with the
      arithmetic of IEEE-754 as the Standard Library specifies it.
    - An [ndarray] of two dimensions is the list of its rows.  A pandas
      [DataFrame] produced by [pivot_table] is a record of its row labels,
      column labels and values.
    - A ratings table (the frame that [load_dataset] reads from
      [ratings.csv]) is a list of rows [userId, movieId, rating, timestamp]
      with real ratings.
    - Of numpy, pandas and sklearn the operations that the program calls
      are defined here after the libraries' documentation, under [Np], [Pd]
      and [Sk].  The numerical fit of the truncated SVD and the shuffle of
      [train_test_split] are parameters, the record [library]. *)

From Stdlib Require Import String.
From Stdlib Require Import List ZArith QArith Qminmax Qround Lqa Lia Bool.
From Stdlib Require Import Sorted Permutation.
From Stdlib Require SpecFloat.
Import ListNotations.

Set Implicit Arguments.

(** ** Exceptions and results *)

Inductive exception : Type :=
| ValueError (msg : string)
| IndexError (msg : string)
| KeyError (label : Z).

Inductive result (A : Type) : Type :=
| Ok (a : A)
| Raise (e : exception).

Arguments Ok {A} a.
Arguments Raise {A} e.

Definition bind {A B : Type} (r : result A) (k : A -> result B) : result B :=
  match r with
  | Ok a => k a
  | Raise e => Raise e
  end.

Declare Scope py_scope.
Delimit Scope py_scope with py.
Notation "x <- r ;; k" := (bind r (fun x => k))
  (at level 61, r at next level, right associativity) : py_scope.
Notation "' p <- r ;; k" := (bind r (fun x => let p := x in k))
  (at level 61, p pattern, r at next level, right associativity) : py_scope.

Fixpoint mapM {A B : Type} (f : A -> result B) (l : list A) : result (list B) :=
  match l with
  | [] => Ok []
  | x :: l' => bind (f x) (fun y => bind (mapM f l') (fun ys => Ok (y :: ys)))
  end.

(** ** float64 *)

Inductive float64 : Type :=
| Fin (q : Q)
| PInf
| NInf
| NaN.

Module F64.

Definition zero : float64 := Fin 0.

Definition of_Z (z : Z) : float64 := Fin (inject_Z z).

Definition isnan (x : float64) : bool :=
  match x with NaN => true | _ => false end.

Definition isfinite (x : float64) : bool :=
  match x with Fin _ => true | _ => false end.

Definition opp (x : float64) : float64 :=
  match x with
  | Fin a => Fin (- a)
  | PInf => NInf
  | NInf => PInf
  | NaN => NaN
  end.

Definition add (x y : float64) : float64 :=
  match x, y with
  | NaN, _ | _, NaN => NaN
  | Fin a, Fin b => Fin (a + b)
  | PInf, NInf | NInf, PInf => NaN
  | PInf, _ | _, PInf => PInf
  | NInf, _ | _, NInf => NInf
  end.

Definition sub (x y : float64) : float64 := add x (opp y).

(** The infinity [positive] taken with the sign of [a]; [NaN] when [a] is
    zero. *)
Definition signed_inf (a : Q) (positive : float64) : float64 :=
  match a ?= 0 with
  | Eq => NaN
  | Gt => positive
  | Lt => opp positive
  end.

Definition mul (x y : float64) : float64 :=
  match x, y with
  | NaN, _ | _, NaN => NaN
  | Fin a, Fin b => Fin (a * b)
  | Fin a, PInf | PInf, Fin a => signed_inf a PInf
  | Fin a, NInf | NInf, Fin a => signed_inf a NInf
  | PInf, PInf | NInf, NInf => PInf
  | PInf, NInf | NInf, PInf => NInf
  end.

(** Division by zero does not raise: [0/0] is [NaN] and [a/0] is the
    infinity of the sign of [a]. *)
Definition div (x y : float64) : float64 :=
  match x, y with
  | NaN, _ | _, NaN => NaN
  | Fin a, Fin b =>
      if Qeq_bool b 0 then signed_inf a PInf else Fin (a / b)
  | Fin _, PInf | Fin _, NInf => Fin 0
  | PInf, Fin b => if Qle_bool 0 b then PInf else NInf
  | NInf, Fin b => if Qle_bool 0 b then NInf else PInf
  | PInf, PInf | PInf, NInf | NInf, PInf | NInf, NInf => NaN
  end.

(** Comparisons: every comparison with [NaN] is false. *)
Definition eqb (x y : float64) : bool :=
  match x, y with
  | Fin a, Fin b => Qeq_bool a b
  | PInf, PInf | NInf, NInf => true
  | _, _ => false
  end.

Definition ltb (x y : float64) : bool :=
  match x, y with
  | NaN, _ | _, NaN => false
  | Fin a, Fin b => negb (Qle_bool b a)
  | PInf, _ | _, NInf => false
  | NInf, _ | _, PInf => true
  end.

Definition leb (x y : float64) : bool :=
  match x, y with
  | NaN, _ | _, NaN => false
  | Fin a, Fin b => Qle_bool a b
  | NInf, _ | _, PInf => true
  | PInf, _ | _, NInf => false
  end.

Definition neb (x y : float64) : bool := negb (eqb x y).
Definition geb (x y : float64) : bool := leb y x.
Definition gtb (x y : float64) : bool := ltb y x.

End F64.

Declare Scope f64_scope.
Delimit Scope f64_scope with f64.
Bind Scope f64_scope with float64.
Infix "+" := F64.add : f64_scope.
Infix "-" := F64.sub : f64_scope.
Infix "*" := F64.mul : f64_scope.
Infix "/" := F64.div : f64_scope.
Infix "==" := F64.eqb (at level 70, no associativity) : f64_scope.
Infix "!=" := F64.neb (at level 70, no associativity) : f64_scope.
Infix "<" := F64.ltb : f64_scope.
Infix "<=" := F64.leb : f64_scope.
Infix ">" := F64.gtb : f64_scope.
Infix ">=" := F64.geb : f64_scope.

Local Open Scope string_scope.
Local Open Scope list_scope.
Local Open Scope py_scope.

(** [math.sqrt] of a float is irrational in general: a root is kept as its
    radicand.  A negative argument raises. *)
Inductive root : Type :=
| Sqrt (radicand : float64).

Definition math_sqrt (x : float64) : result root :=
  if (x < F64.zero)%f64 then Raise (ValueError "math domain error")
  else Ok (Sqrt x).

(** ** numpy *)

Definition ndarray1 : Type := list float64.
Definition ndarray : Type := list (list float64).

Module Np.

Definition flatten (a : ndarray) : ndarray1 := concat a.

(** [np.minimum] and [np.maximum]: a [NaN] operand is the result. *)
Definition minimum (x y : float64) : float64 :=
  if F64.isnan x then x
  else if F64.isnan y then y
  else if (y < x)%f64 then y else x.

Definition maximum (x y : float64) : float64 :=
  if F64.isnan x then x
  else if F64.isnan y then y
  else if (x < y)%f64 then y else x.

(** [a.min()] and [a.max()] of a one-dimensional array: a reduction with no
    identity, so an array of size zero raises. *)
Definition min1 (v : ndarray1) : result float64 :=
  match v with
  | [] => Raise (ValueError
            "zero-size array to reduction operation minimum which has no identity")
  | x :: xs => Ok (fold_left minimum xs x)
  end.

Definition max1 (v : ndarray1) : result float64 :=
  match v with
  | [] => Raise (ValueError
            "zero-size array to reduction operation maximum which has no identity")
  | x :: xs => Ok (fold_left maximum xs x)
  end.

(** [a.min()] and [a.max()] of a matrix reduce over all its cells. *)
Definition min (a : ndarray) : result float64 := min1 (flatten a).
Definition max (a : ndarray) : result float64 := max1 (flatten a).

(** Broadcasting a scalar over a matrix. *)
Definition map2d (f : float64 -> float64) (a : ndarray) : ndarray :=
  map (map f) a.

Definition sub_scalar (a : ndarray) (s : float64) : ndarray :=
  map2d (fun x => x - s)%f64 a.
Definition div_scalar (a : ndarray) (s : float64) : ndarray :=
  map2d (fun x => x / s)%f64 a.
Definition mul_scalar (a : ndarray) (s : float64) : ndarray :=
  map2d (fun x => x * s)%f64 a.
Definition add_scalar (a : ndarray) (s : float64) : ndarray :=
  map2d (fun x => x + s)%f64 a.

(** [a[mask]] for a boolean mask: the mask must have the array's length. *)
Fixpoint select {A : Type} (v : list A) (mask : list bool) : list A :=
  match v, mask with
  | x :: v', b :: mask' => if b then x :: select v' mask' else select v' mask'
  | _, _ => []
  end.

Definition getmask {A : Type} (v : list A) (mask : list bool) : result (list A) :=
  if Nat.eqb (length v) (length mask) then Ok (select v mask)
  else Raise (IndexError "boolean index did not match indexed array").

(** [np.where(mask)[0]]: the positions at which the mask holds, ascending. *)
Fixpoint where_from (i : nat) (mask : list bool) : list nat :=
  match mask with
  | [] => []
  | b :: mask' =>
      if b then i :: where_from (S i) mask' else where_from (S i) mask'
  end.

Definition where_ (mask : list bool) : list nat := where_from 0 mask.

(** [a[i]] for a position counted from the start. *)
Definition getitem {A : Type} (v : list A) (i : nat) : result A :=
  match nth_error v i with
  | Some x => Ok x
  | None => Raise (IndexError "index is out of bounds")
  end.

(** The shape of a matrix: its rows, and the cells of its first row. *)
Definition nrows (a : ndarray) : nat := length a.
Definition ncols (a : ndarray) : nat :=
  match a with [] => O | r :: _ => length r end.

Definition column (a : ndarray) (j : nat) : list float64 :=
  map (fun r => nth j r F64.zero) a.

Definition sum (v : ndarray1) : float64 :=
  fold_left F64.add v F64.zero.

Definition inner (u v : ndarray1) : float64 :=
  sum (map (fun p => fst p * snd p)%f64 (combine u v)).

(** [np.dot] of two matrices: the inner dimensions must agree. *)
Definition dot (a b : ndarray) : result ndarray :=
  if Nat.eqb (ncols a) (nrows b) then
    Ok (map (fun r => map (fun j => inner r (column b j)) (seq 0 (ncols b))) a)
  else Raise (ValueError "shapes not aligned").

(** [np.diag] of a vector: the square matrix with it on the diagonal. *)
Definition diag (s : ndarray1) : ndarray :=
  map (fun i => map (fun j => if Nat.eqb i j then nth i s F64.zero else F64.zero)
                    (seq 0 (length s)))
      (seq 0 (length s)).

End Np.

(** ** pandas *)

Record rating_row : Type := mkRating {
  userId : Z;
  movieId : Z;
  rating : Q;
  timestamp : Z
}.

(** The frame read from [ratings.csv] and every split of it. *)
Definition ratings_frame : Type := list rating_row.

Definition Index : Type := list Z.

(** A frame of floats with labelled rows and columns. *)
Record DataFrame : Type := mkFrame {
  index : Index;
  columns : Index;
  values : ndarray
}.

Definition qsum (l : list Q) : Q := fold_left Qplus l 0.

Module Pd.

(** [Series.min()] and [Series.max()] of a column of reals: [NaN] when the
    column is empty. *)
Definition series_min (col : list Q) : float64 :=
  match col with
  | [] => NaN
  | x :: xs => Fin (fold_left Qmin xs x)
  end.

Definition series_max (col : list Q) : float64 :=
  match col with
  | [] => NaN
  | x :: xs => Fin (fold_left Qmax xs x)
  end.

(** [label in idx]. *)
Definition contains (idx : Index) (label : Z) : bool :=
  existsb (Z.eqb label) idx.

(** [idx.get_loc(label)] on an index without repeated labels, as the index
    of a pivot table is: the position of the label, or [KeyError].  For a
    label that the index repeats pandas returns a slice or a mask instead of
    a position; that case is outside this definition, and the statements
    that go through it on an arbitrary index assume [NoDup]. *)
Fixpoint find_loc (idx : Index) (label : Z) : option nat :=
  match idx with
  | [] => None
  | l :: idx' =>
      if Z.eqb label l then Some O else option_map S (find_loc idx' label)
  end.

Definition get_loc (idx : Index) (label : Z) : result nat :=
  match find_loc idx label with
  | Some i => Ok i
  | None => Raise (KeyError label)
  end.

(** [a.intersection(b)]: the labels of [a] that [b] holds, in [a]'s order. *)
Definition intersection (a b : Index) : Index :=
  filter (contains b) a.

(** The distinct labels of a column in ascending order: the keys of a sorted
    [groupby]. *)
Fixpoint insert_label (z : Z) (l : Index) : Index :=
  match l with
  | [] => [z]
  | y :: l' =>
      match (z ?= y)%Z with
      | Lt => z :: y :: l'
      | Eq => y :: l'
      | Gt => y :: insert_label z l'
      end
  end.

Definition sorted_labels (col : list Z) : Index :=
  fold_right insert_label [] col.

(** The aggregate of one group: the mean of its ratings, as a real.  (In
    float64 the sum of several ratings is taken in record order and
    rounded.) *)
Definition mean (l : list Q) : Q := qsum l / inject_Z (Z.of_nat (length l)).

Definition group (df : ratings_frame) (u m : Z) : list Q :=
  map rating (filter (fun r => Z.eqb (userId r) u && Z.eqb (movieId r) m) df).

(** [df.pivot_table(index='userId', columns='movieId', values='rating',
    fill_value=...)]: one row per user and one column per movie, both
    ascending; a cell is the mean rating of its (user, movie) group, and
    [fill_value] where the group is empty. *)
Definition pivot_table (df : ratings_frame) (fill_value : float64) : DataFrame :=
  let users := sorted_labels (map userId df) in
  let movies := sorted_labels (map movieId df) in
  mkFrame users movies
    (map (fun u =>
            map (fun m =>
                   match group df u m with
                   | [] => fill_value
                   | g => Fin (mean g)
                   end) movies) users).

(** [df.loc[rows, cols]] with two lists of labels: a missing label raises
    [KeyError]. *)
Definition loc (df : DataFrame) (rows cols : Index) : result DataFrame :=
  row_locs <- mapM (get_loc (index df)) rows ;;
  col_locs <- mapM (get_loc (columns df)) cols ;;
  vals <- mapM (fun i => r <- Np.getitem (values df) i ;;
                         mapM (Np.getitem r) col_locs) row_locs ;;
  Ok (mkFrame rows cols vals).

(** [df.sort_values('timestamp')], as a stable insertion sort.  The order
    pandas gives to rows of equal timestamp is not specified; the program
    uses only which rows lie on each side of the cut-off. *)
Fixpoint insert_by_timestamp (r : rating_row) (l : ratings_frame) : ratings_frame :=
  match l with
  | [] => [r]
  | y :: l' =>
      if (timestamp y <? timestamp r)%Z then y :: insert_by_timestamp r l'
      else r :: y :: l'
  end.

Definition sort_values_timestamp (df : ratings_frame) : ratings_frame :=
  fold_right insert_by_timestamp [] df.

(** [Series.quantile(q)] of an ascending integer column with linear
    interpolation, as a real; [NaN] for an empty column.  (The float64
    cut-off is this real rounded, which is the same number for timestamps
    below 2^53.) *)
Definition quantile (sorted : list Z) (q : Q) : float64 :=
  match sorted with
  | [] => NaN
  | x :: _ =>
      let h := inject_Z (Z.of_nat (length sorted) - 1) * q in
      let lo := Z.to_nat (Qfloor h) in
      let frac := h - inject_Z (Qfloor h) in
      let a := inject_Z (nth lo sorted x) in
      let b := inject_Z (nth (S lo) sorted (nth lo sorted x)) in
      Fin (a + (b - a) * frac)
  end.

(** [pd.read_csv(path, chunksize=n)], iterated: the data rows of the file
    in frames of [n] rows, the last one shorter.  A file with a header and
    no data row gives one empty frame; [n < 1] is refused. *)
Fixpoint chunks_from {A : Type} (fuel n : nat) (rows : list A) : list (list A) :=
  match fuel with
  | O => []
  | S fuel' =>
      match rows with
      | [] => []
      | _ => firstn n rows :: chunks_from fuel' n (skipn n rows)
      end
  end.

Definition read_csv_chunks (rows : ratings_frame) (chunksize : nat)
  : result (list ratings_frame) :=
  if Nat.eqb chunksize 0 then
    Raise (ValueError "'chunksize' must be an integer >=1")
  else
    match rows with
    | [] => Ok [[]]
    | _ => Ok (chunks_from (length rows) chunksize rows)
    end.

(** [pd.concat(frames)]: the rows of the frames one after the other; an
    empty list of frames is refused. *)
Definition concat_frames (frames : list ratings_frame) : result ratings_frame :=
  match frames with
  | [] => Raise (ValueError "No objects to concatenate")
  | _ => Ok (concat frames)
  end.

End Pd.

(** ** sklearn *)

(** What a fitted [TruncatedSVD] hands back: the transformed input, the
    singular values and the components. *)
Definition factors : Type := (ndarray * ndarray1 * ndarray)%type.

(** The numerical routines that are left open: the fit of the truncated SVD
    once its arguments are accepted, and the shuffled split of
    [train_test_split(df, test_size, random_state)]. *)
Record library : Type := mkLibrary {
  svd_fit : nat -> Z -> ndarray -> factors;
  train_test_split : ratings_frame -> Q -> Z -> ratings_frame * ratings_frame
}.

Module Sk.

Definition check_consistent_length {A B : Type} (a : list A) (b : list B)
  : result unit :=
  if Nat.eqb (length a) (length b) then Ok tt
  else Raise (ValueError
         "Found input variables with inconsistent numbers of samples").

(** [check_array] on a vector of targets: every entry finite, and at least
    one sample. *)
Definition check_array (v : ndarray1) : result unit :=
  if negb (forallb F64.isfinite v) then
    Raise (ValueError "Input contains NaN or infinity")
  else if Nat.eqb (length v) 0 then
    Raise (ValueError
      "Found array with 0 sample(s) while a minimum of 1 is required")
  else Ok tt.

Definition of_nat (n : nat) : float64 := F64.of_Z (Z.of_nat n).

(** [mean_squared_error(y_true, y_pred)]: the mean of the squared
    differences, after the targets are validated. *)
Definition mean_squared_error (y_true y_pred : ndarray1) : result float64 :=
  _ <- check_consistent_length y_true y_pred ;;
  _ <- check_array y_true ;;
  _ <- check_array y_pred ;;
  let errors :=
    map (fun p => (fst p - snd p) * (fst p - snd p))%f64 (combine y_true y_pred) in
  Ok (Np.sum errors / of_nat (length errors))%f64.

(** Binary labels: [false] is class 0 and [true] is class 1. *)
Definition labels : Type := list bool.

Definition count {A : Type} (f : A -> bool) (l : list A) : nat :=
  length (filter f l).

(** Per class: true positives, predicted members and true members. *)
Definition tp_sum (c : bool) (y_true y_pred : labels) : nat :=
  count (fun p => Bool.eqb (fst p) c && Bool.eqb (snd p) c) (combine y_true y_pred).
Definition pred_sum (c : bool) (y_pred : labels) : nat :=
  count (Bool.eqb c) y_pred.
Definition true_sum (c : bool) (y_true : labels) : nat :=
  count (Bool.eqb c) y_true.

Definition qnat (n : nat) : Q := inject_Z (Z.of_nat n).

(** A ratio of counts under [zero_division=0]. *)
Definition prf_divide (num den : nat) : Q :=
  if Nat.eqb den 0 then 0 else qnat num / qnat den.

(** The classes that occur in the true or the predicted labels, ascending. *)
Definition present_labels (y_true y_pred : labels) : list bool :=
  filter (fun c => existsb (Bool.eqb c) (y_true ++ y_pred)) [false; true].

Definition precision_of (c : bool) (y_true y_pred : labels) : Q :=
  prf_divide (tp_sum c y_true y_pred) (pred_sum c y_pred).
Definition recall_of (c : bool) (y_true y_pred : labels) : Q :=
  prf_divide (tp_sum c y_true y_pred) (true_sum c y_true).
Definition f1_of (c : bool) (y_true y_pred : labels) : Q :=
  let p := precision_of c y_true y_pred in
  let r := recall_of c y_true y_pred in
  if Qeq_bool (p + r) 0 then 0 else 2 * (p * r) / (p + r).

(** [average='weighted']: the per-class scores averaged with the classes'
    supports as weights; 0 under [zero_division=0] when no weight is left. *)
Definition weighted (score : bool -> Q) (y_true y_pred : labels) : float64 :=
  let cs := present_labels y_true y_pred in
  let total := qsum (map (fun c => qnat (true_sum c y_true)) cs) in
  if Qeq_bool total 0 then Fin 0
  else Fin (qsum (map (fun c => score c * qnat (true_sum c y_true)) cs) / total).

(** [precision_score], [recall_score] and [f1_score] with
    [zero_division=0, average='weighted']. *)
Definition precision_score (y_true y_pred : labels) : result float64 :=
  _ <- check_consistent_length y_true y_pred ;;
  Ok (weighted (fun c => precision_of c y_true y_pred) y_true y_pred).

Definition recall_score (y_true y_pred : labels) : result float64 :=
  _ <- check_consistent_length y_true y_pred ;;
  Ok (weighted (fun c => recall_of c y_true y_pred) y_true y_pred).

Definition f1_score (y_true y_pred : labels) : result float64 :=
  _ <- check_consistent_length y_true y_pred ;;
  Ok (weighted (fun c => f1_of c y_true y_pred) y_true y_pred).

(** [TruncatedSVD(n_components, random_state).fit_transform(X)]: the input
    is validated (finite entries, at least one sample and two features) and
    a request for more components than features is refused (by every
    release; older ones refuse as many components as features too). *)
Definition fit_transform (lib : library) (n_components : nat) (random_state : Z)
    (X : ndarray) : result factors :=
  if negb (forallb F64.isfinite (Np.flatten X)) then
    Raise (ValueError "Input contains NaN or infinity")
  else if Nat.eqb (Np.nrows X) 0 then
    Raise (ValueError
      "Found array with 0 sample(s) while a minimum of 1 is required")
  else if Nat.ltb (Np.ncols X) 2 then
    Raise (ValueError "Found array with too few feature(s): a minimum of 2 is required")
  else if Nat.ltb (Np.ncols X) n_components then
    Raise (ValueError "n_components must be <= n_features")
  else Ok (svd_fit lib n_components random_state X).

End Sk.

(** * The program *)

Definition CHUNK_SIZE : Z := 20000.
Definition N_COMPONENTS : nat := 10.
Definition RANDOM_STATE : Z := 42.

(** ** load_dataset *)

(** The file is given by its data rows.  The loop appends the chunks in the
    order in which they are read. *)
Definition load_dataset (file : ratings_frame) : result ratings_frame :=
  frames <- Pd.read_csv_chunks file (Z.to_nat CHUNK_SIZE) ;;
  let chunks := fold_left (fun chunks chunk => chunks ++ [chunk]) frames [] in
  Pd.concat_frames chunks.

(** ** create_user_movie_matrix, preprocess_splits *)

Definition create_user_movie_matrix (df : ratings_frame) : DataFrame :=
  Pd.pivot_table df F64.zero.

Definition preprocess_splits (train_df test_df : ratings_frame)
  : result (DataFrame * DataFrame) :=
  let train_matrix := create_user_movie_matrix train_df in
  let test_matrix := create_user_movie_matrix test_df in
  let common_users := Pd.intersection (index train_matrix) (index test_matrix) in
  let common_movies :=
    Pd.intersection (columns train_matrix) (columns test_matrix) in
  train_aligned <- Pd.loc train_matrix common_users common_movies ;;
  test_aligned <- Pd.loc test_matrix common_users common_movies ;;
  Ok (train_aligned, test_aligned).

(** ** normalize_predictions *)

Definition normalize_predictions (reconstructed : ndarray) (ratings : ratings_frame)
  : result ndarray :=
  let min_rating := Pd.series_min (map rating ratings) in
  let max_rating := Pd.series_max (map rating ratings) in
  lo <- Np.min reconstructed ;;
  centred <- Ok (Np.sub_scalar reconstructed lo) ;;
  hi <- Np.max reconstructed ;;
  lo' <- Np.min reconstructed ;;
  Ok (Np.add_scalar
        (Np.mul_scalar (Np.div_scalar centred (hi - lo')%f64)
                       (max_rating - min_rating)%f64)
        min_rating).

(** ** train_svd, reconstruct_matrix *)

Definition train_svd (lib : library) (matrix : DataFrame) : result factors :=
  Sk.fit_transform lib N_COMPONENTS RANDOM_STATE (values matrix).

Definition reconstruct_matrix (U : ndarray) (Sigma : ndarray1) (VT : ndarray)
    (ratings : ratings_frame) : result ndarray :=
  inner <- Np.dot (Np.diag Sigma) VT ;;
  reconstructed <- Np.dot U inner ;;
  normalize_predictions reconstructed ratings.

(** ** evaluate_predictions *)

(** [(v >= threshold).astype(int)]. *)
Definition binarize (threshold : float64) (v : ndarray1) : Sk.labels :=
  map (fun x => x >= threshold)%f64 v.

(** Lines 72 to 77: the three classification scores of the selected true and
    predicted values, binarized at [threshold]. *)
Definition classification_scores (threshold : float64) (true_flat pred_flat : ndarray1)
  : result (float64 * float64 * float64) :=
  let true_binary := binarize threshold true_flat in
  let pred_binary := binarize threshold pred_flat in
  precision <- Sk.precision_score true_binary pred_binary ;;
  recall <- Sk.recall_score true_binary pred_binary ;;
  f1 <- Sk.f1_score true_binary pred_binary ;;
  Ok (precision, recall, f1).

Definition evaluate_predictions (true_matrix : DataFrame) (pred_matrix : ndarray)
  : result (root * float64 * float64 * float64) :=
  let mask := map (fun x => x != F64.zero)%f64 (Np.flatten (values true_matrix)) in
  true_flat <- Np.getmask (Np.flatten (values true_matrix)) mask ;;
  pred_flat <- Np.getmask (Np.flatten pred_matrix) mask ;;
  mse <- Sk.mean_squared_error true_flat pred_flat ;;
  rmse <- math_sqrt mse ;;
  let threshold := Fin (7 # 2) in
  '(precision, recall, f1) <- classification_scores threshold true_flat pred_flat ;;
  Ok (rmse, precision, recall, f1).

(** ** recommend_movies *)

(** [l.sort(key=lambda x: x[1], reverse=True)]: a stable sort by descending
    score.  Python compares keys with [<] only; an entry goes behind the
    entries that followed it exactly when its score is smaller. *)
Fixpoint insert_desc (x : Z * float64) (l : list (Z * float64)) : list (Z * float64) :=
  match l with
  | [] => [x]
  | y :: l' =>
      if (snd x < snd y)%f64 then y :: insert_desc x l' else x :: y :: l'
  end.

Definition sort_desc (l : list (Z * float64)) : list (Z * float64) :=
  fold_right insert_desc [] l.

(** [l[:n]]: a negative bound counts from the end. *)
Definition slice_to {A : Type} (l : list A) (n : Z) : list A :=
  if (0 <=? n)%Z then firstn (Z.to_nat n) l
  else firstn (length l - Z.to_nat (- n)) l.

(** The loop of lines 92 to 95 over the candidate positions. *)
Fixpoint collect (user_ratings : ndarray1) (movie_mapper : Index)
    (indices : list nat) (recommendations : list (Z * float64))
  : result (list (Z * float64)) :=
  match indices with
  | [] => Ok recommendations
  | idx :: rest =>
      movie_id <- Np.getitem movie_mapper idx ;;
      score <- Np.getitem user_ratings idx ;;
      collect user_ratings movie_mapper rest (recommendations ++ [(movie_id, score)])
  end.

(** Lines 92 to 98: collect, sort and cut. *)
Definition rank (user_ratings : ndarray1) (movie_mapper : Index)
    (indices : list nat) (top_n : Z) : result (list (Z * float64)) :=
  recommendations <- collect user_ratings movie_mapper indices [] ;;
  Ok (slice_to (sort_desc recommendations) top_n).

Definition recommend_movies (user_id : Z) (pred_matrix : ndarray)
    (user_mapper movie_mapper : Index) (top_n : Z)
  : result (list (Z * float64)) :=
  if negb (Pd.contains user_mapper user_id) then Ok []
  else
    user_idx <- Pd.get_loc user_mapper user_id ;;
    user_ratings <- Np.getitem pred_matrix user_idx ;;
    row <- Np.getitem pred_matrix user_idx ;;
    let unrated_mask := map (fun x => x == F64.zero)%f64 row in
    let unrated_movie_indices := Np.where_ unrated_mask in
    rank user_ratings movie_mapper unrated_movie_indices top_n.

(** The default of the parameter [top_n]. *)
Definition top_n_default : Z := 5.

(** ** main *)

(** What one pass of the loop of [main] computes and prints. *)
Record report : Type := mkReport {
  pred_matrix : ndarray;
  rmse : root;
  precision : float64;
  recall : float64;
  f1 : float64;
  recommendations : list (Z * float64)
}.

(** Lines 115 to 132: the body of the loop for one split. *)
Definition run_split (lib : library) (train_df test_df : ratings_frame)
  : result report :=
  '(train_matrix, test_matrix) <- preprocess_splits train_df test_df ;;
  '(U, Sigma, VT) <- train_svd lib train_matrix ;;
  pred <- reconstruct_matrix U Sigma VT train_df ;;
  '(rmse, precision, recall, f1) <- evaluate_predictions test_matrix pred ;;
  let user_id := 2%Z in
  let user_mapper := index train_matrix in
  let movie_mapper := columns train_matrix in
  recs <- recommend_movies user_id pred user_mapper movie_mapper top_n_default ;;
  Ok (mkReport pred rmse precision recall f1 recs).

(** Lines 105 to 108: the split at the 0.8 quantile of the timestamps. *)
Definition temporal_split (ratings : ratings_frame) : ratings_frame * ratings_frame :=
  let ratings_sorted := Pd.sort_values_timestamp ratings in
  let cutoff := Pd.quantile (map timestamp ratings_sorted) (8 # 10) in
  (filter (fun r => F64.of_Z (timestamp r) <= cutoff)%f64 ratings_sorted,
   filter (fun r => F64.of_Z (timestamp r) > cutoff)%f64 ratings_sorted).

(** [main], given the frame that [load_dataset] read: the pass on the random
    split, then the pass on the temporal split; an exception in a pass ends
    the run. *)
Definition main (lib : library) (ratings : ratings_frame) : result (list report) :=
  let '(train_random, test_random) :=
    train_test_split lib ratings (2 # 10) RANDOM_STATE in
  let '(train_temporal, test_temporal) := temporal_split ratings in
  mapM (fun split => run_split lib (fst split) (snd split))
    [(train_random, test_random); (train_temporal, test_temporal)].

(** * The rescaling on binary64 numbers *)

(** numpy computes on binary64 numbers: a sum, difference, product or
    quotient is rounded to the nearest representable number, ties to even,
    and overflows to an infinity.  The operations are those of the Standard
    Library's specification of IEEE-754 arithmetic at precision 53 and
    exponent bound 1024. *)

Module B64.

Definition prec : Z := 53.
Definition emax : Z := 1024.

Definition binary64 : Type := SpecFloat.spec_float.

Definition zero : binary64 := SpecFloat.S754_zero false.
Definition nan : binary64 := SpecFloat.S754_nan.


Definition of_Z (z : Z) : binary64 := SpecFloat.binary_normalize prec emax z 0 false.

Definition add : binary64 -> binary64 -> binary64 := SpecFloat.SFadd prec emax.
Definition sub : binary64 -> binary64 -> binary64 := SpecFloat.SFsub prec emax.
Definition mul : binary64 -> binary64 -> binary64 := SpecFloat.SFmul prec emax.
Definition div : binary64 -> binary64 -> binary64 := SpecFloat.SFdiv prec emax.

Definition eqb : binary64 -> binary64 -> bool := SpecFloat.SFeqb.
Definition ltb : binary64 -> binary64 -> bool := SpecFloat.SFltb.
Definition leb : binary64 -> binary64 -> bool := SpecFloat.SFleb.
Definition gtb (x y : binary64) : bool := ltb y x.

Definition isnan (x : binary64) : bool :=
  match x with SpecFloat.S754_nan => true | _ => false end.

Definition isfinite (x : binary64) : bool :=
  match x with
  | SpecFloat.S754_zero _ | SpecFloat.S754_finite _ _ _ => true
  | _ => false
  end.

Definition ndarray1 : Type := list binary64.
Definition ndarray : Type := list (list binary64).

Definition flatten (a : ndarray) : ndarray1 := concat a.

(** [np.minimum] and [np.maximum]: a [NaN] operand is the result. *)
Definition minimum (x y : binary64) : binary64 :=
  if isnan x then x
  else if isnan y then y
  else if ltb y x then y else x.

Definition maximum (x y : binary64) : binary64 :=
  if isnan x then x
  else if isnan y then y
  else if ltb x y then y else x.

(** [a.min()] and [a.max()] over all the cells of a matrix; a matrix of size
    zero raises. *)
Definition min (a : ndarray) : result binary64 :=
  match flatten a with
  | [] => Raise (ValueError
            "zero-size array to reduction operation minimum which has no identity")
  | x :: xs => Ok (fold_left minimum xs x)
  end.

Definition max (a : ndarray) : result binary64 :=
  match flatten a with
  | [] => Raise (ValueError
            "zero-size array to reduction operation maximum which has no identity")
  | x :: xs => Ok (fold_left maximum xs x)
  end.

Definition map2d (f : binary64 -> binary64) (a : ndarray) : ndarray :=
  map (map f) a.

(** [Series.min()] and [Series.max()] of a column of floats: [NaN] entries
    are skipped, and the result is [NaN] when nothing is left. *)
Definition series_min (col : list binary64) : binary64 :=
  match filter (fun x => negb (isnan x)) col with
  | [] => nan
  | x :: xs => fold_left minimum xs x
  end.

Definition series_max (col : list binary64) : binary64 :=
  match filter (fun x => negb (isnan x)) col with
  | [] => nan
  | x :: xs => fold_left maximum xs x
  end.

(** Lines 47 and 48, on a matrix of binary64 cells; [ratings] is the column
    [ratings['rating']]. *)
Definition normalize_predictions (reconstructed : ndarray) (ratings : list binary64)
  : result ndarray :=
  let min_rating := series_min ratings in
  let max_rating := series_max ratings in
  lo <- min reconstructed ;;
  centred <- Ok (map2d (fun x => sub x lo) reconstructed) ;;
  hi <- max reconstructed ;;
  lo' <- min reconstructed ;;
  Ok (map2d (fun x => add x min_rating)
        (map2d (fun x => mul x (sub max_rating min_rating))
           (map2d (fun x => div x (sub hi lo')) centred))).

(** The rescaling of one cell. *)
Definition rescale_cell (lo hi min_rating max_rating x : binary64) : binary64 :=
  add (mul (div (sub x lo) (sub hi lo)) (sub max_rating min_rating)) min_rating.

(** The cell of a matrix at row [i] and column [j], if there is one. *)
Definition cell (a : ndarray) (i j : nat) : option binary64 :=
  match nth_error a i with
  | Some r => nth_error r j
  | None => None
  end.

End B64.

(** * The vocabulary of the statements *)

(** The rescaling of one cell. *)
Definition rescale_cell (lo hi min_rating max_rating x : float64) : float64 :=
  ((x - lo) / (hi - lo) * (max_rating - min_rating) + min_rating)%f64.

(** [affine l h rl rh c] is the rescaling of a finite cell [c], for the least
    and greatest cell [l] and [h] and the rating range [rl], [rh]. *)
Definition affine (l h rl rh c : Q) : Q := (c + - l) / (h + - l) * (rh + - rl) + rl.

(** The cell of a matrix at row [i] and column [j], if there is one. *)
Definition cell (a : ndarray) (i j : nat) : option float64 :=
  match nth_error a i with
  | Some r => nth_error r j
  | None => None
  end.

(** A function applied to what a call returns. *)
Definition result_map {A B : Type} (f : A -> B) (r : result A) : result B :=
  match r with
  | Ok a => Ok (f a)
  | Raise e => Raise e
  end.

(** A pair whose score compares equal to 0. *)
Definition is_zero (p : Z * float64) : Prop := (snd p == F64.zero)%f64 = true.

(** The candidate pairs of a row, in column order: the cells that equal 0,
    each with the movie of its column. *)
Definition candidates (row : ndarray1) (movie_mapper : Index) : list (Z * float64) :=
  map (fun j => (nth j movie_mapper 0%Z, nth j row F64.zero))
      (Np.where_ (map (fun x => x == F64.zero)%f64 row)).


(** A frame whose values have a row per row label and a cell per column
    label. *)
Definition well_shaped (df : DataFrame) : Prop :=
  length (values df) = length (index df) /\
  Forall (fun r => length r = length (columns df)) (values df).

(** The cell of a pivot table for a user and a movie: the mean rating of
    the pair, or 0 without one. *)
Definition pivot_cell (df : ratings_frame) (u m : Z) : float64 :=
  match Pd.group df u m with
  | [] => F64.zero
  | g => Fin (Pd.mean g)
  end.

(** The shape of a matrix, row by row. *)
Definition shape (a : ndarray) : list nat := map (@length float64) a.

(** The part of [evaluate_predictions] behind the two selections. *)
Definition score (true_flat pred_flat : ndarray1)
  : result (root * float64 * float64 * float64) :=
  mse <- Sk.mean_squared_error true_flat pred_flat ;;
  rmse <- math_sqrt mse ;;
  '(precision, recall, f1) <-
    classification_scores (Fin (7 # 2)) true_flat pred_flat ;;
  Ok (rmse, precision, recall, f1).

(** Positions at which the true and the predicted label agree. *)
Definition agree (y_true y_pred : Sk.labels) : nat :=
  Sk.count (fun p => Bool.eqb (fst p) (snd p)) (combine y_true y_pred).


(** Lines 122 to 132: what a pass does with its predicted matrix. *)
Definition finish_pass (train_matrix test_matrix : DataFrame) (pred : ndarray)
  : result report :=
  '(rmse, precision, recall, f1) <- evaluate_predictions test_matrix pred ;;
  recs <- recommend_movies 2 pred (index train_matrix) (columns train_matrix)
            top_n_default ;;
  Ok (mkReport pred rmse precision recall f1 recs).

(** A row that is not later than another one. *)
Definition earlier (a b : rating_row) : Prop := (timestamp a <= timestamp b)%Z.

(** * Small data to run the program on *)

(** Two ratings, 0.5 and 5.0. *)
Definition two_ratings : ratings_frame :=
  [mkRating 1 1 (1 # 2) 1; mkRating 1 2 5 2].

(** A predicted matrix for the users 3 and 7 and three movies. *)
Definition pred_2x3 : ndarray :=
  [[Fin 0; Fin (7 # 2); Fin 0]; [Fin 1; Fin 0; Fin 2]].

(** A test table with one cell that holds no rating. *)
Definition test_2x2 : DataFrame :=
  mkFrame [1; 2]%Z [1; 2]%Z [[Fin 4; Fin 0]; [Fin 3; Fin 5]].

(** A test table without a rating. *)
Definition test_zeros : DataFrame :=
  mkFrame [1; 2]%Z [1; 2]%Z [[Fin 0; Fin 0]; [Fin 0; Fin 0]].

(** Train tables of two and of twelve movies. *)
Definition table_2x2 : DataFrame :=
  mkFrame [1; 2]%Z [1; 2]%Z [[Fin 1; Fin 2]; [Fin 3; Fin 4]].

Definition table_1x12 : DataFrame :=
  mkFrame [2%Z] [1; 2; 3; 4; 5; 6; 7; 8; 9; 10; 11; 12]%Z
    [[Fin 3; Fin 4; Fin 3; Fin 4; Fin 3; Fin 4; Fin 3; Fin 4; Fin 3; Fin 4;
      Fin 3; Fin 4]].

(** A test table of the same user and movies. *)
Definition test_1x12 : DataFrame :=
  mkFrame [2%Z] [1; 2; 3; 4; 5; 6; 7; 8; 9; 10; 11; 12]%Z
    [[Fin (1 # 2); Fin 5; Fin (1 # 2); Fin 5; Fin (1 # 2); Fin 5;
      Fin (1 # 2); Fin 5; Fin (1 # 2); Fin 5; Fin (1 # 2); Fin 5]].

(** The [k] first rows of the identity matrix of size [m]. *)
Definition eye (k m : nat) : ndarray :=
  map (fun i => map (fun j => if Nat.eqb i j then Fin 1 else F64.zero) (seq 0 m))
      (seq 0 k).

(** A stand-in for the libraries' numerical routines, for running the
    program on small data in the examples; the theorems hold for every
    [library].  Its fit has the
    shapes of a fit with [c] components, for [c] the least of [k] and the
    number of rows: the factors are [X[:, :c]], [c] ones and the first [c]
    rows of the identity, and their product is [X] with the other columns
    zeroed.  Its split takes the first four fifths of the rows from the rest
    without a shuffle. *)
Definition truncating_library : library :=
  mkLibrary
    (fun k _ X =>
       let c := Nat.min k (Np.nrows X) in
       (map (firstn c) X, repeat (Fin 1) c, eye c (Np.ncols X)))
    (fun df _ _ =>
       let n_train := (length df - length df / 5)%nat in
       (firstn n_train df, skipn n_train df)).

(** Forty-eight ratings of 3.0 and 4.0 by four users on twelve movies, then
    twelve ratings of 0.5 and 5.0 by user 2 on the same movies. *)
Definition sixty_ratings : ratings_frame :=
  map (fun k => mkRating (1 + Z.of_nat (k / 12)) (1 + Z.of_nat (k mod 12))
                         (3 + inject_Z (Z.of_nat (k mod 2)))
                         (1 + Z.of_nat k))
      (seq 0 48)
  ++
  map (fun k => mkRating 2 (1 + Z.of_nat k)
                         (if Nat.even k then 1 # 2 else 5)
                         (49 + Z.of_nat k))
      (seq 0 12).

Definition b_four_and_half : B64.binary64 :=
  SpecFloat.S754_finite false 5066549580791808 (-50).





(** * Properties *)

(** ** Results *)

Lemma bind_Ok {A B : Type} (r : result A) (k : A -> result B) (b : B) :
  bind r k = Ok b -> exists a, r = Ok a /\ k a = Ok b.
Proof. destruct r as [a|e]; cbn; [eauto|discriminate]. Qed.

(** ** Comparisons of rationals and of floats *)

Lemma Qle_bool_spec (x y : Q) : BoolSpec (x <= y) (y < x) (Qle_bool x y).
Proof.
  destruct (Qle_bool x y) eqn:E; constructor.
  - now apply Qle_bool_iff.
  - apply Qnot_le_lt. intros H. apply Qle_bool_iff in H. congruence.
Qed.

Lemma Qeq_bool_spec (x y : Q) : BoolSpec (x == y) (~ x == y) (Qeq_bool x y).
Proof.
  destruct (Qeq_bool x y) eqn:E; constructor.
  - now apply Qeq_bool_iff.
  - intros H. apply Qeq_bool_iff in H. congruence.
Qed.

(** Case analysis on every comparison of rationals in sight, then linear
    arithmetic. *)
Ltac qcases :=
  repeat match goal with
    | H : context [Qle_bool ?a ?b] |- _ => destruct (Qle_bool_spec a b)
    | |- context [Qle_bool ?a ?b] => destruct (Qle_bool_spec a b)
    | H : context [Qeq_bool ?a ?b] |- _ => destruct (Qeq_bool_spec a b)
    | |- context [Qeq_bool ?a ?b] => destruct (Qeq_bool_spec a b)
    | H : context [?a ?= ?b] |- _ => destruct (Qcompare_spec a b)
    | |- context [?a ?= ?b] => destruct (Qcompare_spec a b)
    end;
  cbn in *; try discriminate; try congruence; try reflexivity; try lra.

Ltac f64_crush :=
  unfold F64.gtb, F64.geb, F64.neb, F64.sub, F64.zero in *; cbn in *;
  try discriminate; try congruence; qcases.

Module F64Facts.

Lemma leb_trans (x y z : float64) :
  (x <= y)%f64 = true -> (y <= z)%f64 = true -> (x <= z)%f64 = true.
Proof. destruct x, y, z; f64_crush. Qed.

Lemma ltb_leb (x y : float64) : (x < y)%f64 = true -> (x <= y)%f64 = true.
Proof. destruct x, y; f64_crush. Qed.

Lemma not_ltb_leb (x y : float64) :
  F64.isnan x = false -> F64.isnan y = false ->
  (y < x)%f64 = false -> (x <= y)%f64 = true.
Proof. destruct x, y; f64_crush. Qed.

Lemma leb_refl (x : float64) : F64.isnan x = false -> (x <= x)%f64 = true.
Proof. destruct x; f64_crush. Qed.

Lemma eqb_not_nan (x y : float64) :
  (x == y)%f64 = true -> F64.isnan x = false /\ F64.isnan y = false.
Proof. destruct x, y; f64_crush; auto. Qed.

End F64Facts.

(** ** The reductions [min] and [max] *)

Module NpFacts.

Lemma minimum_not_nan (x y : float64) :
  F64.isnan (Np.minimum x y) = false ->
  F64.isnan x = false /\ F64.isnan y = false.
Proof.
  unfold Np.minimum. destruct (F64.isnan x) eqn:Ex; [congruence|].
  destruct (F64.isnan y) eqn:Ey; [congruence|]. auto.
Qed.

Lemma maximum_not_nan (x y : float64) :
  F64.isnan (Np.maximum x y) = false ->
  F64.isnan x = false /\ F64.isnan y = false.
Proof.
  unfold Np.maximum. destruct (F64.isnan x) eqn:Ex; [congruence|].
  destruct (F64.isnan y) eqn:Ey; [congruence|]. auto.
Qed.

(** A reduction that is not [NaN] met no [NaN], is one of the entries and is
    below (above) every entry. *)
Lemma fold_minimum (xs : ndarray1) : forall x,
  F64.isnan (fold_left Np.minimum xs x) = false ->
  In (fold_left Np.minimum xs x) (x :: xs) /\
  Forall (fun e => (fold_left Np.minimum xs x <= e)%f64 = true) (x :: xs).
Proof.
  induction xs as [|y ys IH]; intros x Hn; cbn [fold_left] in *.
  - split; [now left|]. constructor; [|constructor].
    now apply F64Facts.leb_refl.
  - destruct (IH _ Hn) as [Hin Hall].
    set (m := fold_left Np.minimum ys (Np.minimum x y)) in *.
    inversion Hall as [|? ? Hm Hys]; subst.
    assert (Hxy : F64.isnan (Np.minimum x y) = false).
    { destruct (Np.minimum x y) eqn:E, m; cbn in Hm; cbn; congruence. }
    destruct (minimum_not_nan _ _ Hxy) as [Hx Hy].
    assert (Hmx : (m <= x)%f64 = true /\ (m <= y)%f64 = true).
    { unfold Np.minimum in Hm. rewrite Hx, Hy in Hm.
      destruct (y < x)%f64 eqn:Elt.
      - split; [|assumption].
        eapply F64Facts.leb_trans; [eassumption|]. now apply F64Facts.ltb_leb.
      - split; [assumption|].
        eapply F64Facts.leb_trans; [eassumption|].
        now apply F64Facts.not_ltb_leb. }
    split.
    + destruct Hin as [Hin|Hin].
      * unfold Np.minimum in Hin. rewrite Hx, Hy in Hin.
        destruct (y < x)%f64; [right; left|left]; assumption.
      * right; right; assumption.
    + constructor; [tauto|]. constructor; [tauto|assumption].
Qed.

Lemma fold_maximum (xs : ndarray1) : forall x,
  F64.isnan (fold_left Np.maximum xs x) = false ->
  In (fold_left Np.maximum xs x) (x :: xs) /\
  Forall (fun e => (e <= fold_left Np.maximum xs x)%f64 = true) (x :: xs).
Proof.
  induction xs as [|y ys IH]; intros x Hn; cbn [fold_left] in *.
  - split; [now left|]. constructor; [|constructor].
    now apply F64Facts.leb_refl.
  - destruct (IH _ Hn) as [Hin Hall].
    set (m := fold_left Np.maximum ys (Np.maximum x y)) in *.
    inversion Hall as [|? ? Hm Hys]; subst.
    assert (Hxy : F64.isnan (Np.maximum x y) = false).
    { destruct (Np.maximum x y) eqn:E, m; cbn in Hm; cbn; congruence. }
    destruct (maximum_not_nan _ _ Hxy) as [Hx Hy].
    assert (Hmx : (x <= m)%f64 = true /\ (y <= m)%f64 = true).
    { unfold Np.maximum in Hm. rewrite Hx, Hy in Hm.
      destruct (x < y)%f64 eqn:Elt.
      - split; [|assumption].
        eapply F64Facts.leb_trans; [|eassumption]. now apply F64Facts.ltb_leb.
      - split; [assumption|].
        eapply F64Facts.leb_trans; [|eassumption].
        now apply F64Facts.not_ltb_leb. }
    split.
    + destruct Hin as [Hin|Hin].
      * unfold Np.maximum in Hin. rewrite Hx, Hy in Hin.
        destruct (x < y)%f64; [right; left|left]; assumption.
      * right; right; assumption.
    + constructor; [tauto|]. constructor; [tauto|assumption].
Qed.

(** [min] and [max] of a matrix raise on the same inputs: those of size
    zero. *)
Lemma min_ok (a : ndarray) (m : float64) :
  Np.min a = Ok m -> exists x xs, Np.flatten a = x :: xs /\ m = fold_left Np.minimum xs x.
Proof.
  unfold Np.min, Np.min1. destruct (Np.flatten a) as [|x xs]; [discriminate|].
  intros [= <-]. eauto.
Qed.

Lemma max_ok (a : ndarray) (m : float64) :
  Np.max a = Ok m -> exists x xs, Np.flatten a = x :: xs /\ m = fold_left Np.maximum xs x.
Proof.
  unfold Np.max, Np.max1. destruct (Np.flatten a) as [|x xs]; [discriminate|].
  intros [= <-]. eauto.
Qed.

Lemma min_bounds (a : ndarray) (m : float64) :
  Np.min a = Ok m -> F64.isnan m = false ->
  In m (Np.flatten a) /\ Forall (fun e => (m <= e)%f64 = true) (Np.flatten a).
Proof.
  intros H Hn. destruct (min_ok _ H) as (x & xs & E & ->).
  rewrite E. now apply fold_minimum.
Qed.

Lemma max_bounds (a : ndarray) (m : float64) :
  Np.max a = Ok m -> F64.isnan m = false ->
  In m (Np.flatten a) /\ Forall (fun e => (e <= m)%f64 = true) (Np.flatten a).
Proof.
  intros H Hn. destruct (max_ok _ H) as (x & xs & E & ->).
  rewrite E. now apply fold_maximum.
Qed.

Lemma flatten_map2d (f : float64 -> float64) (a : ndarray) :
  Np.flatten (Np.map2d f a) = map f (Np.flatten a).
Proof.
  unfold Np.flatten, Np.map2d. induction a as [|r a IH]; cbn; [reflexivity|].
  now rewrite map_app, IH.
Qed.

Lemma map2d_map2d (f g : float64 -> float64) (a : ndarray) :
  Np.map2d g (Np.map2d f a) = Np.map2d (fun x => g (f x)) a.
Proof.
  unfold Np.map2d. rewrite map_map. apply map_ext. intros r. now rewrite map_map.
Qed.

Lemma map2d_ext_in (f g : float64 -> float64) (a : ndarray) :
  (forall x, In x (Np.flatten a) -> f x = g x) -> Np.map2d f a = Np.map2d g a.
Proof.
  unfold Np.flatten, Np.map2d. induction a as [|r a IH]; cbn; intros H; [reflexivity|].
  f_equal.
  - apply map_ext_in. intros x Hx. apply H, in_or_app. now left.
  - apply IH. intros x Hx. apply H, in_or_app. now right.
Qed.

End NpFacts.

(** ** normalize_predictions *)

Lemma normalize_predictions_eq (a : ndarray) (ratings : ratings_frame) (lo hi : float64) :
  Np.min a = Ok lo -> Np.max a = Ok hi ->
  normalize_predictions a ratings =
  Ok (Np.map2d (rescale_cell lo hi (Pd.series_min (map rating ratings))
                             (Pd.series_max (map rating ratings))) a).
Proof.
  intros Hlo Hhi. unfold normalize_predictions. rewrite Hlo, Hhi. cbn [bind].
  unfold Np.add_scalar, Np.mul_scalar, Np.div_scalar, Np.sub_scalar.
  now rewrite !NpFacts.map2d_map2d.
Qed.

Lemma normalize_predictions_empty (a : ndarray) (ratings : ratings_frame) :
  Np.flatten a = [] ->
  normalize_predictions a ratings =
  Raise (ValueError
    "zero-size array to reduction operation minimum which has no identity").
Proof.
  intros H. unfold normalize_predictions, Np.min, Np.min1. now rewrite H.
Qed.

(** A cell between a minimum and a maximum that compare equal rescales to
    [NaN]: the quotient is [0/0], or [inf - inf] was taken before. *)
Lemma rescale_cell_degenerate (lo hi rmin rmax x : float64) :
  (lo <= x)%f64 = true -> (x <= hi)%f64 = true -> (hi == lo)%f64 = true ->
  rescale_cell lo hi rmin rmax x = NaN.
Proof.
  unfold rescale_cell, F64.sub. intros H1 H2 H3.
  destruct lo as [l| | |], hi as [h| | |], x as [c| | |]; cbn in *;
    try discriminate; try reflexivity.
  destruct (Qeq_bool_spec (h + - l) 0) as [E|E].
  - unfold F64.signed_inf.
    destruct (Qcompare_spec (c + - l) 0); qcases.
  - exfalso. qcases.
Qed.

(** C2, as the code has it: when the maximum of the reconstruction equals its
    minimum no fallback is applied; the rescaling divides zero by zero and
    every cell of the result is [NaN], for every rating range. *)
Theorem degenerate_reconstruction_is_all_nan
    (reconstructed : ndarray) (ratings : ratings_frame) (lo hi : float64) :
  Np.min reconstructed = Ok lo ->
  Np.max reconstructed = Ok hi ->
  (hi == lo)%f64 = true ->
  normalize_predictions reconstructed ratings =
  Ok (Np.map2d (fun _ => NaN) reconstructed).
Proof.
  intros Hlo Hhi Heq.
  rewrite normalize_predictions_eq with (lo := lo) (hi := hi) by assumption.
  f_equal.
  destruct (F64Facts.eqb_not_nan _ _ Heq) as [Hh Hl].
  destruct (NpFacts.min_bounds _ Hlo Hl) as [_ Hmin].
  destruct (NpFacts.max_bounds _ Hhi Hh) as [_ Hmax].
  apply NpFacts.map2d_ext_in. intros x Hx.
  rewrite Forall_forall in Hmin, Hmax.
  apply rescale_cell_degenerate; auto.
Qed.

Lemma degenerate_reconstruction_is_all_nan_witness :
  normalize_predictions [[Fin 2; Fin 2]] two_ratings =
  Ok (Np.map2d (fun _ => NaN) [[Fin 2; Fin 2]]).
Proof.
  apply (@degenerate_reconstruction_is_all_nan
           [[Fin 2; Fin 2]] two_ratings (Fin 2) (Fin 2)); reflexivity.
Defined.

(** C2 as stated fails: a constant reconstruction gets no fallback value,
    and every cell that comes out is non-finite. *)
Lemma degenerate_reconstruction_no_fallback :
  Np.max [[Fin 2; Fin 2]] = Np.min [[Fin 2; Fin 2]] /\
  normalize_predictions [[Fin 2; Fin 2]] two_ratings = Ok [[NaN; NaN]] /\
  forallb F64.isfinite (Np.flatten [[NaN; NaN]]) = false.
Proof. repeat split. Qed.

(** *** The affine map on rationals *)

Module Affine.

Lemma rescale_cell_fin (l h rl rh c : Q) :
  l < h ->
  rescale_cell (Fin l) (Fin h) (Fin rl) (Fin rh) (Fin c) = Fin (affine l h rl rh c).
Proof.
  intros Hlh. unfold rescale_cell, F64.sub, affine. cbn.
  destruct (Qeq_bool_spec (h + - l) 0) as [E|E]; [exfalso; lra|reflexivity].
Qed.

Lemma g_le (l h rl rh c c' : Q) :
  l < h -> rl <= rh -> c <= c' -> affine l h rl rh c <= affine l h rl rh c'.
Proof.
  intros Hlh Hr Hc. unfold affine, Qdiv.
  assert (Hk : 0 < / (h + - l)) by (apply Qinv_lt_0_compat; lra).
  set (k := / (h + - l)) in *.
  assert (Hkr : 0 <= k * (rh + - rl)) by (apply Qmult_le_0_compat; lra).
  assert (E : (c' + - l) * k * (rh + - rl) + rl - ((c + - l) * k * (rh + - rl) + rl)
              == (c' - c) * (k * (rh + - rl))) by ring.
  assert (0 <= (c' - c) * (k * (rh + - rl))) by (apply Qmult_le_0_compat; lra).
  lra.
Qed.

Lemma g_lt (l h rl rh c c' : Q) :
  l < h -> rl < rh -> c < c' -> affine l h rl rh c < affine l h rl rh c'.
Proof.
  intros Hlh Hr Hc. unfold affine, Qdiv.
  assert (Hk : 0 < / (h + - l)) by (apply Qinv_lt_0_compat; lra).
  set (k := / (h + - l)) in *.
  assert (Hkr : 0 < k * (rh + - rl)) by (apply Qmult_lt_0_compat; lra).
  assert (E : (c' + - l) * k * (rh + - rl) + rl - ((c + - l) * k * (rh + - rl) + rl)
              == (c' - c) * (k * (rh + - rl))) by ring.
  assert (0 < (c' - c) * (k * (rh + - rl))) by (apply Qmult_lt_0_compat; lra).
  lra.
Qed.

Lemma g_eq (l h rl rh c c' : Q) : c == c' -> affine l h rl rh c == affine l h rl rh c'.
Proof. intros E. unfold affine. now rewrite E. Qed.

Lemma g_min (l h rl rh : Q) : affine l h rl rh l == rl.
Proof. unfold affine, Qdiv. ring. Qed.

Lemma g_max (l h rl rh : Q) : l < h -> affine l h rl rh h == rh.
Proof. intros H. unfold affine. field. lra. Qed.

End Affine.

Module PdFacts.

Lemma fold_Qmin_le (xs : list Q) : forall x, fold_left Qmin xs x <= x.
Proof.
  induction xs as [|y ys IH]; intros x; cbn; [lra|].
  eapply Qle_trans; [apply IH|]. apply Q.le_min_l.
Qed.

Lemma fold_Qmax_ge (xs : list Q) : forall x, x <= fold_left Qmax xs x.
Proof.
  induction xs as [|y ys IH]; intros x; cbn; [lra|].
  eapply Qle_trans; [|apply IH]. apply Q.le_max_l.
Qed.

(** The rating range of a frame that holds a row: two reals, in order. *)
Lemma series_range (col : list Q) :
  col <> [] ->
  exists rl rh, Pd.series_min col = Fin rl /\ Pd.series_max col = Fin rh /\ rl <= rh.
Proof.
  destruct col as [|x xs]; [congruence|]. intros _.
  exists (fold_left Qmin xs x), (fold_left Qmax xs x). repeat split.
  eapply Qle_trans; [apply fold_Qmin_le|apply fold_Qmax_ge].
Qed.

End PdFacts.

Module RescaleFacts.

Lemma minimum_finite (x y : float64) :
  F64.isfinite x = true -> F64.isfinite y = true ->
  F64.isfinite (Np.minimum x y) = true.
Proof.
  destruct x, y; cbn; try discriminate. intros _ _.
  unfold Np.minimum; cbn. now destruct (negb _).
Qed.

Lemma maximum_finite (x y : float64) :
  F64.isfinite x = true -> F64.isfinite y = true ->
  F64.isfinite (Np.maximum x y) = true.
Proof.
  destruct x, y; cbn; try discriminate. intros _ _.
  unfold Np.maximum; cbn. now destruct (negb _).
Qed.

Lemma fold_minimum_finite (xs : ndarray1) : forall x,
  F64.isfinite x = true -> forallb F64.isfinite xs = true ->
  F64.isfinite (fold_left Np.minimum xs x) = true.
Proof.
  induction xs as [|y ys IH]; intros x Hx Hxs; cbn in *; [assumption|].
  apply andb_true_iff in Hxs as [Hy Hys]. apply IH; [|assumption].
  now apply minimum_finite.
Qed.

Lemma fold_maximum_finite (xs : ndarray1) : forall x,
  F64.isfinite x = true -> forallb F64.isfinite xs = true ->
  F64.isfinite (fold_left Np.maximum xs x) = true.
Proof.
  induction xs as [|y ys IH]; intros x Hx Hxs; cbn in *; [assumption|].
  apply andb_true_iff in Hxs as [Hy Hys]. apply IH; [|assumption].
  now apply maximum_finite.
Qed.

Lemma finite_not_nan (x : float64) : F64.isfinite x = true -> F64.isnan x = false.
Proof. now destruct x. Qed.

Lemma finite_inv (x : float64) : F64.isfinite x = true -> exists q, x = Fin q.
Proof. destruct x; try discriminate. eauto. Qed.

(** The least and the greatest cell of a finite matrix after a monotone map
    of its cells are the images of its least and greatest cell. *)
Section MonotoneImage.

Variable f : Q -> Q.
Hypothesis f_le : forall c c', c <= c' -> f c <= f c'.

Let F (x : float64) : float64 :=
  match x with Fin c => Fin (f c) | _ => NaN end.

Lemma image_finite (v : ndarray1) :
  forallb F64.isfinite v = true -> forallb F64.isfinite (map F v) = true.
Proof.
  induction v as [|x v IH]; cbn; [reflexivity|]. intros H.
  apply andb_true_iff in H as [Hx Hv]. rewrite IH by assumption.
  destruct x; try discriminate. reflexivity.
Qed.

Lemma min_of_image (x : float64) (xs : ndarray1) (l : Q) :
  forallb F64.isfinite (x :: xs) = true ->
  fold_left Np.minimum xs x = Fin l ->
  exists m, fold_left Np.minimum (map F xs) (F x) = Fin m /\ m == f l.
Proof.
  intros Hfin Hmin.
  assert (Hfin' := image_finite _ Hfin). cbn [map forallb] in Hfin'.
  apply andb_true_iff in Hfin' as [Hfx Hfxs].
  pose proof (fold_minimum_finite _ _ Hfx Hfxs) as Hm.
  destruct (finite_inv _ Hm) as [m Em]. exists m. split; [assumption|].
  destruct (@NpFacts.fold_minimum (map F xs) (F x)) as [Hin Hall];
    [now apply finite_not_nan|].
  destruct (@NpFacts.fold_minimum xs x) as [Hin0 Hall0];
    [rewrite Hmin; reflexivity|].
  rewrite Em in Hin, Hall. rewrite Hmin in Hin0, Hall0.
  change (F x :: map F xs) with (map F (x :: xs)) in Hin, Hall.
  rewrite Forall_forall in Hall, Hall0.
  apply in_map_iff in Hin as (e & Ee & He).
  specialize (Hall0 _ He).
  specialize (Hall (F (Fin l)) (in_map F _ _ Hin0)).
  destruct e as [c| | |]; cbn in Ee; try discriminate.
  injection Ee as Ee. cbn in Hall, Hall0.
  apply Qle_bool_iff in Hall, Hall0. apply f_le in Hall0. subst m.
  lra.
Qed.

Lemma max_of_image (x : float64) (xs : ndarray1) (h : Q) :
  forallb F64.isfinite (x :: xs) = true ->
  fold_left Np.maximum xs x = Fin h ->
  exists m, fold_left Np.maximum (map F xs) (F x) = Fin m /\ m == f h.
Proof.
  intros Hfin Hmax.
  assert (Hfin' := image_finite _ Hfin). cbn [map forallb] in Hfin'.
  apply andb_true_iff in Hfin' as [Hfx Hfxs].
  pose proof (fold_maximum_finite _ _ Hfx Hfxs) as Hm.
  destruct (finite_inv _ Hm) as [m Em]. exists m. split; [assumption|].
  destruct (@NpFacts.fold_maximum (map F xs) (F x)) as [Hin Hall];
    [now apply finite_not_nan|].
  destruct (@NpFacts.fold_maximum xs x) as [Hin0 Hall0];
    [rewrite Hmax; reflexivity|].
  rewrite Em in Hin, Hall. rewrite Hmax in Hin0, Hall0.
  change (F x :: map F xs) with (map F (x :: xs)) in Hin, Hall.
  rewrite Forall_forall in Hall, Hall0.
  apply in_map_iff in Hin as (e & Ee & He).
  specialize (Hall0 _ He).
  specialize (Hall (F (Fin h)) (in_map F _ _ Hin0)).
  destruct e as [c| | |]; cbn in Ee; try discriminate.
  injection Ee as Ee. cbn in Hall, Hall0.
  apply Qle_bool_iff in Hall, Hall0. apply f_le in Hall0. subst m.
  lra.
Qed.

End MonotoneImage.

End RescaleFacts.

Lemma forallb_In {A : Type} (p : A -> bool) (l : list A) (x : A) :
  forallb p l = true -> In x l -> p x = true.
Proof. intros H Hx. rewrite forallb_forall in H. auto. Qed.

(** On a finite, non-degenerate reconstruction and a non-empty frame the
    rescaling is the affine map [affine] on every cell. *)
Lemma normalize_predictions_affine
    (a : ndarray) (ratings : ratings_frame) (l h rl rh : Q) :
  forallb F64.isfinite (Np.flatten a) = true ->
  Np.min a = Ok (Fin l) -> Np.max a = Ok (Fin h) -> l < h ->
  Pd.series_min (map rating ratings) = Fin rl ->
  Pd.series_max (map rating ratings) = Fin rh ->
  normalize_predictions a ratings =
  Ok (Np.map2d (fun x => match x with
                         | Fin c => Fin (affine l h rl rh c)
                         | _ => NaN
                         end) a).
Proof.
  intros Hfin Hlo Hhi Hlh Hrl Hrh.
  rewrite normalize_predictions_eq with (lo := Fin l) (hi := Fin h) by assumption.
  rewrite Hrl, Hrh. f_equal. apply NpFacts.map2d_ext_in. intros x Hx.
  destruct (RescaleFacts.finite_inv _ (forallb_In _ _ _ Hfin Hx)) as [c ->].
  now apply Affine.rescale_cell_fin.
Qed.

(** In exact arithmetic a non-degenerate reconstruction of reals is
    rescaled onto the rating range: the least cell of the result is the
    least rating and its greatest cell is the greatest rating. *)
Lemma exact_extremes_are_rating_range
    (reconstructed : ndarray) (ratings : ratings_frame) (lo hi : float64) :
  forallb F64.isfinite (Np.flatten reconstructed) = true ->
  Np.min reconstructed = Ok lo ->
  Np.max reconstructed = Ok hi ->
  (lo < hi)%f64 = true ->
  ratings <> [] ->
  exists predicted pmin pmax,
    normalize_predictions reconstructed ratings = Ok predicted /\
    Np.min predicted = Ok pmin /\
    Np.max predicted = Ok pmax /\
    (pmin == Pd.series_min (map rating ratings))%f64 = true /\
    (pmax == Pd.series_max (map rating ratings))%f64 = true.
Proof.
  intros Hfin Hlo Hhi Hlt Hne.
  destruct (NpFacts.min_ok _ Hlo) as (x & xs & Eflat & Elo).
  destruct (NpFacts.max_ok _ Hhi) as (x' & xs' & Eflat' & Ehi).
  rewrite Eflat in Eflat'. injection Eflat' as <- <-.
  assert (Hfin' := Hfin). rewrite Eflat in Hfin'. cbn [forallb] in Hfin'.
  apply andb_true_iff in Hfin' as [Hx Hxs].
  destruct (RescaleFacts.finite_inv _ (RescaleFacts.fold_minimum_finite _ _ Hx Hxs))
    as [l El].
  destruct (RescaleFacts.finite_inv _ (RescaleFacts.fold_maximum_finite _ _ Hx Hxs))
    as [h Eh].
  rewrite El in Elo. rewrite Eh in Ehi. subst lo hi.
  assert (Hlh : l < h) by (cbn in Hlt; qcases).
  destruct (@PdFacts.series_range (map rating ratings)) as (rl & rh & Erl & Erh & Hr).
  { destruct ratings; [congruence|discriminate]. }
  pose proof (@normalize_predictions_affine reconstructed ratings l h rl rh
                Hfin Hlo Hhi Hlh Erl Erh) as Hn.
  set (F := fun x => match x with
                     | Fin c => Fin (affine l h rl rh c)
                     | _ => NaN
                     end) in Hn.
  assert (Hle : forall c c', c <= c' -> affine l h rl rh c <= affine l h rl rh c')
    by (intros; now apply Affine.g_le).
  assert (Hall : forallb F64.isfinite (x :: xs) = true)
    by (cbn; now rewrite Hx, Hxs).
  destruct (RescaleFacts.min_of_image _ Hle _ _ Hall El) as (m & Em & Hm).
  destruct (RescaleFacts.max_of_image _ Hle _ _ Hall Eh) as (m' & Em' & Hm').
  exists (Np.map2d F reconstructed), (Fin m), (Fin m').
  split; [assumption|].
  unfold Np.min, Np.max. rewrite NpFacts.flatten_map2d, Eflat. cbn [map Np.min1 Np.max1].
  assert (Emin : fold_left Np.minimum (map F xs) (F x) = Fin m) by exact Em.
  assert (Emax : fold_left Np.maximum (map F xs) (F x) = Fin m') by exact Em'.
  rewrite Emin, Emax, Erl, Erh.
  repeat split; cbn; apply Qeq_bool_iff.
  - rewrite Hm. apply Affine.g_min.
  - rewrite Hm'. now apply Affine.g_max.
Qed.

(** ** Cells *)

Lemma cell_In (a : ndarray) (i j : nat) (x : float64) :
  cell a i j = Some x -> In x (Np.flatten a).
Proof.
  unfold cell, Np.flatten. destruct (nth_error a i) as [r|] eqn:E; [|discriminate].
  intros H. apply in_concat. exists r. split; eapply nth_error_In; eassumption.
Qed.

Lemma row_finite (a : ndarray) (i : nat) (r : ndarray1) :
  forallb F64.isfinite (Np.flatten a) = true ->
  nth_error a i = Some r -> forallb F64.isfinite r = true.
Proof.
  intros Hfin Hr. apply forallb_forall. intros x Hx.
  eapply forallb_In; [exact Hfin|]. apply in_concat. exists r.
  split; [eapply nth_error_In; eassumption|assumption].
Qed.

Lemma cell_map2d (f : float64 -> float64) (a : ndarray) (i j : nat) :
  cell (Np.map2d f a) i j = option_map f (cell a i j).
Proof.
  unfold cell, Np.map2d. rewrite nth_error_map.
  destruct (nth_error a i) as [r|]; cbn; [|reflexivity]. apply nth_error_map.
Qed.

Lemma finite_extremes (a : ndarray) (lo hi : float64) :
  forallb F64.isfinite (Np.flatten a) = true ->
  Np.min a = Ok lo -> Np.max a = Ok hi ->
  exists l h, lo = Fin l /\ hi = Fin h.
Proof.
  intros Hfin Hlo Hhi.
  destruct (NpFacts.min_ok _ Hlo) as (x & xs & Eflat & Elo).
  destruct (NpFacts.max_ok _ Hhi) as (x' & xs' & Eflat' & Ehi).
  rewrite Eflat in Eflat'. injection Eflat' as <- <-.
  rewrite Eflat in Hfin. cbn [forallb] in Hfin.
  apply andb_true_iff in Hfin as [Hx Hxs].
  destruct (RescaleFacts.finite_inv _ (RescaleFacts.fold_minimum_finite _ _ Hx Hxs))
    as [l El].
  destruct (RescaleFacts.finite_inv _ (RescaleFacts.fold_maximum_finite _ _ Hx Hxs))
    as [h Eh].
  exists l, h. split; congruence.
Qed.

(** ** recommend_movies *)

Module RecFacts.

Lemma find_loc_Some (idx : Index) (label : Z) : forall i,
  Pd.find_loc idx label = Some i -> nth_error idx i = Some label.
Proof.
  induction idx as [|l idx IH]; intros i; cbn; [discriminate|].
  destruct (Z.eqb_spec label l) as [->|Hne].
  - now intros [= <-].
  - destruct (Pd.find_loc idx label) as [k|]; cbn; [|discriminate].
    intros [= <-]. cbn. now apply IH.
Qed.

Lemma contains_find_loc (idx : Index) (label : Z) :
  Pd.contains idx label = true ->
  exists i, Pd.find_loc idx label = Some i.
Proof.
  unfold Pd.contains. induction idx as [|l idx IH]; cbn; [discriminate|].
  destruct (Z.eqb_spec label l) as [->|Hne]; cbn; [eauto|].
  intros H. destruct (IH H) as [i ->]. cbn. eauto.
Qed.

Lemma contains_In (idx : Index) (label : Z) :
  Pd.contains idx label = true <-> In label idx.
Proof.
  unfold Pd.contains. rewrite existsb_exists. split.
  - intros (x & Hx & E). apply Z.eqb_eq in E. now subst.
  - intros H. exists label. split; [assumption|apply Z.eqb_refl].
Qed.

(** The positions that [np.where] returns are those at which the mask
    holds. *)
Lemma where_from_In (mask : list bool) : forall i j,
  In j (Np.where_from i mask) <->
  exists k, j = (i + k)%nat /\ nth_error mask k = Some true.
Proof.
  induction mask as [|b mask IH]; intros i j; cbn.
  - split; [tauto|]. intros (k & _ & H). now destruct k.
  - assert (Hrest : In j (Np.where_from (S i) mask) <->
                    exists k, j = (i + S k)%nat /\ nth_error mask k = Some true).
    { rewrite IH. split; intros (k & -> & H); exists k; split; auto; lia. }
    destruct b; cbn; rewrite Hrest; split.
    + intros [<-|(k & -> & H)]; [exists 0%nat|exists (S k)]; cbn; split; auto; lia.
    + intros ([|k] & -> & H); [left; lia|right; exists k; cbn in H; auto].
    + intros (k & -> & H); exists (S k); cbn; auto.
    + intros ([|k] & -> & H); [discriminate|exists k; cbn in H; auto].
Qed.

Lemma where_from_sorted (mask : list bool) : forall i,
  StronglySorted lt (Np.where_from i mask).
Proof.
  induction mask as [|b mask IH]; intros i; cbn; [constructor|].
  destruct b; [|apply IH]. constructor; [apply IH|].
  apply Forall_forall. intros j Hj. apply where_from_In in Hj as (k & -> & _). lia.
Qed.

Lemma where_sorted (mask : list bool) : StronglySorted lt (Np.where_ mask).
Proof. apply where_from_sorted. Qed.

Lemma where_In (mask : list bool) (j : nat) :
  In j (Np.where_ mask) <-> nth_error mask j = Some true.
Proof.
  unfold Np.where_. rewrite where_from_In. split.
  - now intros (k & -> & H).
  - intros H. now exists j.
Qed.

(** With every position inside the row and the movie index, the loop
    appends one pair per position, in order. *)
Lemma collect_Ok (row : ndarray1) (movie_mapper : Index) (indices : list nat) :
  (forall j, In j indices -> (j < length row)%nat /\ (j < length movie_mapper)%nat) ->
  forall acc,
    collect row movie_mapper indices acc =
    Ok (acc ++ map (fun j => (nth j movie_mapper 0%Z, nth j row F64.zero)) indices).
Proof.
  induction indices as [|idx rest IH]; intros Hin acc; cbn.
  - now rewrite app_nil_r.
  - destruct (Hin idx (or_introl eq_refl)) as [Hr Hm].
    unfold Np.getitem.
    rewrite (nth_error_nth' movie_mapper 0%Z Hm), (nth_error_nth' row F64.zero Hr).
    cbn. rewrite IH by (intros; apply Hin; now right).
    now rewrite <- app_assoc.
Qed.

Lemma insert_desc_zero (x : Z * float64) (l : list (Z * float64)) :
  is_zero x -> Forall is_zero l -> insert_desc x l = x :: l.
Proof.
  intros Hx Hl. destruct Hl as [|y l Hy Hl]; cbn; [reflexivity|].
  unfold is_zero in *. destruct (snd x), (snd y); cbn in *; try discriminate.
  qcases.
Qed.

(** Sorting candidates whose scores all equal 0 leaves them in column
    order. *)
Lemma sort_desc_zero (l : list (Z * float64)) :
  Forall is_zero l -> sort_desc l = l.
Proof.
  induction 1 as [|x l Hx Hl IH]; cbn; [reflexivity|].
  fold (sort_desc l). rewrite IH. now apply insert_desc_zero.
Qed.

Lemma firstn_incl {A : Type} (x : A) : forall (n : nat) (l : list A),
  In x (firstn n l) -> In x l.
Proof.
  induction n as [|n IH]; intros [|y l]; cbn; try tauto.
  intros [->|H]; [now left|right; now apply IH].
Qed.

Lemma slice_to_incl {A : Type} (l : list A) (n : Z) (x : A) :
  In x (slice_to l n) -> In x l.
Proof.
  unfold slice_to. destruct (0 <=? n)%Z; apply firstn_incl.
Qed.


Lemma insert_desc_In (x y : Z * float64) (l : list (Z * float64)) :
  In y (insert_desc x l) <-> y = x \/ In y l.
Proof.
  induction l as [|z l IH]; cbn; [intuition congruence|].
  destruct (snd x < snd z)%f64; cbn; rewrite ?IH; intuition congruence.
Qed.

Lemma sort_desc_In (y : Z * float64) (l : list (Z * float64)) :
  In y (sort_desc l) <-> In y l.
Proof.
  induction l as [|x l IH]; cbn; [tauto|].
  fold (sort_desc l). rewrite insert_desc_In, IH. intuition congruence.
Qed.

End RecFacts.

Lemma candidates_zero (row : ndarray1) (movie_mapper : Index) :
  Forall is_zero (candidates row movie_mapper).
Proof.
  unfold candidates. apply Forall_forall. intros p Hp.
  apply in_map_iff in Hp as (j & <- & Hj). apply RecFacts.where_In in Hj.
  rewrite nth_error_map in Hj.
  destruct (nth_error row j) as [x|] eqn:E; [|discriminate].
  injection Hj as Hx. unfold is_zero; cbn.
  now rewrite (nth_error_nth _ _ F64.zero E).
Qed.

(** What [recommend_movies] returns for a user of the index, when the
    matrix has a row per user of the index and a movie per column. *)
Lemma recommend_movies_known_user
    (user_id : Z) (pred : ndarray) (user_mapper movie_mapper : Index) (top_n : Z) :
  Pd.contains user_mapper user_id = true ->
  (length user_mapper <= length pred)%nat ->
  Forall (fun r => (length r <= length movie_mapper)%nat) pred ->
  exists user_idx row,
    Pd.get_loc user_mapper user_id = Ok user_idx /\
    nth_error user_mapper user_idx = Some user_id /\
    nth_error pred user_idx = Some row /\
    (length row <= length movie_mapper)%nat /\
    recommend_movies user_id pred user_mapper movie_mapper top_n =
    Ok (slice_to (sort_desc (candidates row movie_mapper)) top_n).
Proof.
  intros Hin Hrows Hcols.
  destruct (RecFacts.contains_find_loc _ _ Hin) as [user_idx Hloc].
  pose proof (RecFacts.find_loc_Some _ _ Hloc) as Hnth.
  assert (Hlt : (user_idx < length pred)%nat).
  { assert (user_idx < length user_mapper)%nat by (apply nth_error_Some; congruence).
    lia. }
  destruct (nth_error pred user_idx) as [row|] eqn:Erow;
    [|apply nth_error_None in Erow; lia].
  assert (Hrow : (length row <= length movie_mapper)%nat).
  { rewrite Forall_forall in Hcols. apply Hcols. eapply nth_error_In; eassumption. }
  exists user_idx, row. unfold Pd.get_loc. rewrite Hloc.
  repeat split; try assumption.
  unfold recommend_movies, Pd.get_loc. rewrite Hin, Hloc. cbn [negb bind].
  unfold Np.getitem. rewrite Erow. cbn [bind]. unfold rank.
  rewrite RecFacts.collect_Ok.
  - reflexivity.
  - intros j Hj. apply RecFacts.where_In in Hj. rewrite nth_error_map in Hj.
    destruct (nth_error row j) as [x|] eqn:E; [|discriminate].
    assert (j < length row)%nat by (apply nth_error_Some; congruence). lia.
Qed.

Lemma zero_columns_In (row : ndarray1) (j : nat) :
  In j (Np.where_ (map (fun x => x == F64.zero)%f64 row)) <->
  exists s, nth_error row j = Some s /\ (s == F64.zero)%f64 = true.
Proof.
  rewrite RecFacts.where_In, nth_error_map. split.
  - destruct (nth_error row j) as [s|]; cbn; [|discriminate].
    intros [= H]. eauto.
  - intros (s & -> & H). cbn. now rewrite H.
Qed.

(** C3: for a user of an index without repeated labels, and a matrix that
    fits the two indexes, the candidate columns are exactly the
    columns whose cell in the user's row of the predicted matrix equals 0,
    each once and in column order; a candidate is scored with that same
    cell, and every pair that is returned is a candidate with its score. *)
Theorem recommender_candidates_are_zero_cells
    (user_id : Z) (pred : ndarray) (user_mapper movie_mapper : Index) (top_n : Z) :
  NoDup user_mapper ->
  Pd.contains user_mapper user_id = true ->
  (length user_mapper <= length pred)%nat ->
  Forall (fun r => (length r <= length movie_mapper)%nat) pred ->
  exists user_idx row cols,
    nth_error user_mapper user_idx = Some user_id /\
    nth_error pred user_idx = Some row /\
    StronglySorted lt cols /\
    (forall j, In j cols <->
               exists s, nth_error row j = Some s /\ (s == F64.zero)%f64 = true) /\
    recommend_movies user_id pred user_mapper movie_mapper top_n =
    Ok (slice_to
          (sort_desc (map (fun j => (nth j movie_mapper 0%Z, nth j row F64.zero)) cols))
          top_n) /\
    (forall m s,
        In (m, s) (slice_to
                     (sort_desc
                        (map (fun j => (nth j movie_mapper 0%Z, nth j row F64.zero)) cols))
                     top_n) ->
        exists j, In j cols /\ nth_error row j = Some s /\
                  nth_error movie_mapper j = Some m).
Proof.
  intros _ Hin Hrows Hcols.
  destruct (@recommend_movies_known_user user_id pred user_mapper movie_mapper top_n
              Hin Hrows Hcols)
    as (user_idx & row & _ & Hu & Hr & Hlen & Hrec).
  exists user_idx, row, (Np.where_ (map (fun x => x == F64.zero)%f64 row)).
  split; [assumption|]. split; [assumption|].
  split; [apply RecFacts.where_sorted|].
  split; [intros j; apply zero_columns_In|].
  split; [exact Hrec|].
  intros m s H. apply RecFacts.slice_to_incl in H.
  rewrite RecFacts.sort_desc_In in H.
  apply in_map_iff in H as (j & [= <- <-] & Hj). exists j. split; [assumption|].
  apply zero_columns_In in Hj as (s & Hs & _).
  assert (j < length row)%nat by (apply nth_error_Some; congruence).
  split; apply nth_error_nth'; lia.
Qed.

Example recommend_movies_run :
  recommend_movies 7 pred_2x3 [3; 7]%Z [10; 20; 30]%Z 5 = Ok [(20%Z, Fin 0)] /\
  recommend_movies 3 pred_2x3 [3; 7]%Z [10; 20; 30]%Z 5 =
  Ok [(10%Z, Fin 0); (30%Z, Fin 0)].
Proof. split; reflexivity. Qed.

Lemma recommender_candidates_are_zero_cells_witness :
  exists user_idx row cols,
    nth_error [3; 7]%Z user_idx = Some 7%Z /\
    nth_error pred_2x3 user_idx = Some row /\
    StronglySorted lt cols /\
    (forall j, In j cols <->
               exists s, nth_error row j = Some s /\ (s == F64.zero)%f64 = true) /\
    recommend_movies 7 pred_2x3 [3; 7]%Z [10; 20; 30]%Z 5 =
    Ok (slice_to
          (sort_desc (map (fun j => (nth j [10; 20; 30]%Z 0%Z, nth j row F64.zero)) cols))
          5) /\
    (forall m s,
        In (m, s) (slice_to
                     (sort_desc
                        (map (fun j => (nth j [10; 20; 30]%Z 0%Z, nth j row F64.zero))
                             cols))
                     5) ->
        exists j, In j cols /\ nth_error row j = Some s /\
                  nth_error [10; 20; 30]%Z j = Some m).
Proof.
  apply (@recommender_candidates_are_zero_cells 7 pred_2x3 [3; 7]%Z [10; 20; 30]%Z 5).
  - repeat constructor; cbn; intuition discriminate.
  - reflexivity.
  - cbn; lia.
  - repeat constructor.
Defined.






(** *** Further facts about the recommender *)

(** The candidates all score 0, so the sort moves nothing: a user of an
    index without repeated labels gets the first [top_n] candidates in
    column order. *)
Theorem recommendations_in_column_order
    (user_id : Z) (pred : ndarray) (user_mapper movie_mapper : Index) (top_n : Z) :
  NoDup user_mapper ->
  Pd.contains user_mapper user_id = true ->
  (length user_mapper <= length pred)%nat ->
  Forall (fun r => (length r <= length movie_mapper)%nat) pred ->
  (0 <= top_n)%Z ->
  exists user_idx row,
    nth_error user_mapper user_idx = Some user_id /\
    nth_error pred user_idx = Some row /\
    recommend_movies user_id pred user_mapper movie_mapper top_n =
    Ok (firstn (Z.to_nat top_n) (candidates row movie_mapper)).
Proof.
  intros _ Hin Hrows Hcols Hn.
  destruct (@recommend_movies_known_user user_id pred user_mapper movie_mapper top_n
              Hin Hrows Hcols)
    as (user_idx & row & _ & Hu & Hr & _ & Hrec).
  exists user_idx, row. split; [assumption|]. split; [assumption|].
  rewrite Hrec, RecFacts.sort_desc_zero by apply candidates_zero.
  unfold slice_to. now destruct (Z.leb_spec 0 top_n); [|lia].
Qed.

Lemma recommendations_in_column_order_witness :
  exists user_idx row,
    nth_error [3; 7]%Z user_idx = Some 3%Z /\
    nth_error pred_2x3 user_idx = Some row /\
    recommend_movies 3 pred_2x3 [3; 7]%Z [10; 20; 30]%Z 1 =
    Ok (firstn (Z.to_nat 1) (candidates row [10; 20; 30]%Z)).
Proof.
  apply (@recommendations_in_column_order 3 pred_2x3 [3; 7]%Z [10; 20; 30]%Z 1).
  - repeat constructor; cbn; intuition discriminate.
  - reflexivity.
  - cbn; lia.
  - repeat constructor.
  - lia.
Defined.

Lemma where_from_none (mask : list bool) : forall i,
  forallb negb mask = true -> Np.where_from i mask = [].
Proof.
  induction mask as [|b mask IH]; intros i; cbn; [reflexivity|].
  destruct b; cbn; [discriminate|]. apply IH.
Qed.

Lemma where_none_of_row (row : ndarray1) :
  forallb (fun x => negb (x == F64.zero)%f64) row = true ->
  Np.where_ (map (fun x => x == F64.zero)%f64 row) = [].
Proof.
  intros H. unfold Np.where_. apply where_from_none.
  induction row as [|x row IH]; cbn in *; [reflexivity|].
  apply andb_true_iff in H as [Hx Hrow]. rewrite Hx. now apply IH.
Qed.

(** A matrix without a cell equal to 0 yields no recommendation. *)
Lemma recommend_movies_no_zero
    (user_id : Z) (pred : ndarray) (user_mapper movie_mapper : Index) (top_n : Z) :
  forallb (fun x => negb (x == F64.zero)%f64) (Np.flatten pred) = true ->
  (length user_mapper <= length pred)%nat ->
  recommend_movies user_id pred user_mapper movie_mapper top_n = Ok [].
Proof.
  intros Hnz Hrows. unfold recommend_movies.
  destruct (Pd.contains user_mapper user_id) eqn:Hin; [|reflexivity]. cbn [negb].
  destruct (RecFacts.contains_find_loc _ _ Hin) as [user_idx Hloc].
  pose proof (RecFacts.find_loc_Some _ _ Hloc) as Hnth.
  unfold Pd.get_loc. rewrite Hloc. cbn [bind]. unfold Np.getitem.
  destruct (nth_error pred user_idx) as [row|] eqn:Erow.
  - cbn [bind]. rewrite (where_none_of_row row).
    + unfold rank. cbn. unfold slice_to. now destruct (0 <=? top_n)%Z; destruct (Z.to_nat _).
    + apply forallb_forall. intros x Hx.
      apply (@forallb_In _ (fun x => negb (x == F64.zero)%f64) (Np.flatten pred));
        [exact Hnz|].
      apply in_concat. exists row. split; [eapply nth_error_In; eassumption|assumption].
  - apply nth_error_None in Erow.
    assert (user_idx < length user_mapper)%nat by (apply nth_error_Some; congruence).
    lia.
Qed.

(** In a run the recommender reads the rescaled matrix: when the least
    rating is above 0, a non-degenerate reconstruction of reals rescales to
    a matrix without a cell equal to 0, and no user of an index without
    repeated labels gets a recommendation. *)
Theorem rescaled_matrix_yields_no_recommendation
    (reconstructed : ndarray) (ratings : ratings_frame) (lo hi : float64)
    (user_id : Z) (user_mapper movie_mapper : Index) (top_n : Z) :
  forallb F64.isfinite (Np.flatten reconstructed) = true ->
  Np.min reconstructed = Ok lo ->
  Np.max reconstructed = Ok hi ->
  (lo < hi)%f64 = true ->
  (F64.zero < Pd.series_min (map rating ratings))%f64 = true ->
  NoDup user_mapper ->
  (length user_mapper <= length reconstructed)%nat ->
  exists predicted,
    normalize_predictions reconstructed ratings = Ok predicted /\
    recommend_movies user_id predicted user_mapper movie_mapper top_n = Ok [].
Proof.
  intros Hfin Hlo Hhi Hlt Hpos _ Hrows.
  destruct (finite_extremes _ Hfin Hlo Hhi) as (l & h & -> & ->).
  assert (Hlh : l < h) by (cbn in Hlt; qcases).
  destruct (@PdFacts.series_range (map rating ratings)) as (rl & rh & Erl & Erh & Hr).
  { destruct (map rating ratings); [discriminate|congruence]. }
  assert (Hrl : 0 < rl) by (rewrite Erl in Hpos; cbn in Hpos; qcases).
  pose proof (@normalize_predictions_affine reconstructed ratings l h rl rh
                Hfin Hlo Hhi Hlh Erl Erh) as Hn.
  eexists. split; [exact Hn|].
  apply recommend_movies_no_zero.
  - rewrite NpFacts.flatten_map2d. apply forallb_forall. intros y Hy.
    apply in_map_iff in Hy as (x & <- & Hx).
    destruct (RescaleFacts.finite_inv _ (forallb_In _ _ _ Hfin Hx)) as [c ->].
    destruct (NpFacts.min_bounds _ Hlo eq_refl) as [_ Hmin].
    rewrite Forall_forall in Hmin. specialize (Hmin _ Hx). cbn in Hmin.
    apply Qle_bool_iff in Hmin.
    pose proof (@Affine.g_le l h rl rh l c Hlh Hr Hmin) as Hle.
    rewrite Affine.g_min in Hle. cbn. qcases.
  - unfold Np.map2d. now rewrite length_map.
Qed.

Lemma rescaled_matrix_yields_no_recommendation_witness :
  exists predicted,
    normalize_predictions [[Fin 1; Fin 3]; [Fin 2; Fin 0]] two_ratings = Ok predicted /\
    recommend_movies 7 predicted [3; 7]%Z [10; 20]%Z 5 = Ok [].
Proof.
  apply (@rescaled_matrix_yields_no_recommendation
           [[Fin 1; Fin 3]; [Fin 2; Fin 0]] two_ratings (Fin 0) (Fin 3)
           7 [3; 7]%Z [10; 20]%Z 5); try reflexivity.
  repeat constructor; cbn; intuition discriminate.
Defined.

(** ** preprocess_splits *)

Module AlignFacts.

Lemma insert_label_In (z y : Z) (l : Index) :
  In z (Pd.insert_label y l) <-> z = y \/ In z l.
Proof.
  induction l as [|x l IH]; cbn; [intuition congruence|].
  destruct (Z.compare_spec y x) as [->|H|H]; cbn; rewrite ?IH; intuition congruence.
Qed.

(** The labels of a pivot table are the labels of the column. *)
Lemma sorted_labels_In (z : Z) (col : list Z) :
  In z (Pd.sorted_labels col) <-> In z col.
Proof.
  unfold Pd.sorted_labels. induction col as [|y col IH]; cbn; [tauto|].
  rewrite insert_label_In, IH. intuition congruence.
Qed.

Lemma intersection_In (a b : Index) (z : Z) :
  In z (Pd.intersection a b) <-> In z a /\ In z b.
Proof.
  unfold Pd.intersection. rewrite filter_In, RecFacts.contains_In. tauto.
Qed.

Lemma mapM_Ok {A B : Type} (f : A -> result B) (l : list A) :
  (forall x, In x l -> exists y, f x = Ok y) ->
  exists ys, mapM f l = Ok ys /\ length ys = length l.
Proof.
  induction l as [|x l IH]; intros H; cbn.
  - now exists [].
  - destruct (H x (or_introl eq_refl)) as [y ->].
    destruct IH as (ys & -> & Hlen); [intros; apply H; now right|].
    exists (y :: ys). cbn. split; [reflexivity|congruence].
Qed.

Lemma mapM_In {A B : Type} (f : A -> result B) (l : list A) : forall ys y,
  mapM f l = Ok ys -> In y ys -> exists x, In x l /\ f x = Ok y.
Proof.
  induction l as [|x l IH]; intros ys y; cbn.
  - intros [= <-] [].
  - destruct (f x) as [y0|] eqn:E; cbn; [|discriminate].
    destruct (mapM f l) as [ys0|]; cbn; [|discriminate].
    intros [= <-] [<-|Hy]; [eauto|].
    destruct (IH _ _ eq_refl Hy) as (x' & Hx' & E'). eauto.
Qed.

Lemma get_loc_Ok (idx : Index) (label : Z) :
  In label idx ->
  exists i, Pd.get_loc idx label = Ok i.
Proof.
  intros H. apply RecFacts.contains_In in H.
  destruct (RecFacts.contains_find_loc _ _ H) as [i Hi].
  exists i. unfold Pd.get_loc. now rewrite Hi.
Qed.

Lemma get_loc_lt (idx : Index) (label : Z) (i : nat) :
  Pd.get_loc idx label = Ok i -> (i < length idx)%nat.
Proof.
  unfold Pd.get_loc. destruct (Pd.find_loc idx label) as [k|] eqn:E;
    [|discriminate].
  intros [= <-]. apply nth_error_Some. now rewrite (RecFacts.find_loc_Some _ _ E).
Qed.

Lemma pivot_table_well_shaped (df : ratings_frame) (fill : float64) :
  well_shaped (Pd.pivot_table df fill).
Proof.
  unfold well_shaped, Pd.pivot_table; cbn. split.
  - apply length_map.
  - apply Forall_forall. intros r Hr. apply in_map_iff in Hr as (u & <- & _).
    apply length_map.
Qed.

(** [loc] with labels that the frame holds returns, and the frame that comes
    back carries exactly the labels asked for. *)
Lemma loc_Ok (df : DataFrame) (rows cols : Index) :
  well_shaped df ->
  incl rows (index df) -> incl cols (columns df) ->
  exists vals, Pd.loc df rows cols = Ok (mkFrame rows cols vals).
Proof.
  intros [Hrows Hcols] Hr Hc. unfold Pd.loc.
  destruct (@mapM_Ok _ _ (Pd.get_loc (index df)) rows) as (row_locs & E1 & _).
  { intros x Hx. apply get_loc_Ok. now apply Hr. }
  destruct (@mapM_Ok _ _ (Pd.get_loc (columns df)) cols) as (col_locs & E2 & _).
  { intros x Hx. apply get_loc_Ok. now apply Hc. }
  rewrite E1, E2. cbn [bind].
  destruct (@mapM_Ok _ _
              (fun i => r <- Np.getitem (values df) i ;;
                        mapM (Np.getitem r) col_locs) row_locs)
    as (vals & E3 & _).
  { intros i Hi. destruct (mapM_In _ _ _ E1 Hi) as (u & _ & Hu).
    apply get_loc_lt in Hu. unfold Np.getitem at 1.
    destruct (nth_error (values df) i) as [r|] eqn:Er;
      [|apply nth_error_None in Er; lia].
    cbn [bind].
    destruct (@mapM_Ok _ _ (Np.getitem r) col_locs) as (cells & E4 & _); [|eauto].
    intros j Hj. destruct (mapM_In _ _ _ E2 Hj) as (m & _ & Hm).
    apply get_loc_lt in Hm. rewrite Forall_forall in Hcols.
    rewrite <- (Hcols r (nth_error_In _ _ Er)) in Hm.
    unfold Np.getitem. destruct (nth_error r j) eqn:Ej; [eauto|].
    apply nth_error_None in Ej. lia. }
  rewrite E3. cbn. eauto.
Qed.

End AlignFacts.

(** C6: the aligner returns for every pair of splits; the two frames carry
    the same row labels and the same column labels in the same order, which
    is the train table's order; a user (a movie) labels a row (a column)
    exactly when it occurs in both splits. *)
Theorem preprocess_splits_aligned (train_df test_df : ratings_frame) :
  exists train_aligned test_aligned,
    preprocess_splits train_df test_df = Ok (train_aligned, test_aligned) /\
    index train_aligned = index test_aligned /\
    columns train_aligned = columns test_aligned /\
    index train_aligned =
      filter (Pd.contains (index (create_user_movie_matrix test_df)))
             (index (create_user_movie_matrix train_df)) /\
    columns train_aligned =
      filter (Pd.contains (columns (create_user_movie_matrix test_df)))
             (columns (create_user_movie_matrix train_df)) /\
    (forall u, In u (index train_aligned) <->
               In u (map userId train_df) /\ In u (map userId test_df)) /\
    (forall m, In m (columns train_aligned) <->
               In m (map movieId train_df) /\ In m (map movieId test_df)).
Proof.
  unfold preprocess_splits, create_user_movie_matrix.
  set (train_matrix := Pd.pivot_table train_df F64.zero).
  set (test_matrix := Pd.pivot_table test_df F64.zero).
  set (common_users := Pd.intersection (index train_matrix) (index test_matrix)).
  set (common_movies :=
         Pd.intersection (columns train_matrix) (columns test_matrix)).
  assert (Hu : forall u, In u common_users <->
                         In u (map userId train_df) /\ In u (map userId test_df)).
  { intros u. unfold common_users. rewrite AlignFacts.intersection_In. cbn.
    now rewrite !AlignFacts.sorted_labels_In. }
  assert (Hm : forall m, In m common_movies <->
                         In m (map movieId train_df) /\ In m (map movieId test_df)).
  { intros m. unfold common_movies. rewrite AlignFacts.intersection_In. cbn.
    now rewrite !AlignFacts.sorted_labels_In. }
  destruct (@AlignFacts.loc_Ok train_matrix common_users common_movies)
    as (vals1 & E1).
  { apply AlignFacts.pivot_table_well_shaped. }
  { intros u H. now apply AlignFacts.intersection_In in H. }
  { intros m H. now apply AlignFacts.intersection_In in H. }
  destruct (@AlignFacts.loc_Ok test_matrix common_users common_movies)
    as (vals2 & E2).
  { apply AlignFacts.pivot_table_well_shaped. }
  { intros u H. now apply AlignFacts.intersection_In in H. }
  { intros m H. now apply AlignFacts.intersection_In in H. }
  rewrite E1, E2. cbn [bind].
  eexists _, _. split; [reflexivity|]. cbn [index columns].
  do 4 (split; [reflexivity|]). split; assumption.
Qed.

(** *** The cells of the aligned tables *)

Lemma mapM_nth {A B : Type} (f : A -> result B) (l : list A) : forall ys a x,
  mapM f l = Ok ys -> nth_error l a = Some x ->
  exists y, nth_error ys a = Some y /\ f x = Ok y.
Proof.
  induction l as [|x0 l IH]; intros ys a x; cbn.
  - intros _ H. now destruct a.
  - destruct (f x0) as [y0|] eqn:E; cbn; [|discriminate].
    destruct (mapM f l) as [ys0|]; cbn; [|discriminate].
    intros [= <-]. destruct a as [|a]; cbn.
    + intros [= <-]. eauto.
    + intros H. eapply IH; eauto.
Qed.

Lemma loc_cell (df out : DataFrame) (rows cols : Index) (a b : nat) (u m : Z) :
  Pd.loc df rows cols = Ok out ->
  nth_error rows a = Some u -> nth_error cols b = Some m ->
  exists i j,
    nth_error (index df) i = Some u /\ nth_error (columns df) j = Some m /\
    cell (values out) a b = cell (values df) i j.
Proof.
  unfold Pd.loc. intros H Hu Hm.
  apply bind_Ok in H as (row_locs & E1 & H).
  apply bind_Ok in H as (col_locs & E2 & H).
  apply bind_Ok in H as (vals & E3 & H). injection H as <-. cbn [values].
  destruct (mapM_nth _ _ _ E1 Hu) as (i & Hi & Li).
  destruct (mapM_nth _ _ _ E2 Hm) as (j & Hj & Lj).
  destruct (mapM_nth _ _ _ E3 Hi) as (r' & Hr' & Er').
  apply bind_Ok in Er' as (r & Er & Ecells).
  destruct (mapM_nth _ _ _ Ecells Hj) as (c & Hc & Ec).
  unfold Pd.get_loc in Li, Lj.
  destruct (Pd.find_loc (index df) u) as [i'|] eqn:Fi; [|discriminate].
  destruct (Pd.find_loc (columns df) m) as [j'|] eqn:Fj; [|discriminate].
  injection Li as ->. injection Lj as ->.
  exists i, j. split; [now apply RecFacts.find_loc_Some|].
  split; [now apply RecFacts.find_loc_Some|].
  unfold cell, Np.getitem in *. rewrite Hr', Hc.
  destruct (nth_error (values df) i) as [r0|]; [|discriminate].
  injection Er as ->. now destruct (nth_error r j); [injection Ec as ->|].
Qed.

Lemma pivot_table_cell (df : ratings_frame) (i j : nat) (u m : Z) :
  nth_error (index (create_user_movie_matrix df)) i = Some u ->
  nth_error (columns (create_user_movie_matrix df)) j = Some m ->
  cell (values (create_user_movie_matrix df)) i j = Some (pivot_cell df u m).
Proof.
  unfold create_user_movie_matrix, Pd.pivot_table, cell, pivot_cell. cbn.
  intros Hu Hm. rewrite nth_error_map, Hu. cbn. now rewrite nth_error_map, Hm.
Qed.

(** The aligned tables hold, for each user and movie that label them, the
    cell of that user and movie in the pivot table of their own split: the
    mean of the split's ratings of the pair, or 0 without one. *)
Theorem aligned_cells_are_pivot_cells
    (train_df test_df : ratings_frame) (train_aligned test_aligned : DataFrame)
    (a b : nat) (u m : Z) :
  preprocess_splits train_df test_df = Ok (train_aligned, test_aligned) ->
  nth_error (index train_aligned) a = Some u ->
  nth_error (columns train_aligned) b = Some m ->
  cell (values train_aligned) a b = Some (pivot_cell train_df u m) /\
  cell (values test_aligned) a b = Some (pivot_cell test_df u m).
Proof.
  unfold preprocess_splits. intros H Hu Hm.
  apply bind_Ok in H as (tr & E1 & H). apply bind_Ok in H as (te & E2 & H).
  injection H as <- <-.
  assert (Hrows : index tr = Pd.intersection (index (create_user_movie_matrix train_df))
                                             (index (create_user_movie_matrix test_df)) /\
                  columns tr = Pd.intersection (columns (create_user_movie_matrix train_df))
                                               (columns (create_user_movie_matrix test_df))).
  { unfold Pd.loc in E1.
    apply bind_Ok in E1 as (? & _ & E1). apply bind_Ok in E1 as (? & _ & E1).
    apply bind_Ok in E1 as (? & _ & E1). injection E1 as <-. now cbn. }
  destruct Hrows as [Hrows Hcols]. rewrite Hrows in Hu. rewrite Hcols in Hm.
  destruct (@loc_cell _ tr _ _ a b u m E1 Hu Hm) as (i & j & Hi & Hj & ->).
  destruct (@loc_cell _ te _ _ a b u m E2 Hu Hm) as (i' & j' & Hi' & Hj' & ->).
  split; now apply pivot_table_cell.
Qed.

Lemma aligned_cells_are_pivot_cells_witness :
  cell (values table_1x12) 0 1 = Some (pivot_cell (fst (temporal_split sixty_ratings)) 2 2) /\
  cell [[Fin (1 # 2); Fin 5; Fin (1 # 2); Fin 5; Fin (1 # 2); Fin 5;
         Fin (1 # 2); Fin 5; Fin (1 # 2); Fin 5; Fin (1 # 2); Fin 5]] 0 1 =
  Some (pivot_cell (snd (temporal_split sixty_ratings)) 2 2).
Proof.
  apply (@aligned_cells_are_pivot_cells
           (fst (temporal_split sixty_ratings)) (snd (temporal_split sixty_ratings))
           table_1x12
           (mkFrame [2%Z] [1; 2; 3; 4; 5; 6; 7; 8; 9; 10; 11; 12]%Z
              [[Fin (1 # 2); Fin 5; Fin (1 # 2); Fin 5; Fin (1 # 2); Fin 5;
                Fin (1 # 2); Fin 5; Fin (1 # 2); Fin 5; Fin (1 # 2); Fin 5]])
           0 1 2 2).
  - vm_compute. reflexivity.
  - reflexivity.
  - reflexivity.
Defined.

(** ** evaluate_predictions *)

Module EvalFacts.

Lemma flatten_length (a b : ndarray) :
  shape a = shape b -> length (Np.flatten a) = length (Np.flatten b).
Proof.
  unfold shape, Np.flatten. revert b.
  induction a as [|r a IH]; intros [|r' b]; cbn; try discriminate; [reflexivity|].
  intros [= Hr Hrest]. rewrite !length_app. auto.
Qed.

Lemma select_none {A : Type} (v : list A) : forall mask,
  forallb negb mask = true -> Np.select v mask = [].
Proof.
  induction v as [|x v IH]; intros [|b mask]; cbn; try reflexivity.
  destruct b; cbn; [discriminate|]. apply IH.
Qed.

(** Two arrays that agree wherever the mask holds have the same selection. *)
Lemma select_ext {A : Type} (v : list A) : forall w mask,
  length v = length w ->
  (forall k, nth_error mask k = Some true -> nth_error v k = nth_error w k) ->
  Np.select v mask = Np.select w mask.
Proof.
  induction v as [|x v IH]; intros [|y w] mask; cbn; try discriminate; [reflexivity|].
  intros [= Hlen] H. destruct mask as [|b mask]; [reflexivity|].
  assert (Hrest : Np.select v mask = Np.select w mask).
  { apply IH; [assumption|]. intros k Hk. apply (H (S k)). exact Hk. }
  destruct b; [|assumption].
  specialize (H 0%nat eq_refl). cbn in H. injection H as ->. now rewrite Hrest.
Qed.

Lemma mask_of_zeros (v : ndarray1) :
  forallb (fun t => t == F64.zero)%f64 v = true ->
  forallb negb (map (fun x => x != F64.zero)%f64 v) = true.
Proof.
  induction v as [|x v IH]; cbn; [reflexivity|]. intros H.
  apply andb_true_iff in H as [Hx Hv]. unfold F64.neb at 1.
  rewrite Hx. cbn. now apply IH.
Qed.

Lemma getmask_Ok {A B : Type} (v : list A) (f : B -> bool) (w : list B) :
  length v = length w ->
  Np.getmask v (map f w) = Ok (Np.select v (map f w)).
Proof.
  intros H. unfold Np.getmask. rewrite length_map, H, Nat.eqb_refl. reflexivity.
Qed.

Lemma evaluate_predictions_eq (true_matrix : DataFrame) (pred : ndarray) :
  shape pred = shape (values true_matrix) ->
  let true_flat := Np.flatten (values true_matrix) in
  let mask := map (fun x => x != F64.zero)%f64 true_flat in
  evaluate_predictions true_matrix pred =
  score (Np.select true_flat mask) (Np.select (Np.flatten pred) mask).
Proof.
  intros Hshape true_flat mask. unfold evaluate_predictions.
  fold true_flat. fold mask. unfold mask.
  rewrite !getmask_Ok by (try reflexivity; now apply flatten_length).
  reflexivity.
Qed.

Lemma select_length {A B : Type} (v : list A) : forall (w : list B) mask,
  length v = length w -> length (Np.select v mask) = length (Np.select w mask).
Proof.
  induction v as [|x v IH]; intros [|y w] mask; cbn; try discriminate; [reflexivity|].
  intros [= Hlen]. destruct mask as [|[] mask]; cbn; auto.
Qed.

Lemma select_forallb {A : Type} (p : A -> bool) (v : list A) : forall mask,
  forallb p v = true -> forallb p (Np.select v mask) = true.
Proof.
  induction v as [|x v IH]; intros [|b mask]; cbn; intros H; try reflexivity.
  apply andb_true_iff in H as [Hx Hv].
  destruct b; cbn; [rewrite Hx; cbn|]; now apply IH.
Qed.

Lemma select_nonempty {A : Type} (v : list A) : forall mask k,
  length v = length mask -> nth_error mask k = Some true -> Np.select v mask <> [].
Proof.
  induction v as [|x v IH]; intros [|b mask] k; cbn; try discriminate.
  - intros _ H. now destruct k.
  - intros [= Hlen] Hk. destruct b; [discriminate|].
    destruct k as [|k]; [discriminate|]. eapply IH; eassumption.
Qed.

Lemma square_nonneg (z : Q) : 0 <= z * z.
Proof.
  destruct (Qlt_le_dec z 0) as [H|H].
  - setoid_replace (z * z) with ((- z) * (- z)) by ring.
    apply Qmult_le_0_compat; lra.
  - now apply Qmult_le_0_compat.
Qed.

(** A sum of squares of finite differences is a non-negative real. *)
Lemma sum_of_squares (ps : list (float64 * float64)) : forall acc,
  0 <= acc ->
  forallb (fun p => F64.isfinite (fst p) && F64.isfinite (snd p)) ps = true ->
  exists s,
    fold_left F64.add
      (map (fun p => (fst p - snd p) * (fst p - snd p))%f64 ps) (Fin acc) = Fin s /\
    0 <= s.
Proof.
  induction ps as [|[x y] ps IH]; intros acc Hacc Hfin; cbn in *; [eauto|].
  apply andb_true_iff in Hfin as [Hxy Hfin]. apply andb_true_iff in Hxy as [Hx Hy].
  destruct x as [a| | |], y as [b| | |]; try discriminate. cbn.
  apply IH; [|assumption].
  pose proof (square_nonneg (a + - b)). lra.
Qed.

Lemma forallb_combine (v w : ndarray1) :
  forallb F64.isfinite v = true -> forallb F64.isfinite w = true ->
  forallb (fun p => F64.isfinite (fst p) && F64.isfinite (snd p)) (combine v w) = true.
Proof.
  revert w. induction v as [|x v IH]; intros [|y w]; cbn; try reflexivity.
  intros Hv Hw. apply andb_true_iff in Hv as [Hx Hv].
  apply andb_true_iff in Hw as [Hy Hw]. now rewrite Hx, Hy, IH.
Qed.

(** On finite selections that hold a sample every step of the scoring
    returns. *)
Lemma score_returns (true_flat pred_flat : ndarray1) :
  length true_flat = length pred_flat ->
  true_flat <> [] ->
  forallb F64.isfinite true_flat = true ->
  forallb F64.isfinite pred_flat = true ->
  exists mse q p r f,
    score true_flat pred_flat = Ok (Sqrt mse, p, r, f) /\ mse = Fin q /\ 0 <= q.
Proof.
  intros Hlen Hne Ht Hp. unfold score, Sk.mean_squared_error.
  unfold Sk.check_consistent_length, Sk.check_array.
  rewrite <- Hlen, Nat.eqb_refl, Ht, Hp. cbn [negb bind].
  destruct true_flat as [|t true_flat]; [congruence|]. cbn [length Nat.eqb bind].
  destruct pred_flat as [|p0 pred_flat]; [discriminate|].
  destruct (@sum_of_squares (combine (t :: true_flat) (p0 :: pred_flat)) 0)
    as (s & Es & Hs); [lra|now apply forallb_combine|].
  unfold Np.sum, F64.zero. rewrite Es.
  set (n := length _).
  assert (Hn : 0 < inject_Z (Z.of_nat n)).
  { unfold n. cbn [combine map length]. rewrite Nat2Z.inj_succ.
    change 0 with (inject_Z 0). rewrite <- Zlt_Qlt. lia. }
  unfold Sk.of_nat, F64.of_Z. cbn [F64.div].
  destruct (Qeq_bool_spec (inject_Z (Z.of_nat n)) 0) as [E|E]; [lra|].
  assert (Hq : 0 <= s / inject_Z (Z.of_nat n)).
  { unfold Qdiv. apply Qmult_le_0_compat; [assumption|].
    apply Qlt_le_weak, Qinv_lt_0_compat, Hn. }
  unfold math_sqrt, F64.zero. cbn [F64.ltb].
  destruct (Qle_bool_spec 0 (s / inject_Z (Z.of_nat n))) as [H|H]; [|lra].
  cbn [negb bind].
  unfold classification_scores, Sk.precision_score, Sk.recall_score, Sk.f1_score,
    Sk.check_consistent_length.
  unfold binarize. rewrite !length_map, Hlen, Nat.eqb_refl. cbn [bind].
  do 5 eexists. split; [reflexivity|]. split; [reflexivity|assumption].
Qed.

End EvalFacts.

(** C4: for a predicted matrix of the shape of the test table, a test table
    of zeros only makes the evaluator raise for want of samples, so that no
    metrics come back.  In every case the result is that of scoring the
    values at the positions where the test table is not 0, so that two
    predicted matrices that agree on those positions are scored alike; and
    with a cell that is not 0 and finite values the evaluator returns its
    four metrics. *)
Theorem evaluator_uses_rated_positions_only
    (true_matrix : DataFrame) (pred : ndarray) :
  shape pred = shape (values true_matrix) ->
  (forallb (fun t => t == F64.zero)%f64 (Np.flatten (values true_matrix)) = true ->
   evaluate_predictions true_matrix pred =
   Raise (ValueError
     "Found array with 0 sample(s) while a minimum of 1 is required")) /\
  evaluate_predictions true_matrix pred =
  score
    (Np.select (Np.flatten (values true_matrix))
       (map (fun x => x != F64.zero)%f64 (Np.flatten (values true_matrix))))
    (Np.select (Np.flatten pred)
       (map (fun x => x != F64.zero)%f64 (Np.flatten (values true_matrix)))) /\
  (forall pred',
      shape pred' = shape (values true_matrix) ->
      (forall k t,
          nth_error (Np.flatten (values true_matrix)) k = Some t ->
          (t != F64.zero)%f64 = true ->
          nth_error (Np.flatten pred) k = nth_error (Np.flatten pred') k) ->
      evaluate_predictions true_matrix pred = evaluate_predictions true_matrix pred') /\
  (existsb (fun t => t != F64.zero)%f64 (Np.flatten (values true_matrix)) = true ->
   forallb F64.isfinite (Np.flatten (values true_matrix)) = true ->
   forallb F64.isfinite (Np.flatten pred) = true ->
   exists rm p r f, evaluate_predictions true_matrix pred = Ok (rm, p, r, f)).
Proof.
  intros Hs. split; [|split; [|split]].
  - intros Hzero. rewrite EvalFacts.evaluate_predictions_eq by assumption.
    cbv zeta. apply EvalFacts.mask_of_zeros in Hzero.
    rewrite !EvalFacts.select_none by assumption. reflexivity.
  - now apply EvalFacts.evaluate_predictions_eq.
  - intros pred' Hs' Hagree.
    rewrite !EvalFacts.evaluate_predictions_eq by assumption. cbv zeta.
    f_equal. apply EvalFacts.select_ext.
    + rewrite (EvalFacts.flatten_length _ _ Hs), (EvalFacts.flatten_length _ _ Hs').
      reflexivity.
    + intros k Hk. rewrite nth_error_map in Hk.
      destruct (nth_error (Np.flatten (values true_matrix)) k) as [t|] eqn:E;
        [|discriminate].
      injection Hk as Hk. eapply Hagree; eassumption.
  - intros Hsome Ht Hp.
    rewrite EvalFacts.evaluate_predictions_eq by assumption. cbv zeta.
    pose proof (EvalFacts.flatten_length _ _ Hs) as Hlen.
    apply existsb_exists in Hsome as (t & Hin & Hnz).
    apply In_nth_error in Hin as [k Hk].
    destruct (@EvalFacts.score_returns
                (Np.select (Np.flatten (values true_matrix))
                   (map (fun x => x != F64.zero)%f64 (Np.flatten (values true_matrix))))
                (Np.select (Np.flatten pred)
                   (map (fun x => x != F64.zero)%f64 (Np.flatten (values true_matrix)))))
      as (mse & q & p & r & f & E & _ & _).
    + apply EvalFacts.select_length. now rewrite Hlen.
    + apply EvalFacts.select_nonempty with (k := k).
      * now rewrite length_map.
      * now rewrite nth_error_map, Hk; cbn; rewrite Hnz.
    + now apply EvalFacts.select_forallb.
    + now apply EvalFacts.select_forallb.
    + rewrite E. eauto.
Qed.

Example evaluate_predictions_run :
  evaluate_predictions test_2x2 [[Fin 3; Fin 1]; [Fin 4; Fin (9 # 2)]] =
  Ok (Sqrt (Fin (9 # 12)), Fin (2 # 6), Fin (2 # 6), Fin (16 # 48)).
Proof. reflexivity. Qed.

Example evaluate_predictions_of_zeros_run :
  evaluate_predictions test_zeros [[Fin 3; Fin 1]; [Fin 4; Fin (9 # 2)]] =
  Raise (ValueError "Found array with 0 sample(s) while a minimum of 1 is required").
Proof. reflexivity. Qed.

Lemma evaluator_uses_rated_positions_only_witness :
  evaluate_predictions test_zeros [[Fin 3; Fin 1]; [Fin 4; Fin (9 # 2)]] =
  Raise (ValueError
    "Found array with 0 sample(s) while a minimum of 1 is required") /\
  evaluate_predictions test_2x2 [[Fin 3; Fin 1]; [Fin 4; Fin (9 # 2)]] =
  score [Fin 4; Fin 3; Fin 5] [Fin 3; Fin 4; Fin (9 # 2)] /\
  evaluate_predictions test_2x2 [[Fin 3; Fin 1]; [Fin 4; Fin (9 # 2)]] =
  evaluate_predictions test_2x2 [[Fin 3; Fin 2]; [Fin 4; Fin (9 # 2)]] /\
  exists rm p r f,
    evaluate_predictions test_2x2 [[Fin 3; Fin 1]; [Fin 4; Fin (9 # 2)]] =
    Ok (rm, p, r, f).
Proof.
  split.
  - apply (proj1 (@evaluator_uses_rated_positions_only test_zeros
                    [[Fin 3; Fin 1]; [Fin 4; Fin (9 # 2)]] eq_refl)).
    reflexivity.
  - destruct (@evaluator_uses_rated_positions_only test_2x2
                [[Fin 3; Fin 1]; [Fin 4; Fin (9 # 2)]] eq_refl)
      as (_ & Hscore & Hsame & Hret).
    split; [exact Hscore|]. split.
    + apply (Hsame [[Fin 3; Fin 2]; [Fin 4; Fin (9 # 2)]] eq_refl).
      intros [|[|[|[|k]]]] t Hk Hnz; try reflexivity.
      cbn in Hk. injection Hk as <-. discriminate Hnz.
    + apply Hret; reflexivity.
Defined.

(** *** Non-finite predictions *)

Lemma select_In {A : Type} (v : list A) : forall mask k x,
  nth_error mask k = Some true -> nth_error v k = Some x ->
  In x (Np.select v mask).
Proof.
  induction v as [|y v IH]; intros [|b mask] [|k] x; cbn; try discriminate.
  - intros [= ->] [= ->]. now left.
  - intros Hm Hv. destruct b; [right|]; eapply IH; eassumption.
Qed.

Lemma forallb_false_In {A : Type} (p : A -> bool) (l : list A) (x : A) :
  In x l -> p x = false -> forallb p l = false.
Proof.
  intros Hx Hp. destruct (forallb p l) eqn:E; [|reflexivity].
  rewrite (forallb_In _ _ _ E Hx) in Hp. discriminate.
Qed.

(** A predicted value that is not finite at a position where the test table
    holds a rating makes the evaluator raise: no metric is computed from
    [NaN] or an infinity. *)
Theorem evaluator_refuses_non_finite
    (true_matrix : DataFrame) (pred : ndarray) (k : nat) (t p : float64) :
  shape pred = shape (values true_matrix) ->
  nth_error (Np.flatten (values true_matrix)) k = Some t ->
  (t != F64.zero)%f64 = true ->
  nth_error (Np.flatten pred) k = Some p ->
  F64.isfinite p = false ->
  evaluate_predictions true_matrix pred =
  Raise (ValueError "Input contains NaN or infinity").
Proof.
  intros Hs Ht Hnz Hp Hinf.
  rewrite EvalFacts.evaluate_predictions_eq by assumption. cbv zeta.
  set (mask := map (fun x => x != F64.zero)%f64 (Np.flatten (values true_matrix))).
  assert (Hk : nth_error mask k = Some true)
    by (unfold mask; now rewrite nth_error_map, Ht; cbn; rewrite Hnz).
  assert (Hlen : length (Np.select (Np.flatten (values true_matrix)) mask) =
                 length (Np.select (Np.flatten pred) mask)).
  { apply EvalFacts.select_length. symmetry. now apply EvalFacts.flatten_length. }
  assert (Hbad : forallb F64.isfinite (Np.select (Np.flatten pred) mask) = false).
  { eapply forallb_false_In; [|exact Hinf]. eapply select_In; eassumption. }
  assert (Hne : Np.select (Np.flatten (values true_matrix)) mask <> []).
  { intros E. pose proof (select_In _ _ _ Hk Ht) as Hin. rewrite E in Hin.
    destruct Hin. }
  unfold score, Sk.mean_squared_error, Sk.check_consistent_length, Sk.check_array.
  rewrite Hlen, Nat.eqb_refl, Hbad. cbn [bind negb].
  destruct (forallb F64.isfinite (Np.select (Np.flatten (values true_matrix)) mask));
    cbn [negb bind]; [|reflexivity].
  rewrite <- Hlen.
  destruct (Np.select (Np.flatten (values true_matrix)) mask); [congruence|].
  reflexivity.
Qed.

Lemma evaluator_refuses_non_finite_witness :
  evaluate_predictions test_2x2 [[NaN; Fin 1]; [Fin 4; Fin (9 # 2)]] =
  Raise (ValueError "Input contains NaN or infinity").
Proof.
  apply (@evaluator_refuses_non_finite test_2x2 [[NaN; Fin 1]; [Fin 4; Fin (9 # 2)]]
           0 (Fin 4) NaN); reflexivity.
Defined.

(** ** Weighted recall *)

Module SkFacts.

Lemma tp_sum_le (c : bool) (y_true : Sk.labels) : forall y_pred,
  (Sk.tp_sum c y_true y_pred <= Sk.true_sum c y_true)%nat.
Proof.
  unfold Sk.tp_sum, Sk.true_sum, Sk.count.
  induction y_true as [|t y_true IH]; intros [|p y_pred]; cbn; try lia.
  specialize (IH y_pred). destruct t, c, p; cbn; lia.
Qed.

Lemma true_sum_total (y_true : Sk.labels) :
  (Sk.true_sum false y_true + Sk.true_sum true y_true = length y_true)%nat.
Proof.
  unfold Sk.true_sum, Sk.count. induction y_true as [|t y_true IH]; cbn; [reflexivity|].
  destruct t; cbn; lia.
Qed.

Lemma tp_sum_total (y_true : Sk.labels) : forall y_pred,
  (Sk.tp_sum false y_true y_pred + Sk.tp_sum true y_true y_pred
   = agree y_true y_pred)%nat.
Proof.
  unfold Sk.tp_sum, agree, Sk.count.
  induction y_true as [|t y_true IH]; intros [|p y_pred]; cbn; try reflexivity.
  specialize (IH y_pred). destruct t, p; cbn; lia.
Qed.

Lemma absent_true_sum (c : bool) (y_true y_pred : Sk.labels) :
  existsb (Bool.eqb c) (y_true ++ y_pred) = false -> Sk.true_sum c y_true = 0%nat.
Proof.
  unfold Sk.true_sum, Sk.count. rewrite existsb_app. intros H.
  apply orb_false_iff in H as [H _].
  induction y_true as [|t y_true IH]; cbn in *; [reflexivity|].
  apply orb_false_iff in H as [Ht H]. rewrite Ht. now apply IH.
Qed.

Lemma qnat_plus (n m : nat) : Sk.qnat (n + m) == Sk.qnat n + Sk.qnat m.
Proof. unfold Sk.qnat. now rewrite Nat2Z.inj_add, inject_Z_plus. Qed.

Lemma qnat_zero (n : nat) : Sk.qnat n == 0 -> n = 0%nat.
Proof.
  unfold Sk.qnat. intros H. unfold Qeq in H. cbn in H. lia.
Qed.

(** A sum over the classes that occur is the sum over both classes, when the
    summand vanishes on a class without true members. *)
Lemma qsum_present (h : bool -> Q) (y_true y_pred : Sk.labels) :
  (forall c, Sk.true_sum c y_true = 0%nat -> h c == 0) ->
  qsum (map h (Sk.present_labels y_true y_pred)) == h false + h true.
Proof.
  intros H. unfold Sk.present_labels, qsum. cbn [filter].
  destruct (existsb (Bool.eqb false) (y_true ++ y_pred)) eqn:E0;
    destruct (existsb (Bool.eqb true) (y_true ++ y_pred)) eqn:E1; cbn;
    try (apply absent_true_sum in E0; apply H in E0);
    try (apply absent_true_sum in E1; apply H in E1); lra.
Qed.

Lemma recall_times_support (c : bool) (y_true y_pred : Sk.labels) :
  Sk.recall_of c y_true y_pred * Sk.qnat (Sk.true_sum c y_true)
  == Sk.qnat (Sk.tp_sum c y_true y_pred).
Proof.
  unfold Sk.recall_of, Sk.prf_divide.
  pose proof (tp_sum_le c y_true y_pred) as Hle.
  destruct (Nat.eqb_spec (Sk.true_sum c y_true) 0) as [E|E].
  - rewrite E in *. assert (Sk.tp_sum c y_true y_pred = 0%nat) as -> by lia.
    reflexivity.
  - field. intros H. now apply qnat_zero in H.
Qed.

(** Weighted recall is the share of positions on which the labels agree. *)
Lemma weighted_recall (y_true y_pred : Sk.labels) :
  y_true <> [] ->
  exists r,
    Sk.weighted (fun c => Sk.recall_of c y_true y_pred) y_true y_pred = Fin r /\
    r == Sk.qnat (agree y_true y_pred) / Sk.qnat (length y_true).
Proof.
  intros Hne. unfold Sk.weighted.
  set (total := qsum _).
  set (num := qsum
                (map (fun c => Sk.recall_of c y_true y_pred
                               * Sk.qnat (Sk.true_sum c y_true)) _)).
  assert (Htotal : total == Sk.qnat (length y_true)).
  { unfold total. rewrite qsum_present.
    - now rewrite <- qnat_plus, true_sum_total.
    - intros c ->. reflexivity. }
  assert (Hnum : num == Sk.qnat (agree y_true y_pred)).
  { unfold num. rewrite qsum_present.
    - now rewrite !recall_times_support, <- qnat_plus, tp_sum_total.
    - intros c E. rewrite E. unfold Sk.qnat; cbn. ring. }
  destruct (Qeq_bool_spec total 0) as [E|E].
  - exfalso. rewrite Htotal in E. apply qnat_zero in E.
    destruct y_true; [congruence|discriminate].
  - exists (num / total). split; [reflexivity|]. now rewrite Hnum, Htotal.
Qed.

End SkFacts.

Lemma binarize_length (threshold : float64) (v : ndarray1) :
  length (binarize threshold v) = length v.
Proof. apply length_map. Qed.

(** The recall that [classification_scores] returns, at any threshold. *)
Lemma classification_scores_recall (threshold : float64) (true_flat pred_flat : ndarray1) :
  length true_flat = length pred_flat ->
  true_flat <> [] ->
  exists p r f,
    classification_scores threshold true_flat pred_flat = Ok (p, Fin r, f) /\
    r == Sk.qnat (agree (binarize threshold true_flat)
                                (binarize threshold pred_flat))
         / Sk.qnat (length true_flat).
Proof.
  intros Hlen Hne. unfold classification_scores.
  unfold Sk.precision_score, Sk.recall_score, Sk.f1_score, Sk.check_consistent_length.
  rewrite !binarize_length, Hlen, Nat.eqb_refl. cbn [bind].
  destruct (@SkFacts.weighted_recall (binarize threshold true_flat)
              (binarize threshold pred_flat)) as (r & Er & Hr).
  { destruct true_flat; [congruence|discriminate]. }
  rewrite Er. do 3 eexists. split; [reflexivity|].
  rewrite binarize_length in Hr. now rewrite <- Hlen.
Qed.

Lemma agree_mono (t1 t2 : float64) (true_flat : ndarray1) : forall pred_flat,
  (t1 <= t2)%f64 = true ->
  (forall t, In t true_flat -> (t >= t2)%f64 = true) ->
  (agree (binarize t2 true_flat) (binarize t2 pred_flat)
   <= agree (binarize t1 true_flat) (binarize t1 pred_flat))%nat.
Proof.
  intros pred_flat H12. revert pred_flat. unfold agree, Sk.count, binarize.
  induction true_flat as [|t true_flat IH]; intros [|p pred_flat] Hall; cbn; try lia.
  assert (Ht2 : (t >= t2)%f64 = true) by (apply Hall; now left).
  assert (Ht1 : (t >= t1)%f64 = true)
    by (unfold F64.geb in *; now apply F64Facts.leb_trans with (y := t2)).
  specialize (IH pred_flat (fun t H => Hall t (or_intror H))).
  rewrite Ht1, Ht2. cbn [Bool.eqb].
  destruct (p >= t2)%f64 eqn:Ep.
  - assert ((p >= t1)%f64 = true) as ->
      by (unfold F64.geb in *; now apply F64Facts.leb_trans with (y := t2)).
    cbn in *. lia.
  - destruct (p >= t1)%f64; cbn in *; lia.
Qed.

Lemma qnat_le (n m : nat) : (n <= m)%nat -> Sk.qnat n <= Sk.qnat m.
Proof. intros H. unfold Sk.qnat. rewrite <- Zle_Qle. lia. Qed.

(** C9, as the code has it: the weighted recall is the share of the selected
    positions whose true and predicted score lie on the same side of the
    threshold; and where every true score reaches the higher of two
    thresholds, the recall at the higher threshold is at most the recall at
    the lower one. *)
Theorem recall_is_agreement_share
    (t1 t2 : float64) (true_flat pred_flat : ndarray1) :
  length true_flat = length pred_flat ->
  true_flat <> [] ->
  exists p1 r1 f1 p2 r2 f2,
    classification_scores t1 true_flat pred_flat = Ok (p1, Fin r1, f1) /\
    classification_scores t2 true_flat pred_flat = Ok (p2, Fin r2, f2) /\
    r1 == Sk.qnat (agree (binarize t1 true_flat) (binarize t1 pred_flat))
          / Sk.qnat (length true_flat) /\
    r2 == Sk.qnat (agree (binarize t2 true_flat) (binarize t2 pred_flat))
          / Sk.qnat (length true_flat) /\
    ((t1 <= t2)%f64 = true ->
     (forall t, In t true_flat -> (t >= t2)%f64 = true) ->
     (Fin r2 <= Fin r1)%f64 = true).
Proof.
  intros Hlen Hne.
  destruct (@classification_scores_recall t1 true_flat pred_flat Hlen Hne) as (p1 & r1 & f1 & E1 & H1).
  destruct (@classification_scores_recall t2 true_flat pred_flat Hlen Hne) as (p2 & r2 & f2 & E2 & H2).
  exists p1, r1, f1, p2, r2, f2. do 4 (split; [assumption|]).
  intros H12 Hall. cbn. apply Qle_bool_iff. rewrite H1, H2.
  pose proof (@qnat_le _ _ (@agree_mono t1 t2 true_flat pred_flat H12 Hall)) as Hle.
  assert (Hn : 0 < Sk.qnat (length true_flat)).
  { destruct true_flat; [congruence|]. unfold Sk.qnat. cbn [length].
    rewrite Nat2Z.inj_succ. change 0 with (inject_Z 0). rewrite <- Zlt_Qlt. lia. }
  unfold Qdiv. apply Qmult_le_compat_r; [assumption|].
  apply Qlt_le_weak, Qinv_lt_0_compat, Hn.
Qed.

Lemma recall_is_agreement_share_witness :
  exists p1 r1 f1 p2 r2 f2,
    classification_scores (Fin (7 # 2)) [Fin 5; Fin 5] [Fin 4; Fin 5] = Ok (p1, Fin r1, f1) /\
    classification_scores (Fin 5) [Fin 5; Fin 5] [Fin 4; Fin 5] = Ok (p2, Fin r2, f2) /\
    r1 == Sk.qnat (agree (binarize (Fin (7 # 2)) [Fin 5; Fin 5])
                                 (binarize (Fin (7 # 2)) [Fin 4; Fin 5]))
          / Sk.qnat (length [Fin 5; Fin 5]) /\
    r2 == Sk.qnat (agree (binarize (Fin 5) [Fin 5; Fin 5])
                                 (binarize (Fin 5) [Fin 4; Fin 5]))
          / Sk.qnat (length [Fin 5; Fin 5]) /\
    ((Fin (7 # 2) <= Fin 5)%f64 = true ->
     (forall t, In t [Fin 5; Fin 5] -> (t >= Fin 5)%f64 = true) ->
     (Fin r2 <= Fin r1)%f64 = true).
Proof.
  apply (@recall_is_agreement_share (Fin (7 # 2)) (Fin 5) [Fin 5; Fin 5] [Fin 4; Fin 5]).
  - reflexivity.
  - discriminate.
Defined.

(** C9 as stated fails: with a true score of 4.0 predicted as 3.0 the labels
    disagree at 3.5 (recall 0) and agree at 5.0 (recall 1).  The evaluator
    itself reports the recall at 3.5. *)
Lemma recall_rises_with_threshold :
  classification_scores (Fin (7 # 2)) [Fin 4] [Fin 3] = Ok (Fin 0, Fin 0, Fin 0) /\
  classification_scores (Fin 5) [Fin 4] [Fin 3] = Ok (Fin 1, Fin 1, Fin (2 # 2)) /\
  (Fin 1 <= Fin 0)%f64 = false /\
  evaluate_predictions (mkFrame [1%Z] [1%Z] [[Fin 4]]) [[Fin 3]] =
  Ok (Sqrt (Fin 1), Fin 0, Fin 0, Fin 0).
Proof. repeat split. Qed.

(** ** train_svd and the run *)

Example preprocess_splits_run :
  preprocess_splits (fst (temporal_split sixty_ratings))
                    (snd (temporal_split sixty_ratings)) =
  Ok (table_1x12, test_1x12).
Proof. vm_compute. reflexivity. Qed.

(** C5, as the code has it: [train_svd] has no clamp of its own and hands
    the fixed rank [N_COMPONENTS = 10] to the routine.  A table with fewer
    than ten columns is refused with a [ValueError]; a table of finite
    values with a row and at least ten columns is factorised, however few
    its rows are, into the factors that the routine returns for rank 10. *)
Theorem train_svd_requests_ten_components (lib : library) (matrix : DataFrame) :
  ((Np.ncols (values matrix) < N_COMPONENTS)%nat ->
   exists msg, train_svd lib matrix = Raise (ValueError msg)) /\
  (forallb F64.isfinite (Np.flatten (values matrix)) = true ->
   (1 <= Np.nrows (values matrix))%nat ->
   (N_COMPONENTS <= Np.ncols (values matrix))%nat ->
   train_svd lib matrix =
   Ok (svd_fit lib N_COMPONENTS RANDOM_STATE (values matrix))).
Proof.
  unfold train_svd, Sk.fit_transform. split.
  - intros Hlt.
    destruct (negb _); [eauto|]. destruct (Nat.eqb _ 0); [eauto|].
    destruct (Nat.ltb _ 2); [eauto|].
    destruct (Nat.ltb_spec (Np.ncols (values matrix)) N_COMPONENTS); [eauto|lia].
  - intros Hfin Hrows Hcols. rewrite Hfin. cbn [negb].
    destruct (Nat.eqb_spec (Np.nrows (values matrix)) 0) as [E|_]; [lia|].
    destruct (Nat.ltb_spec (Np.ncols (values matrix)) 2) as [E|_];
      [unfold N_COMPONENTS in Hcols; lia|].
    destruct (Nat.ltb_spec (Np.ncols (values matrix)) N_COMPONENTS) as [E|_]; [lia|].
    reflexivity.
Qed.

Lemma train_svd_requests_ten_components_witness :
  (exists msg, train_svd truncating_library table_2x2 = Raise (ValueError msg)) /\
  train_svd truncating_library table_1x12 =
  Ok (svd_fit truncating_library N_COMPONENTS RANDOM_STATE (values table_1x12)).
Proof.
  split.
  - apply (proj1 (@train_svd_requests_ten_components truncating_library table_2x2)).
    unfold N_COMPONENTS; cbn; lia.
  - apply (proj2 (@train_svd_requests_ten_components truncating_library table_1x12)).
    + reflexivity.
    + cbn; lia.
    + unfold N_COMPONENTS; cbn; lia.
Defined.

Example train_svd_run :
  train_svd truncating_library table_1x12 =
  Ok ([[Fin 3]], [Fin 1],
      [[Fin 1; Fin 0; Fin 0; Fin 0; Fin 0; Fin 0; Fin 0; Fin 0; Fin 0; Fin 0;
        Fin 0; Fin 0]]).
Proof. reflexivity. Qed.

(** C5 as stated fails: a table of two users and two movies has the rank 10
    above [min 2 2], and the factorisation raises instead of clamping,
    whatever the numerical routine would return. *)
Lemma train_svd_does_not_clamp :
  (N_COMPONENTS >= Nat.min (Np.nrows (values table_2x2)) (Np.ncols (values table_2x2)))%nat /\
  forall lib,
    train_svd lib table_2x2 =
    Raise (ValueError "n_components must be <= n_features").
Proof. split; [unfold N_COMPONENTS; cbn; lia|intros lib; reflexivity]. Qed.

(** ** The rating range of a run *)

Lemma normalize_predictions_Ok (raw : ndarray) (ratings : ratings_frame) (pred : ndarray) :
  normalize_predictions raw ratings = Ok pred ->
  exists lo hi,
    Np.min raw = Ok lo /\ Np.max raw = Ok hi /\
    pred = Np.map2d (rescale_cell lo hi (Pd.series_min (map rating ratings))
                                        (Pd.series_max (map rating ratings))) raw.
Proof.
  intros H. destruct (Np.min raw) as [lo|e] eqn:Elo.
  - destruct (Np.max raw) as [hi|e] eqn:Ehi.
    + rewrite normalize_predictions_eq with (lo := lo) (hi := hi) in H by assumption.
      injection H as <-. eauto.
    + unfold normalize_predictions in H. rewrite Elo, Ehi in H. discriminate.
  - unfold normalize_predictions in H. rewrite Elo in H. discriminate.
Qed.

Module RangeFacts.

(** A mask that holds everywhere selects everything. *)
Lemma select_all {A : Type} (v : list A) : forall mask,
  length v = length mask -> forallb (fun b => b) mask = true ->
  Np.select v mask = v.
Proof.
  induction v as [|x v IH]; intros [|b mask]; cbn; try discriminate; [reflexivity|].
  intros [= Hlen] H. apply andb_true_iff in H as [-> H]. now rewrite IH.
Qed.

(** When the test table holds a rating everywhere, the evaluator returns
    only for a predicted matrix of finite cells. *)
Lemma evaluated_all_finite
    (true_matrix : DataFrame) (pred : ndarray) (m : root * float64 * float64 * float64) :
  forallb (fun t => t != F64.zero)%f64 (Np.flatten (values true_matrix)) = true ->
  evaluate_predictions true_matrix pred = Ok m ->
  forallb F64.isfinite (Np.flatten pred) = true.
Proof.
  intros Hall H. unfold evaluate_predictions in H.
  apply bind_Ok in H as (true_flat & _ & H).
  apply bind_Ok in H as (pred_flat & Ep & H).
  apply bind_Ok in H as (mse & Emse & _).
  unfold Np.getmask in Ep. rewrite length_map in Ep.
  destruct (Nat.eqb_spec (length (Np.flatten pred))
              (length (Np.flatten (values true_matrix)))) as [Hlen|]; [|discriminate].
  injection Ep as <-.
  rewrite select_all in Emse.
  - unfold Sk.mean_squared_error in Emse.
    apply bind_Ok in Emse as (? & _ & Emse). apply bind_Ok in Emse as (? & _ & Emse).
    apply bind_Ok in Emse as (? & Ec & _). unfold Sk.check_array in Ec.
    now destruct (forallb F64.isfinite (Np.flatten pred)).
  - now rewrite length_map.
  - rewrite forallb_forall in Hall. apply forallb_forall. intros b Hb.
    apply in_map_iff in Hb as (t & <- & Ht). now apply Hall.
Qed.

Lemma rescale_cell_nan_lo (hi rmin rmax x : float64) :
  rescale_cell NaN hi rmin rmax x = NaN.
Proof.
  unfold rescale_cell, F64.sub. cbn [F64.opp].
  assert (E : (x + NaN)%f64 = NaN) by now destruct x.
  rewrite E. reflexivity.
Qed.

Lemma rescale_cell_nan_hi (lo rmin rmax x : float64) :
  rescale_cell lo NaN rmin rmax x = NaN.
Proof.
  unfold rescale_cell, F64.sub. cbn [F64.add].
  assert (E : forall y, (y / NaN)%f64 = NaN) by (intros y; now destruct y).
  rewrite E. reflexivity.
Qed.

(** A greatest cell with a finite rescaling lies strictly above a finite
    least cell. *)
Lemma extreme_finite (lo hi : float64) (rl rh : Q) :
  (lo <= hi)%f64 = true ->
  F64.isfinite (rescale_cell lo hi (Fin rl) (Fin rh) hi) = true ->
  exists l h, lo = Fin l /\ hi = Fin h /\ l < h.
Proof.
  unfold rescale_cell, F64.sub.
  destruct lo as [l| | |], hi as [h| | |]; cbn; try discriminate.
  intros Hle. apply Qle_bool_iff in Hle.
  destruct (Qeq_bool_spec (h + - l) 0) as [E|E].
  - unfold F64.signed_inf. destruct (Qcompare_spec (h + - l) 0) as [E'|E'|E'];
      [discriminate|exfalso; lra|exfalso; lra].
  - intros _. exists l, h. repeat split. lra.
Qed.

(** A rescaling whose cells are all finite comes from a non-degenerate
    matrix of finite cells. *)
Lemma finite_image (raw : ndarray) (lo hi : float64) (rl rh : Q) :
  Np.min raw = Ok lo -> Np.max raw = Ok hi ->
  forallb F64.isfinite
    (Np.flatten (Np.map2d (rescale_cell lo hi (Fin rl) (Fin rh)) raw)) = true ->
  forallb F64.isfinite (Np.flatten raw) = true /\ (lo < hi)%f64 = true.
Proof.
  intros Hlo Hhi Hfin. rewrite NpFacts.flatten_map2d in Hfin.
  destruct (NpFacts.min_ok _ Hlo) as (x & xs & Eflat & _).
  assert (Himg : forall e, In e (Np.flatten raw) ->
                 F64.isfinite (rescale_cell lo hi (Fin rl) (Fin rh) e) = true).
  { intros e He. rewrite forallb_forall in Hfin. apply Hfin. now apply in_map. }
  assert (Hx : In x (Np.flatten raw)) by (rewrite Eflat; now left).
  assert (Hnlo : F64.isnan lo = false).
  { destruct lo; try reflexivity. specialize (Himg x Hx).
    now rewrite rescale_cell_nan_lo in Himg. }
  assert (Hnhi : F64.isnan hi = false).
  { destruct hi; try reflexivity. specialize (Himg x Hx).
    now rewrite rescale_cell_nan_hi in Himg. }
  destruct (NpFacts.min_bounds _ Hlo Hnlo) as [_ Hmin].
  destruct (NpFacts.max_bounds _ Hhi Hnhi) as [Hin Hmax].
  rewrite Forall_forall in Hmin, Hmax.
  destruct (@extreme_finite lo hi rl rh (Hmin _ Hin) (Himg _ Hin))
    as (l & h & -> & -> & Hlh).
  split.
  - apply forallb_forall. intros e He.
    specialize (Hmin _ He). specialize (Hmax _ He).
    destruct e; try reflexivity; discriminate.
  - cbn. destruct (Qle_bool_spec h l) as [H|H]; [lra|reflexivity].
Qed.

(** A pass that completes on a test table that holds a rating everywhere
    has a predicted matrix that ranges over the ratings of its train
    split. *)
Lemma completed_pass_range
    (lib : library) (train_df test_df : ratings_frame)
    (train_matrix test_matrix : DataFrame) (rep : report) (rl rh : Q) :
  preprocess_splits train_df test_df = Ok (train_matrix, test_matrix) ->
  forallb (fun t => t != F64.zero)%f64 (Np.flatten (values test_matrix)) = true ->
  Pd.series_min (map rating train_df) = Fin rl ->
  Pd.series_max (map rating train_df) = Fin rh ->
  run_split lib train_df test_df = Ok rep ->
  exists pmin pmax,
    Np.min (pred_matrix rep) = Ok pmin /\
    Np.max (pred_matrix rep) = Ok pmax /\
    (pmin == Fin rl)%f64 = true /\ (pmax == Fin rh)%f64 = true.
Proof.
  intros Hpre Hall Emin Emax H. unfold run_split in H.
  rewrite Hpre in H. cbn [bind] in H.
  apply bind_Ok in H as ([[U Sigma] VT] & _ & H). cbv zeta in H.
  apply bind_Ok in H as (pred & Erec & H).
  apply bind_Ok in H as (metrics & Eeval & H).
  assert (Hrep : pred_matrix rep = pred).
  { destruct metrics as [[[rm p] r] f]. cbv zeta in H.
    apply bind_Ok in H as (recs & _ & H). now injection H as <-. }
  rewrite Hrep.
  apply (evaluated_all_finite _ _ Hall) in Eeval.
  unfold reconstruct_matrix in Erec.
  apply bind_Ok in Erec as (inner & _ & Erec).
  apply bind_Ok in Erec as (raw & _ & Enorm).
  destruct (normalize_predictions_Ok _ _ Enorm) as (lo & hi & Hlo & Hhi & Hpred).
  rewrite Emin, Emax in Hpred. rewrite Hpred in Eeval.
  destruct (finite_image _ _ _ Hlo Hhi Eeval) as [Hfin Hlt].
  destruct (@exact_extremes_are_rating_range raw train_df lo hi Hfin Hlo Hhi Hlt)
    as (predicted & pmin & pmax & En & Hmin & Hmax & Hpmin & Hpmax).
  { intros E. rewrite E in Emin. discriminate. }
  rewrite Enorm in En. injection En as <-.
  rewrite Emin in Hpmin. rewrite Emax in Hpmax.
  exists pmin, pmax. repeat split; assumption.
Qed.

End RangeFacts.

(** C1, as the code has it: a pass hands its own train split, as it is
    before alignment, to [reconstruct_matrix]; whenever the pass gets as far
    as a predicted matrix, that matrix is the reconstruction rescaled with
    the least and the greatest rating of the train split. *)
Theorem rating_range_comes_from_train_split
    (lib : library) (train_df test_df : ratings_frame)
    (train_matrix test_matrix : DataFrame)
    (U : ndarray) (Sigma : ndarray1) (VT : ndarray) :
  preprocess_splits train_df test_df = Ok (train_matrix, test_matrix) ->
  train_svd lib train_matrix = Ok (U, Sigma, VT) ->
  run_split lib train_df test_df =
  (pred <- reconstruct_matrix U Sigma VT train_df ;;
   finish_pass train_matrix test_matrix pred) /\
  forall pred,
    reconstruct_matrix U Sigma VT train_df = Ok pred ->
    exists inner raw lo hi,
      Np.dot (Np.diag Sigma) VT = Ok inner /\
      Np.dot U inner = Ok raw /\
      Np.min raw = Ok lo /\ Np.max raw = Ok hi /\
      pred = Np.map2d (rescale_cell lo hi (Pd.series_min (map rating train_df))
                                          (Pd.series_max (map rating train_df))) raw.
Proof.
  intros Hpre Hsvd. split.
  - unfold run_split. rewrite Hpre. cbn [bind]. rewrite Hsvd. reflexivity.
  - intros pred H. unfold reconstruct_matrix in H.
    apply bind_Ok in H as (inner & Einner & H).
    apply bind_Ok in H as (raw & Eraw & Enorm).
    destruct (normalize_predictions_Ok _ _ Enorm) as (lo & hi & Hlo & Hhi & Hpred).
    exists inner, raw, lo, hi. repeat split; assumption.
Qed.

Lemma rating_range_comes_from_train_split_witness :
  run_split truncating_library
    (fst (temporal_split sixty_ratings)) (snd (temporal_split sixty_ratings)) =
  (pred <- reconstruct_matrix [[Fin 3]] [Fin 1] (eye 1 12)
             (fst (temporal_split sixty_ratings)) ;;
   finish_pass table_1x12 test_1x12 pred) /\
  forall pred,
    reconstruct_matrix [[Fin 3]] [Fin 1] (eye 1 12)
      (fst (temporal_split sixty_ratings)) = Ok pred ->
    exists inner raw lo hi,
      Np.dot (Np.diag [Fin 1]) (eye 1 12) = Ok inner /\
      Np.dot [[Fin 3]] inner = Ok raw /\
      Np.min raw = Ok lo /\ Np.max raw = Ok hi /\
      pred = Np.map2d
               (rescale_cell lo hi
                  (Pd.series_min (map rating (fst (temporal_split sixty_ratings))))
                  (Pd.series_max (map rating (fst (temporal_split sixty_ratings)))))
               raw.
Proof.
  apply (@rating_range_comes_from_train_split truncating_library
           (fst (temporal_split sixty_ratings)) (snd (temporal_split sixty_ratings))).
  - vm_compute. reflexivity.
  - reflexivity.
Defined.

(** C1 as stated fails.  The sixty ratings range over 0.5 to 5.0 and the
    train part of their temporal split over 3.0 to 4.0.  Whatever the
    library routines return, a pass on that split that completes has a
    predicted matrix that ranges over 3.0 to 4.0: its least and greatest
    cell are not the least and greatest rating of the frame given to the
    run. *)
Lemma rating_range_is_not_of_the_original_frame :
  Pd.series_min (map rating sixty_ratings) = Fin (1 # 2) /\
  Pd.series_max (map rating sixty_ratings) = Fin 5 /\
  forall lib rep,
    run_split lib (fst (temporal_split sixty_ratings))
                  (snd (temporal_split sixty_ratings)) = Ok rep ->
    exists pmin pmax,
      Np.min (pred_matrix rep) = Ok pmin /\
      Np.max (pred_matrix rep) = Ok pmax /\
      (pmin == Fin 3)%f64 = true /\ (pmax == Fin 4)%f64 = true.
Proof.
  split; [vm_compute; reflexivity|]. split; [vm_compute; reflexivity|].
  intros lib rep.
  apply (@RangeFacts.completed_pass_range lib
           (fst (temporal_split sixty_ratings)) (snd (temporal_split sixty_ratings))
           table_1x12 test_1x12 rep 3 4).
  - exact preprocess_splits_run.
  - vm_compute. reflexivity.
  - vm_compute. reflexivity.
  - vm_compute. reflexivity.
Qed.

(** ** load_dataset *)

Module LoadFacts.

Lemma append_each {A : Type} (l : list A) : forall acc,
  fold_left (fun chunks chunk => chunks ++ [chunk]) l acc = acc ++ l.
Proof.
  induction l as [|x l IH]; intros acc; cbn.
  - now rewrite app_nil_r.
  - now rewrite IH, <- app_assoc.
Qed.

Lemma chunks_from_concat {A : Type} (n : nat) : forall fuel (rows : list A),
  (1 <= n)%nat -> (length rows <= fuel)%nat ->
  concat (Pd.chunks_from fuel n rows) = rows.
Proof.
  induction fuel as [|fuel IH]; intros rows Hn Hlen.
  - destruct rows; [reflexivity|cbn in Hlen; lia].
  - destruct rows as [|r rows]; [reflexivity|].
    cbn [Pd.chunks_from concat]. rewrite IH.
    + apply firstn_skipn.
    + assumption.
    + rewrite length_skipn. cbn [length] in *. lia.
Qed.

Lemma chunks_from_bounded {A : Type} (n : nat) : forall fuel (rows : list A),
  Forall (fun c => (length c <= n)%nat) (Pd.chunks_from fuel n rows).
Proof.
  induction fuel as [|fuel IH]; intros rows; cbn; [constructor|].
  destruct rows as [|r rows]; constructor; [|apply IH].
  rewrite length_firstn. lia.
Qed.

Lemma chunks_from_full {A : Type} (n : nat) : forall fuel (rows : list A),
  (1 <= n)%nat -> (length rows <= fuel)%nat ->
  forall i c, nth_error (Pd.chunks_from fuel n rows) i = Some c ->
              (S i < length (Pd.chunks_from fuel n rows))%nat -> length c = n.
Proof.
  induction fuel as [|fuel IH]; intros rows Hn Hlen i c; cbn.
  - now destruct i.
  - destruct rows as [|r rows]; [now destruct i|].
    assert (Hrest : (length (skipn n (r :: rows)) <= fuel)%nat)
      by (rewrite length_skipn; cbn [length] in *; lia).
    destruct i as [|i]; cbn.
    + intros [= <-] Hmore.
      destruct (Pd.chunks_from fuel n (skipn n (r :: rows))) as [|c' cs] eqn:E;
        [cbn in Hmore; lia|].
      rewrite length_firstn. apply Nat.min_l.
      destruct (Nat.le_gt_cases n (length (r :: rows))) as [H|H]; [assumption|].
      rewrite skipn_all2 in E by lia. destruct fuel; discriminate.
    + intros Hc Hmore. eapply IH; eauto. lia.
Qed.

End LoadFacts.

(** Reading the file in chunks and concatenating them loses and reorders
    nothing: [load_dataset] returns the data rows of the file as they stand,
    whether or not their number is a multiple of [CHUNK_SIZE], and for a
    file without a data row the empty frame.  The frames read hold the rows
    in order, each at most, and each but the last exactly, [CHUNK_SIZE]
    rows. *)
Theorem load_dataset_returns_the_rows (file : ratings_frame) :
  load_dataset file = Ok file /\
  exists frames,
    Pd.read_csv_chunks file (Z.to_nat CHUNK_SIZE) = Ok frames /\
    concat frames = file /\
    Forall (fun c => (Z.of_nat (length c) <= CHUNK_SIZE)%Z) frames /\
    (forall i c, nth_error frames i = Some c -> (S i < length frames)%nat ->
                 Z.of_nat (length c) = CHUNK_SIZE).
Proof.
  assert (Hn : (1 <= Z.to_nat CHUNK_SIZE)%nat) by (unfold CHUNK_SIZE; lia).
  unfold load_dataset, Pd.read_csv_chunks.
  destruct (Nat.eqb_spec (Z.to_nat CHUNK_SIZE) 0) as [E|_]; [lia|].
  destruct file as [|r rows].
  - cbn [bind fold_left app]. split; [reflexivity|].
    exists [[]]. repeat split.
    + repeat constructor. unfold CHUNK_SIZE. cbn. lia.
    + intros [|[|i]] c; cbn; intros H Hlt; try discriminate; lia.
  - cbn [bind]. rewrite LoadFacts.append_each. cbn [app].
    pose proof (@LoadFacts.chunks_from_concat _ (Z.to_nat CHUNK_SIZE)
                  (length (r :: rows)) (r :: rows) Hn (le_n _)) as Hcat.
    split.
    + unfold Pd.concat_frames.
      destruct (Pd.chunks_from (length (r :: rows)) (Z.to_nat CHUNK_SIZE) (r :: rows))
        as [|c cs] eqn:E; [discriminate|].
      now rewrite Hcat.
    + eexists. split; [reflexivity|]. split; [exact Hcat|]. split.
      * eapply Forall_impl; [|apply LoadFacts.chunks_from_bounded].
        intros c Hc. cbv beta in Hc. unfold CHUNK_SIZE in *. lia.
      * intros i c Hc Hlt.
        rewrite (@LoadFacts.chunks_from_full _ (Z.to_nat CHUNK_SIZE)
                   (length (r :: rows)) (r :: rows) Hn (le_n _) i c Hc Hlt).
        unfold CHUNK_SIZE. lia.
Qed.

(** ** The tables of create_user_movie_matrix and preprocess_splits *)

Module TableFacts.

Lemma insert_label_lower (y z : Z) (l : Index) :
  (y < z)%Z -> Forall (Z.lt y) l -> Forall (Z.lt y) (Pd.insert_label z l).
Proof.
  intros Hyz Hl. apply Forall_forall. intros x Hx.
  apply AlignFacts.insert_label_In in Hx as [->|Hx]; [assumption|].
  rewrite Forall_forall in Hl. auto.
Qed.

Lemma insert_label_sorted (z : Z) (l : Index) :
  StronglySorted Z.lt l -> StronglySorted Z.lt (Pd.insert_label z l).
Proof.
  induction 1 as [|y l Hl IH Hy]; cbn.
  - repeat constructor.
  - destruct (Z.compare_spec z y) as [->|H|H].
    + now constructor.
    + constructor; [now constructor|]. constructor; [assumption|].
      eapply Forall_impl; [|exact Hy]. intros x Hx. lia.
    + constructor; [assumption|]. now apply insert_label_lower.
Qed.

Lemma sorted_labels_sorted (col : list Z) :
  StronglySorted Z.lt (Pd.sorted_labels col).
Proof.
  unfold Pd.sorted_labels. induction col as [|z col IH]; cbn; [constructor|].
  now apply insert_label_sorted.
Qed.

Lemma filter_sorted (f : Z -> bool) (l : Index) :
  StronglySorted Z.lt l -> StronglySorted Z.lt (filter f l).
Proof.
  induction 1 as [|y l Hl IH Hy]; cbn; [constructor|].
  destruct (f y); [|assumption]. constructor; [assumption|].
  apply Forall_forall. intros x Hx. apply filter_In in Hx as [Hx _].
  rewrite Forall_forall in Hy. auto.
Qed.

(** Two strictly ascending lists with the same members are the same list. *)
Lemma sorted_ext (l : Index) : forall l',
  StronglySorted Z.lt l -> StronglySorted Z.lt l' ->
  (forall z, In z l <-> In z l') -> l = l'.
Proof.
  induction l as [|x l IH]; intros [|x' l'] Hl Hl' Hiff.
  - reflexivity.
  - destruct (proj2 (Hiff x') (or_introl eq_refl)).
  - destruct (proj1 (Hiff x) (or_introl eq_refl)).
  - inversion Hl as [|? ? Hs Hx]; inversion Hl' as [|? ? Hs' Hx']; subst.
    rewrite Forall_forall in Hx, Hx'.
    assert (x = x').
    { destruct (proj1 (Hiff x) (or_introl eq_refl)) as [E|Hin]; [congruence|].
      destruct (proj2 (Hiff x') (or_introl eq_refl)) as [E|Hin']; [congruence|].
      specialize (Hx _ Hin'). specialize (Hx' _ Hin). lia. }
    subst x'. f_equal. apply IH; try assumption.
    intros z. split; intros Hz.
    + destruct (proj1 (Hiff z) (or_intror Hz)) as [E|H]; [|assumption].
      subst z. specialize (Hx _ Hz). lia.
    + destruct (proj2 (Hiff z) (or_intror Hz)) as [E|H]; [|assumption].
      subst z. specialize (Hx' _ Hz). lia.
Qed.

Lemma mapM_length {A B : Type} (f : A -> result B) (l : list A) : forall ys,
  mapM f l = Ok ys -> length ys = length l.
Proof.
  induction l as [|x l IH]; intros ys; cbn.
  - now intros [= <-].
  - destruct (f x) as [y|]; cbn; [|discriminate].
    destruct (mapM f l) as [ys0|]; cbn; [|discriminate].
    intros [= <-]. cbn. f_equal. now apply IH.
Qed.

(** What [loc] returns: the labels asked for, a row per row label and a
    cell per column label, every cell taken from the frame. *)
Lemma loc_inv (df out : DataFrame) (rows cols : Index) :
  Pd.loc df rows cols = Ok out ->
  index out = rows /\ columns out = cols /\ well_shaped out /\
  (forall x, In x (Np.flatten (values out)) -> In x (Np.flatten (values df))).
Proof.
  unfold Pd.loc. intros H.
  apply bind_Ok in H as (row_locs & E1 & H).
  apply bind_Ok in H as (col_locs & E2 & H).
  apply bind_Ok in H as (vals & E3 & H). injection H as <-.
  cbn [index columns values]. split; [reflexivity|]. split; [reflexivity|].
  assert (Hrow : forall r', In r' vals ->
            exists i r, Np.getitem (values df) i = Ok r /\
                        mapM (Np.getitem r) col_locs = Ok r').
  { intros r' Hr'. destruct (AlignFacts.mapM_In _ _ _ E3 Hr') as (i & _ & Hi).
    apply bind_Ok in Hi as (r & Er & Hi). eauto. }
  split; [split|].
  - cbn. rewrite (mapM_length _ _ E3). apply (mapM_length _ _ E1).
  - cbn. apply Forall_forall. intros r' Hr'.
    destruct (Hrow _ Hr') as (i & r & _ & Hi).
    rewrite (mapM_length _ _ Hi). apply (mapM_length _ _ E2).
  - intros x Hx. unfold Np.flatten in *. apply in_concat in Hx as (r' & Hr' & Hx).
    destruct (Hrow _ Hr') as (i & r & Er & Hi).
    destruct (AlignFacts.mapM_In _ _ _ Hi Hx) as (j & _ & Hj).
    apply in_concat. exists r. unfold Np.getitem in Er, Hj.
    destruct (nth_error (values df) i) as [r0|] eqn:Ei; [|discriminate].
    injection Er as ->.
    destruct (nth_error r j) as [x0|] eqn:Ej; [|discriminate].
    injection Hj as ->. split; eapply nth_error_In; eassumption.
Qed.

Lemma pivot_table_finite (df : ratings_frame) :
  forallb F64.isfinite (Np.flatten (values (create_user_movie_matrix df))) = true.
Proof.
  apply forallb_forall. intros x Hx. unfold Np.flatten in Hx.
  apply in_concat in Hx as (r & Hr & Hx).
  unfold create_user_movie_matrix, Pd.pivot_table in Hr. cbn in Hr.
  apply in_map_iff in Hr as (u & <- & _).
  apply in_map_iff in Hx as (m & <- & _).
  now destruct (Pd.group df u m).
Qed.

(** What [preprocess_splits] returns. *)
Lemma preprocess_splits_inv
    (train_df test_df : ratings_frame) (tr te : DataFrame) :
  preprocess_splits train_df test_df = Ok (tr, te) ->
  let users := Pd.intersection (index (create_user_movie_matrix train_df))
                               (index (create_user_movie_matrix test_df)) in
  let movies := Pd.intersection (columns (create_user_movie_matrix train_df))
                                (columns (create_user_movie_matrix test_df)) in
  index tr = users /\ columns tr = movies /\
  index te = users /\ columns te = movies /\
  well_shaped tr /\ well_shaped te /\
  forallb F64.isfinite (Np.flatten (values tr)) = true /\
  forallb F64.isfinite (Np.flatten (values te)) = true.
Proof.
  unfold preprocess_splits. intros H.
  apply bind_Ok in H as (tr0 & E1 & H). apply bind_Ok in H as (te0 & E2 & H).
  injection H as <- <-.
  destruct (loc_inv _ _ _ E1) as (I1 & C1 & W1 & V1).
  destruct (loc_inv _ _ _ E2) as (I2 & C2 & W2 & V2).
  cbv zeta. repeat split; try assumption; try apply W1; try apply W2.
  - apply forallb_forall. intros x Hx.
    eapply forallb_In; [apply (pivot_table_finite train_df)|]. now apply V1.
  - apply forallb_forall. intros x Hx.
    eapply forallb_In; [apply (pivot_table_finite test_df)|]. now apply V2.
Qed.

Lemma preprocess_splits_returns (train_df test_df : ratings_frame) :
  exists tr te, preprocess_splits train_df test_df = Ok (tr, te).
Proof.
  unfold preprocess_splits.
  destruct (@AlignFacts.loc_Ok (create_user_movie_matrix train_df)
              (Pd.intersection (index (create_user_movie_matrix train_df))
                               (index (create_user_movie_matrix test_df)))
              (Pd.intersection (columns (create_user_movie_matrix train_df))
                               (columns (create_user_movie_matrix test_df))))
    as (v1 & E1).
  { apply AlignFacts.pivot_table_well_shaped. }
  { intros u H. now apply AlignFacts.intersection_In in H. }
  { intros m H. now apply AlignFacts.intersection_In in H. }
  destruct (@AlignFacts.loc_Ok (create_user_movie_matrix test_df)
              (Pd.intersection (index (create_user_movie_matrix train_df))
                               (index (create_user_movie_matrix test_df)))
              (Pd.intersection (columns (create_user_movie_matrix train_df))
                               (columns (create_user_movie_matrix test_df))))
    as (v2 & E2).
  { apply AlignFacts.pivot_table_well_shaped. }
  { intros u H. now apply AlignFacts.intersection_In in H. }
  { intros m H. now apply AlignFacts.intersection_In in H. }
  rewrite E1, E2. cbn. eauto.
Qed.

Lemma same_shape (a b : ndarray) (c : nat) :
  length a = length b ->
  Forall (fun r => length r = c) a -> Forall (fun r => length r = c) b ->
  shape a = shape b.
Proof.
  unfold shape. revert b. induction a as [|r a IH]; intros [|r' b]; cbn;
    try discriminate; [reflexivity|].
  intros [= Hlen] Ha Hb. inversion Ha; inversion Hb; subst.
  f_equal; [congruence|]. now apply IH.
Qed.

End TableFacts.

(** The row and column labels of a rating table are strictly ascending, so
    that no user and no movie labels two rows or two columns; the labels of
    the aligned tables are strictly ascending too. *)
Theorem table_labels_strictly_ascending (train_df test_df : ratings_frame) :
  StronglySorted Z.lt (index (create_user_movie_matrix train_df)) /\
  StronglySorted Z.lt (columns (create_user_movie_matrix train_df)) /\
  exists tr te,
    preprocess_splits train_df test_df = Ok (tr, te) /\
    StronglySorted Z.lt (index tr) /\ StronglySorted Z.lt (columns tr) /\
    StronglySorted Z.lt (index te) /\ StronglySorted Z.lt (columns te).
Proof.
  split; [apply TableFacts.sorted_labels_sorted|].
  split; [apply TableFacts.sorted_labels_sorted|].
  destruct (TableFacts.preprocess_splits_returns train_df test_df) as (tr & te & E).
  exists tr, te. split; [assumption|].
  destruct (TableFacts.preprocess_splits_inv _ _ E) as (-> & -> & -> & -> & _).
  repeat split; apply TableFacts.filter_sorted, TableFacts.sorted_labels_sorted.
Qed.

(** The two aligned tables have the same shape: a row for every label of
    the index and, in each row, a cell for every column label. *)
Theorem aligned_tables_have_one_shape (train_df test_df : ratings_frame) :
  exists tr te,
    preprocess_splits train_df test_df = Ok (tr, te) /\
    Np.nrows (values tr) = length (index tr) /\
    Forall (fun r => length r = length (columns tr)) (values tr) /\
    shape (values te) = shape (values tr).
Proof.
  destruct (TableFacts.preprocess_splits_returns train_df test_df) as (tr & te & E).
  exists tr, te. split; [assumption|].
  destruct (TableFacts.preprocess_splits_inv _ _ E)
    as (I1 & C1 & I2 & C2 & [R1 W1] & [R2 W2] & _).
  split; [exact R1|]. split; [exact W1|].
  apply TableFacts.same_shape with (c := length (columns tr)).
  - rewrite R1, R2. congruence.
  - rewrite C1, <- C2. exact W2.
  - exact W1.
Qed.

(** *** The order of the records *)

Module OrderFacts.

Lemma qsum_from (l : list Q) : forall a, fold_left Qplus l a == a + qsum l.
Proof.
  unfold qsum. induction l as [|x l IH]; intros a; cbn; [ring|].
  rewrite (IH (a + x)), (IH (0 + x)). ring.
Qed.

Lemma qsum_cons (x : Q) (l : list Q) : qsum (x :: l) == x + qsum l.
Proof. unfold qsum at 1. cbn. rewrite qsum_from. ring. Qed.

Lemma filter_perm {A : Type} (f : A -> bool) (l l' : list A) :
  Permutation l l' -> Permutation (filter f l) (filter f l').
Proof.
  induction 1 as [|x l l' _ IH|x y l|l l' l'' _ IH1 _ IH2]; cbn.
  - constructor.
  - destruct (f x); [now constructor|assumption].
  - destruct (f x), (f y); try reflexivity. constructor.
  - now transitivity (filter f l').
Qed.

Lemma group_perm (df df' : ratings_frame) (u m : Z) :
  Permutation df df' -> Permutation (Pd.group df u m) (Pd.group df' u m).
Proof. intros H. unfold Pd.group. now apply Permutation_map, filter_perm. Qed.

(** A pair with at most one rating has the same cell whatever the order of
    the records: no sum is taken over several ratings. *)
Lemma pivot_cell_single (df df' : ratings_frame) (u m : Z) :
  Permutation df df' -> (length (Pd.group df u m) <= 1)%nat ->
  pivot_cell df u m = pivot_cell df' u m.
Proof.
  intros H Hlen. pose proof (group_perm u m H) as Hg. unfold pivot_cell.
  destruct (Pd.group df u m) as [|x [|y g]] eqn:E; [| |cbn in Hlen; lia].
  - apply Permutation_nil in Hg. now rewrite Hg.
  - apply Permutation_length_1_inv in Hg. now rewrite Hg.
Qed.

Lemma sorted_labels_perm (col col' : list Z) :
  Permutation col col' -> Pd.sorted_labels col = Pd.sorted_labels col'.
Proof.
  intros H. apply TableFacts.sorted_ext; try apply TableFacts.sorted_labels_sorted.
  intros z. rewrite !AlignFacts.sorted_labels_In.
  split; apply Permutation_in; [assumption|now apply Permutation_sym].
Qed.

End OrderFacts.

(** The layout of the rating table does not depend on the order of the
    records: two frames with the same rows, in any order, give the same row
    labels and the same column labels, and the same cell for every user and
    movie with at most one rating.  (The mean of several ratings of a pair
    is summed in record order.) *)
Theorem rating_table_ignores_record_order (df df' : ratings_frame) :
  Permutation df df' ->
  index (create_user_movie_matrix df) = index (create_user_movie_matrix df') /\
  columns (create_user_movie_matrix df) = columns (create_user_movie_matrix df') /\
  (forall i j u m,
      nth_error (index (create_user_movie_matrix df)) i = Some u ->
      nth_error (columns (create_user_movie_matrix df)) j = Some m ->
      (length (Pd.group df u m) <= 1)%nat ->
      cell (values (create_user_movie_matrix df)) i j =
      cell (values (create_user_movie_matrix df')) i j).
Proof.
  intros H.
  assert (Hi : index (create_user_movie_matrix df) =
               index (create_user_movie_matrix df'))
    by (cbn; now apply OrderFacts.sorted_labels_perm, Permutation_map).
  assert (Hc : columns (create_user_movie_matrix df) =
               columns (create_user_movie_matrix df'))
    by (cbn; now apply OrderFacts.sorted_labels_perm, Permutation_map).
  split; [assumption|]. split; [assumption|].
  intros i j u m Eu Em Hlen.
  rewrite (pivot_table_cell _ _ _ Eu Em).
  rewrite Hi in Eu. rewrite Hc in Em.
  rewrite (pivot_table_cell _ _ _ Eu Em).
  f_equal. now apply OrderFacts.pivot_cell_single.
Qed.

Lemma rating_table_ignores_record_order_witness :
  index (create_user_movie_matrix two_ratings) =
  index (create_user_movie_matrix (rev two_ratings)) /\
  columns (create_user_movie_matrix two_ratings) =
  columns (create_user_movie_matrix (rev two_ratings)) /\
  (forall i j u m,
      nth_error (index (create_user_movie_matrix two_ratings)) i = Some u ->
      nth_error (columns (create_user_movie_matrix two_ratings)) j = Some m ->
      (length (Pd.group two_ratings u m) <= 1)%nat ->
      cell (values (create_user_movie_matrix two_ratings)) i j =
      cell (values (create_user_movie_matrix (rev two_ratings))) i j).
Proof.
  apply (@rating_table_ignores_record_order two_ratings (rev two_ratings)).
  cbn. apply perm_swap.
Defined.

(** ** The temporal split of main *)

Module SplitFacts.

Lemma insert_by_timestamp_perm (r : rating_row) (l : ratings_frame) :
  Permutation (Pd.insert_by_timestamp r l) (r :: l).
Proof.
  induction l as [|y l IH]; cbn; [reflexivity|].
  destruct (timestamp y <? timestamp r)%Z; [|reflexivity].
  rewrite IH. apply perm_swap.
Qed.

Lemma sort_values_perm (df : ratings_frame) :
  Permutation (Pd.sort_values_timestamp df) df.
Proof.
  unfold Pd.sort_values_timestamp. induction df as [|r df IH]; cbn; [reflexivity|].
  rewrite insert_by_timestamp_perm. now constructor.
Qed.

Lemma insert_by_timestamp_sorted (r : rating_row) (l : ratings_frame) :
  StronglySorted earlier l -> StronglySorted earlier (Pd.insert_by_timestamp r l).
Proof.
  induction 1 as [|y l Hl IH Hy]; cbn.
  - repeat constructor.
  - destruct (Z.ltb_spec (timestamp y) (timestamp r)) as [H|H].
    + constructor; [assumption|]. apply Forall_forall. intros x Hx.
      apply (Permutation_in _ (insert_by_timestamp_perm r l)) in Hx.
      destruct Hx as [<-|Hx]; [unfold earlier; lia|].
      rewrite Forall_forall in Hy. auto.
    + constructor; [now constructor|]. constructor; [assumption|].
      eapply Forall_impl; [|exact Hy]. unfold earlier. intros x Hx. lia.
Qed.

Lemma sort_values_sorted (df : ratings_frame) :
  StronglySorted earlier (Pd.sort_values_timestamp df).
Proof.
  unfold Pd.sort_values_timestamp. induction df as [|r df IH]; cbn; [constructor|].
  now apply insert_by_timestamp_sorted.
Qed.

Lemma timestamps_sorted (l : ratings_frame) :
  StronglySorted earlier l -> StronglySorted Z.le (map timestamp l).
Proof.
  induction 1 as [|y l Hl IH Hy]; cbn; constructor; [assumption|].
  apply Forall_forall. intros t Ht. apply in_map_iff in Ht as (x & <- & Hx).
  rewrite Forall_forall in Hy. now apply Hy.
Qed.

Lemma partition_perm {A : Type} (p : A -> bool) (l : list A) :
  Permutation (filter p l ++ filter (fun x => negb (p x)) l) l.
Proof.
  induction l as [|x l IH]; cbn; [reflexivity|].
  destruct (p x); cbn.
  - now constructor.
  - rewrite <- Permutation_middle. now constructor.
Qed.

(** In an ascending column every entry is at most the next one, the entry
    itself standing in where there is no next one. *)
Lemma nth_next (l : list Z) : forall i d,
  StronglySorted Z.le l -> (nth i l d <= nth (S i) l (nth i l d))%Z.
Proof.
  induction l as [|x l IH]; intros i d Hs.
  - destruct i; cbn; lia.
  - inversion Hs as [|? ? Hl Hx]; subst. destruct i as [|i].
    + cbn. destruct l as [|y l]; cbn; [lia|].
      inversion Hx; assumption.
    + cbn [nth]. now apply IH.
Qed.

Lemma nth_head (x : Z) (l : list Z) (i : nat) :
  StronglySorted Z.le (x :: l) -> (x <= nth i (x :: l) x)%Z.
Proof.
  intros Hs. inversion Hs as [|? ? Hl Hx]; subst.
  destruct i as [|i]; cbn; [lia|].
  destruct (nth_in_or_default i l x) as [H| ->]; [|lia].
  rewrite Forall_forall in Hx. now apply Hx.
Qed.

(** The 0.8 quantile of a non-empty ascending column is a real that is not
    below the first entry. *)
Lemma quantile_lower (x : Z) (l : list Z) (q : Q) :
  StronglySorted Z.le (x :: l) -> 0 <= q ->
  exists c, Pd.quantile (x :: l) q = Fin c /\ inject_Z x <= c.
Proof.
  intros Hs Hq. unfold Pd.quantile.
  set (h := inject_Z (Z.of_nat (length (x :: l)) - 1) * q).
  set (lo := Z.to_nat (Qfloor h)).
  eexists. split; [reflexivity|].
  pose proof (nth_head lo Hs) as Ha.
  pose proof (nth_next lo x Hs) as Hb.
  pose proof (Qfloor_le h) as Hf.
  set (a := nth lo (x :: l) x) in *.
  set (b := nth (S lo) (x :: l) a) in *.
  assert (Ha' : inject_Z x <= inject_Z a) by now rewrite <- Zle_Qle.
  assert (Hb' : inject_Z a <= inject_Z b) by now rewrite <- Zle_Qle.
  assert (0 <= (inject_Z b - inject_Z a) * (h - inject_Z (Qfloor h)))
    by (apply Qmult_le_0_compat; lra).
  lra.
Qed.

End SplitFacts.

(** The temporal split cuts the frame in two by time: the train and the
    test part together hold the rows of the frame, each once; every row of
    the train part is strictly earlier than every row of the test part; and
    the train part of a frame that holds a row holds a row. *)
Theorem temporal_split_cuts_by_time (ratings : ratings_frame) :
  Permutation (fst (temporal_split ratings) ++ snd (temporal_split ratings)) ratings /\
  (forall a b,
      In a (fst (temporal_split ratings)) -> In b (snd (temporal_split ratings)) ->
      (timestamp a < timestamp b)%Z) /\
  (ratings <> [] -> fst (temporal_split ratings) <> []).
Proof.
  unfold temporal_split. cbn [fst snd].
  set (sorted := Pd.sort_values_timestamp ratings).
  set (cutoff := Pd.quantile (map timestamp sorted) (8 # 10)).
  pose proof (SplitFacts.sort_values_perm ratings) as Hperm. fold sorted in Hperm.
  pose proof (SplitFacts.timestamps_sorted (SplitFacts.sort_values_sorted ratings))
    as Hsorted. fold sorted in Hsorted.
  split; [|split].
  - rewrite <- Hperm.
    destruct sorted as [|r rest] eqn:E; [reflexivity|].
    destruct (@SplitFacts.quantile_lower (timestamp r) (map timestamp rest) (8 # 10))
      as (c & Ec & _); [exact Hsorted|lra|].
    cbn [map] in cutoff. unfold cutoff. rewrite Ec.
    erewrite (filter_ext (fun r0 => F64.of_Z (timestamp r0) > Fin c)%f64).
    + apply SplitFacts.partition_perm.
    + intros r0. cbn. reflexivity.
  - intros a b Ha Hb. apply filter_In in Ha as [_ Ha]. apply filter_In in Hb as [_ Hb].
    destruct cutoff as [c| | |]; cbn in Ha, Hb; try discriminate.
    apply Qle_bool_iff in Ha. apply negb_true_iff in Hb.
    destruct (Qle_bool_spec (inject_Z (timestamp b)) c) as [H|H]; [discriminate|].
    rewrite Zlt_Qlt. lra.
  - intros Hne.
    destruct sorted as [|r rest] eqn:E.
    + apply Permutation_nil in Hperm. congruence.
    + destruct (@SplitFacts.quantile_lower (timestamp r) (map timestamp rest) (8 # 10))
        as (c & Ec & Hc); [exact Hsorted|lra|].
      cbn [map] in cutoff. unfold cutoff. rewrite Ec. cbn [filter].
      unfold F64.of_Z at 1. cbn [F64.leb].
      destruct (Qle_bool_spec (inject_Z (timestamp r)) c) as [H|H]; [discriminate|lra].
Qed.

(** ** A pass without enough common labels *)

Module PassFacts.

(** The train table of two splits that share fewer than [N_COMPONENTS]
    movies is refused by the factorisation. *)
Lemma few_movies (lib : library) (train_df test_df : ratings_frame) :
  (length (Pd.intersection (columns (create_user_movie_matrix train_df))
                           (columns (create_user_movie_matrix test_df)))
   < N_COMPONENTS)%nat ->
  exists msg, run_split lib train_df test_df = Raise (ValueError msg).
Proof.
  intros H.
  destruct (TableFacts.preprocess_splits_returns train_df test_df) as (tr & te & E).
  destruct (TableFacts.preprocess_splits_inv _ _ E)
    as (Hi & Hc & _ & _ & [Hrows Hcols] & _ & Hfin & _).
  unfold run_split. rewrite E. cbn [bind].
  unfold train_svd, Sk.fit_transform. rewrite Hfin. cbn [negb].
  destruct (Nat.eqb (Np.nrows (values tr)) 0) eqn:En; [cbn; eauto|].
  assert (Hn : Np.ncols (values tr) =
               length (Pd.intersection (columns (create_user_movie_matrix train_df))
                                       (columns (create_user_movie_matrix test_df)))).
  { rewrite <- Hc. unfold Np.ncols, Np.nrows in *.
    destruct (values tr) as [|r rows]; [discriminate|]. now inversion Hcols. }
  rewrite Hn.
  destruct (Nat.ltb _ 2); [cbn; eauto|].
  destruct (Nat.ltb_spec
              (length (Pd.intersection (columns (create_user_movie_matrix train_df))
                                       (columns (create_user_movie_matrix test_df))))
              N_COMPONENTS); [cbn; eauto|lia].
Qed.

End PassFacts.

(** A pass of the loop on two splits that share no user, or fewer than
    [N_COMPONENTS] movies, ends in a [ValueError]: the aligned train table
    is refused by the factorisation, and nothing is evaluated. *)
Theorem pass_needs_common_users_and_movies
    (lib : library) (train_df test_df : ratings_frame) :
  Pd.intersection (index (create_user_movie_matrix train_df))
                  (index (create_user_movie_matrix test_df)) = [] \/
  (length (Pd.intersection (columns (create_user_movie_matrix train_df))
                           (columns (create_user_movie_matrix test_df)))
   < N_COMPONENTS)%nat ->
  exists msg, run_split lib train_df test_df = Raise (ValueError msg).
Proof.
  intros [Hu|Hm]; [|now apply PassFacts.few_movies].
  destruct (TableFacts.preprocess_splits_returns train_df test_df) as (tr & te & E).
  destruct (TableFacts.preprocess_splits_inv _ _ E)
    as (Hi & _ & _ & _ & [Hrows _] & _ & Hfin & _).
  unfold run_split. rewrite E. cbn [bind].
  unfold train_svd, Sk.fit_transform. rewrite Hfin. cbn [negb].
  unfold Np.nrows. rewrite Hrows, Hi, Hu. cbn. eauto.
Qed.

Lemma pass_needs_common_users_and_movies_witness :
  exists msg, run_split truncating_library two_ratings two_ratings = Raise (ValueError msg).
Proof.
  apply (@pass_needs_common_users_and_movies truncating_library two_ratings two_ratings).
  right. vm_compute. lia.
Defined.

(** ** More on normalize_predictions *)

Module NormFacts.

Lemma fold_minimum_nan (xs : ndarray1) : fold_left Np.minimum xs NaN = NaN.
Proof. induction xs as [|y ys IH]; cbn; [reflexivity|assumption]. Qed.

Lemma fold_minimum_meets_nan (xs : ndarray1) : forall x,
  In NaN (x :: xs) -> fold_left Np.minimum xs x = NaN.
Proof.
  induction xs as [|y ys IH]; intros x [Hx|Hx]; subst; cbn [fold_left].
  - reflexivity.
  - destruct Hx.
  - apply fold_minimum_nan.
  - apply IH. destruct Hx as [->|Hx].
    + left. unfold Np.minimum. destruct x; reflexivity.
    + right. assumption.
Qed.

Lemma rescale_cell_nan (hi rmin rmax x : float64) :
  rescale_cell NaN hi rmin rmax x = NaN.
Proof.
  unfold rescale_cell, F64.sub. cbn [F64.opp].
  assert (E : (x + NaN)%f64 = NaN) by now destruct x.
  rewrite E. reflexivity.
Qed.

Lemma shape_map2d (f : float64 -> float64) (a : ndarray) :
  shape (Np.map2d f a) = shape a.
Proof.
  unfold shape, Np.map2d. rewrite map_map. apply map_ext. intros r.
  apply length_map.
Qed.

Lemma min_max_return (a : ndarray) :
  Np.flatten a <> [] -> exists lo hi, Np.min a = Ok lo /\ Np.max a = Ok hi.
Proof.
  unfold Np.min, Np.max, Np.min1, Np.max1.
  destruct (Np.flatten a) as [|x xs]; [congruence|]. eauto.
Qed.

End NormFacts.

(** A [NaN] among the cells of the reconstruction reaches every prediction:
    the minimum is [NaN], and the rescaling returns a matrix of [NaN]. *)
Theorem nan_cell_spoils_every_prediction
    (reconstructed : ndarray) (ratings : ratings_frame) :
  In NaN (Np.flatten reconstructed) ->
  normalize_predictions reconstructed ratings =
  Ok (Np.map2d (fun _ => NaN) reconstructed).
Proof.
  intros H.
  destruct (@NormFacts.min_max_return reconstructed) as (lo & hi & Hlo & Hhi).
  { intros E. rewrite E in H. destruct H. }
  rewrite normalize_predictions_eq with (lo := lo) (hi := hi) by assumption.
  destruct (NpFacts.min_ok _ Hlo) as (x & xs & Eflat & ->).
  rewrite Eflat in H. rewrite (@NormFacts.fold_minimum_meets_nan xs x H).
  f_equal. apply NpFacts.map2d_ext_in. intros c _. apply NormFacts.rescale_cell_nan.
Qed.

Lemma nan_cell_spoils_every_prediction_witness :
  normalize_predictions [[Fin 1; NaN]; [Fin 4; Fin 2]] two_ratings =
  Ok (Np.map2d (fun _ => NaN) [[Fin 1; NaN]; [Fin 4; Fin 2]]).
Proof.
  apply (@nan_cell_spoils_every_prediction [[Fin 1; NaN]; [Fin 4; Fin 2]] two_ratings).
  cbn. right. left. reflexivity.
Defined.

(** The rescaling needs a cell and keeps the shape: on a matrix without a
    cell it raises the [ValueError] of the empty minimum, and on every other
    matrix it returns a matrix with the rows and row lengths of its
    argument, whatever the ratings are. *)
Theorem rescaling_keeps_the_shape (reconstructed : ndarray) (ratings : ratings_frame) :
  (Np.flatten reconstructed = [] ->
   normalize_predictions reconstructed ratings =
   Raise (ValueError
     "zero-size array to reduction operation minimum which has no identity")) /\
  (Np.flatten reconstructed <> [] ->
   exists predicted,
     normalize_predictions reconstructed ratings = Ok predicted /\
     shape predicted = shape reconstructed).
Proof.
  split; [apply normalize_predictions_empty|].
  intros H. destruct (@NormFacts.min_max_return reconstructed H) as (lo & hi & Hlo & Hhi).
  rewrite normalize_predictions_eq with (lo := lo) (hi := hi) by assumption.
  eexists. split; [reflexivity|]. apply NormFacts.shape_map2d.
Qed.

(** ** More on evaluate_predictions *)

Module MetricFacts.

Lemma qnat_nonneg (n : nat) : 0 <= Sk.qnat n.
Proof. unfold Sk.qnat. change 0 with (inject_Z 0). rewrite <- Zle_Qle. lia. Qed.

Lemma qnat_pos (n : nat) : n <> 0%nat -> 0 < Sk.qnat n.
Proof.
  intros H. unfold Sk.qnat. change 0 with (inject_Z 0). rewrite <- Zlt_Qlt. lia.
Qed.

Lemma tp_sum_le_pred (c : bool) (y_true : Sk.labels) : forall y_pred,
  (Sk.tp_sum c y_true y_pred <= Sk.pred_sum c y_pred)%nat.
Proof.
  unfold Sk.tp_sum, Sk.pred_sum, Sk.count.
  induction y_true as [|t y_true IH]; intros [|p y_pred]; cbn; try lia.
  specialize (IH y_pred). destruct t, c, p; cbn; lia.
Qed.

Lemma prf_divide_range (n d : nat) :
  (n <= d)%nat -> 0 <= Sk.prf_divide n d /\ Sk.prf_divide n d <= 1.
Proof.
  intros H. unfold Sk.prf_divide. destruct (Nat.eqb_spec d 0) as [E|E]; [lra|].
  pose proof (qnat_pos E) as Hd. pose proof (qnat_nonneg n) as Hn.
  pose proof (qnat_le H) as Hle.
  split.
  - apply Qle_shift_div_l; [assumption|lra].
  - apply Qle_shift_div_r; [assumption|lra].
Qed.

Lemma f1_range (p r : Q) :
  0 <= p <= 1 -> 0 <= r <= 1 ->
  0 <= (if Qeq_bool (p + r) 0 then 0 else 2 * (p * r) / (p + r)) <= 1.
Proof.
  intros [Hp0 Hp1] [Hr0 Hr1].
  destruct (Qeq_bool_spec (p + r) 0) as [E|E]; [lra|].
  assert (Hs : 0 < p + r) by lra.
  assert (H1 : 0 <= p * r) by now apply Qmult_le_0_compat.
  assert (H2 : 0 <= (1 - r) * p) by (apply Qmult_le_0_compat; lra).
  assert (H3 : 0 <= (1 - p) * r) by (apply Qmult_le_0_compat; lra).
  split.
  - apply Qle_shift_div_l; [assumption|lra].
  - apply Qle_shift_div_r; [assumption|lra].
Qed.

(** A weighted average of per-class scores in [0, 1] is a real in [0, 1]. *)
Lemma weighted_range (score : bool -> Q) (y_true y_pred : Sk.labels) :
  (forall c, 0 <= score c <= 1) ->
  exists v, Sk.weighted score y_true y_pred = Fin v /\ 0 <= v <= 1.
Proof.
  intros Hs. unfold Sk.weighted.
  set (total := qsum _).
  set (num := qsum (map (fun c => score c * Sk.qnat (Sk.true_sum c y_true)) _)).
  assert (Htotal : total ==
                   Sk.qnat (Sk.true_sum false y_true) + Sk.qnat (Sk.true_sum true y_true)).
  { unfold total.
    rewrite (@SkFacts.qsum_present (fun c => Sk.qnat (Sk.true_sum c y_true))).
    - reflexivity.
    - intros c ->. reflexivity. }
  assert (Hnum : num ==
                 score false * Sk.qnat (Sk.true_sum false y_true)
                 + score true * Sk.qnat (Sk.true_sum true y_true)).
  { unfold num.
    rewrite (@SkFacts.qsum_present
               (fun c => score c * Sk.qnat (Sk.true_sum c y_true))).
    - reflexivity.
    - intros c E. rewrite E. unfold Sk.qnat; cbn. ring. }
  destruct (Qeq_bool_spec total 0) as [E|E]; [exists 0; split; [reflexivity|lra]|].
  exists (num / total). split; [reflexivity|].
  pose proof (qnat_nonneg (Sk.true_sum false y_true)) as Hf.
  pose proof (qnat_nonneg (Sk.true_sum true y_true)) as Ht.
  destruct (Hs false) as [Hf0 Hf1]. destruct (Hs true) as [Ht0 Ht1].
  assert (0 <= score false * Sk.qnat (Sk.true_sum false y_true))
    by now apply Qmult_le_0_compat.
  assert (0 <= score true * Sk.qnat (Sk.true_sum true y_true))
    by now apply Qmult_le_0_compat.
  assert (0 <= (1 - score false) * Sk.qnat (Sk.true_sum false y_true))
    by (apply Qmult_le_0_compat; lra).
  assert (0 <= (1 - score true) * Sk.qnat (Sk.true_sum true y_true))
    by (apply Qmult_le_0_compat; lra).
  assert (Hpos : 0 < total) by lra.
  split.
  - apply Qle_shift_div_l; [assumption|lra].
  - apply Qle_shift_div_r; [assumption|lra].
Qed.

Lemma precision_range (c : bool) (y_true y_pred : Sk.labels) :
  0 <= Sk.precision_of c y_true y_pred <= 1.
Proof. apply prf_divide_range, tp_sum_le_pred. Qed.

Lemma recall_range (c : bool) (y_true y_pred : Sk.labels) :
  0 <= Sk.recall_of c y_true y_pred <= 1.
Proof. apply prf_divide_range, SkFacts.tp_sum_le. Qed.

Lemma f1_of_range (c : bool) (y_true y_pred : Sk.labels) :
  0 <= Sk.f1_of c y_true y_pred <= 1.
Proof. apply f1_range; [apply precision_range|apply recall_range]. Qed.

Lemma classification_scores_range
    (threshold : float64) (true_flat pred_flat : ndarray1) (p r f : float64) :
  classification_scores threshold true_flat pred_flat = Ok (p, r, f) ->
  exists p' r' f',
    p = Fin p' /\ r = Fin r' /\ f = Fin f' /\
    0 <= p' <= 1 /\ 0 <= r' <= 1 /\ 0 <= f' <= 1.
Proof.
  unfold classification_scores, Sk.precision_score, Sk.recall_score, Sk.f1_score.
  destruct (Sk.check_consistent_length _ _) as [[]|e]; [|discriminate].
  cbn [bind]. intros [= <- <- <-].
  set (y_true := binarize threshold true_flat).
  set (y_pred := binarize threshold pred_flat).
  destruct (@weighted_range (fun c => Sk.precision_of c y_true y_pred) y_true y_pred)
    as (p' & -> & Hp); [intros c; apply precision_range|].
  destruct (@weighted_range (fun c => Sk.recall_of c y_true y_pred) y_true y_pred)
    as (r' & -> & Hr); [intros c; apply recall_range|].
  destruct (@weighted_range (fun c => Sk.f1_of c y_true y_pred) y_true y_pred)
    as (f' & -> & Hf); [intros c; apply f1_of_range|].
  exists p', r', f'. tauto.
Qed.

End MetricFacts.

(** Whatever the evaluator returns, its three classification scores are in
    range: precision, recall and f1 are numbers between 0 and 1. *)
Theorem returned_scores_are_in_range
    (true_matrix : DataFrame) (pred : ndarray) (rm : root) (p r f : float64) :
  evaluate_predictions true_matrix pred = Ok (rm, p, r, f) ->
  exists p' r' f',
    p = Fin p' /\ r = Fin r' /\ f = Fin f' /\
    0 <= p' <= 1 /\ 0 <= r' <= 1 /\ 0 <= f' <= 1.
Proof.
  unfold evaluate_predictions. intros H.
  apply bind_Ok in H as (true_flat & _ & H).
  apply bind_Ok in H as (pred_flat & _ & H).
  apply bind_Ok in H as (mse & _ & H).
  apply bind_Ok in H as (rmse0 & _ & H). cbv zeta in H.
  apply bind_Ok in H as ([[p0 r0] f0] & Ecs & H). injection H as _ <- <- <-.
  exact (MetricFacts.classification_scores_range _ _ _ Ecs).
Qed.

Lemma returned_scores_are_in_range_witness :
  exists p' r' f',
    Fin (1 # 4) = Fin p' /\ Fin (1 # 2) = Fin r' /\ Fin (4 # 12) = Fin f' /\
    0 <= p' <= 1 /\ 0 <= r' <= 1 /\ 0 <= f' <= 1.
Proof.
  apply (@returned_scores_are_in_range
           (mkFrame [1%Z] [10%Z; 20%Z] [[Fin 4; Fin 3]]) [[Fin 3; Fin 3]]
           (Sqrt (Fin (1 # 2)))).
  vm_compute. reflexivity.
Defined.

Module ExactFacts.

Lemma tp_sum_self (c : bool) (y : Sk.labels) : Sk.tp_sum c y y = Sk.true_sum c y.
Proof.
  unfold Sk.tp_sum, Sk.true_sum, Sk.count.
  induction y as [|t y IH]; cbn; [reflexivity|].
  destruct t, c; cbn; now rewrite IH.
Qed.

Lemma prf_divide_self (n : nat) :
  Sk.prf_divide n n * Sk.qnat n == Sk.qnat n.
Proof.
  unfold Sk.prf_divide. destruct (Nat.eqb_spec n 0) as [->|E].
  - unfold Sk.qnat; cbn. ring.
  - field. intros H. now apply SkFacts.qnat_zero in H.
Qed.

Lemma precision_self (c : bool) (y : Sk.labels) :
  Sk.precision_of c y y * Sk.qnat (Sk.true_sum c y) == Sk.qnat (Sk.true_sum c y).
Proof.
  unfold Sk.precision_of. rewrite tp_sum_self.
  change (Sk.pred_sum c y) with (Sk.true_sum c y). apply prf_divide_self.
Qed.

Lemma recall_self (c : bool) (y : Sk.labels) :
  Sk.recall_of c y y * Sk.qnat (Sk.true_sum c y) == Sk.qnat (Sk.true_sum c y).
Proof. unfold Sk.recall_of. rewrite tp_sum_self. apply prf_divide_self. Qed.

Lemma f1_self (c : bool) (y : Sk.labels) :
  Sk.f1_of c y y * Sk.qnat (Sk.true_sum c y) == Sk.qnat (Sk.true_sum c y).
Proof.
  unfold Sk.f1_of, Sk.precision_of, Sk.recall_of. rewrite tp_sum_self.
  change (Sk.pred_sum c y) with (Sk.true_sum c y).
  set (n := Sk.true_sum c y). unfold Sk.prf_divide.
  destruct (Nat.eqb_spec n 0) as [->|E].
  - cbn. unfold Sk.qnat; cbn. ring.
  - assert (Hn : ~ Sk.qnat n == 0) by (intros H; now apply SkFacts.qnat_zero in H).
    assert (Hd : Sk.qnat n / Sk.qnat n == 1) by now field.
    cbv zeta.
    destruct (Qeq_bool_spec (Sk.qnat n / Sk.qnat n + Sk.qnat n / Sk.qnat n) 0)
      as [H|H]; [lra|].
    rewrite Hd. field.
Qed.

(** With the true labels predicted, a weighted average of scores that are 1
    on the classes that occur is 1. *)
Lemma weighted_one (score : bool -> Q) (y : Sk.labels) :
  y <> [] ->
  (forall c, score c * Sk.qnat (Sk.true_sum c y) == Sk.qnat (Sk.true_sum c y)) ->
  exists v, Sk.weighted score y y = Fin v /\ v == 1.
Proof.
  intros Hne Hs. unfold Sk.weighted.
  set (total := qsum _).
  set (num := qsum (map (fun c => score c * Sk.qnat (Sk.true_sum c y)) _)).
  assert (Htotal : total == Sk.qnat (length y)).
  { unfold total.
    rewrite (@SkFacts.qsum_present (fun c => Sk.qnat (Sk.true_sum c y))).
    - now rewrite <- SkFacts.qnat_plus, SkFacts.true_sum_total.
    - intros c ->. reflexivity. }
  assert (Hnum : num == Sk.qnat (length y)).
  { unfold num.
    rewrite (@SkFacts.qsum_present (fun c => score c * Sk.qnat (Sk.true_sum c y))).
    - now rewrite !Hs, <- SkFacts.qnat_plus, SkFacts.true_sum_total.
    - intros c E. rewrite E. unfold Sk.qnat; cbn. ring. }
  assert (Hpos : 0 < Sk.qnat (length y)).
  { apply MetricFacts.qnat_pos. destruct y; [congruence|discriminate]. }
  destruct (Qeq_bool_spec total 0) as [E|E]; [lra|].
  exists (num / total). split; [reflexivity|].
  rewrite Hnum, Htotal. field. lra.
Qed.

Lemma sum_of_zero_squares (v : ndarray1) : forall acc,
  acc == 0 -> forallb F64.isfinite v = true ->
  exists s,
    fold_left F64.add
      (map (fun p => (fst p - snd p) * (fst p - snd p))%f64 (combine v v)) (Fin acc)
    = Fin s /\ s == 0.
Proof.
  induction v as [|x v IH]; intros acc Hacc Hfin; cbn in *; [eauto|].
  apply andb_true_iff in Hfin as [Hx Hfin].
  destruct x as [a| | |]; try discriminate. cbn.
  apply IH; [|assumption]. rewrite Hacc. ring.
Qed.

(** The scores of a selection against itself. *)
Lemma score_self (v : ndarray1) :
  v <> [] -> forallb F64.isfinite v = true ->
  exists z p r f,
    score v v = Ok (Sqrt (Fin z), Fin p, Fin r, Fin f) /\
    z == 0 /\ p == 1 /\ r == 1 /\ f == 1.
Proof.
  intros Hne Hfin. unfold score, Sk.mean_squared_error.
  unfold Sk.check_consistent_length, Sk.check_array.
  rewrite Nat.eqb_refl, Hfin. cbn [negb bind].
  destruct (Nat.eqb_spec (length v) 0) as [E|E];
    [destruct v; [congruence|discriminate]|].
  cbn [bind].
  destruct (@sum_of_zero_squares v 0) as (s & Es & Hs); [reflexivity|assumption|].
  unfold Np.sum, F64.zero. rewrite Es.
  set (n := length _).
  assert (Hpos : 0 < Sk.qnat n).
  { apply MetricFacts.qnat_pos. unfold n. rewrite length_map, length_combine. lia. }
  unfold Sk.of_nat, F64.of_Z. cbn [F64.div]. fold (Sk.qnat n).
  destruct (Qeq_bool_spec (Sk.qnat n) 0) as [E0|E0]; [lra|].
  assert (Hz : s / Sk.qnat n == 0) by (rewrite Hs; field; lra).
  unfold math_sqrt, F64.zero. cbn [F64.ltb].
  destruct (Qle_bool_spec 0 (s / Sk.qnat n)) as [H|H]; [|lra].
  cbn [negb bind].
  unfold classification_scores, Sk.precision_score, Sk.recall_score, Sk.f1_score,
    Sk.check_consistent_length.
  rewrite Nat.eqb_refl. cbn [bind].
  set (y := binarize (Fin (7 # 2)) v).
  assert (Hy : y <> []) by (unfold y, binarize; destruct v; [congruence|discriminate]).
  destruct (@weighted_one (fun c => Sk.precision_of c y y) y Hy) as (p & -> & Hp);
    [intros c; apply precision_self|].
  destruct (@weighted_one (fun c => Sk.recall_of c y y) y Hy) as (r & -> & Hr);
    [intros c; apply recall_self|].
  destruct (@weighted_one (fun c => Sk.f1_of c y y) y Hy) as (f & -> & Hf);
    [intros c; apply f1_self|].
  exists (s / Sk.qnat n), p, r, f. split; [reflexivity|]. tauto.
Qed.

End ExactFacts.

(** Predictions that repeat the test table at its rated positions get the
    best scores: on a table of reals with a cell that is not 0, the rmse is
    the root of 0 and precision, recall and f1 are 1, whatever is predicted
    at the other positions. *)
Theorem exact_predictions_score_best (true_matrix : DataFrame) (pred : ndarray) :
  shape pred = shape (values true_matrix) ->
  existsb (fun t => t != F64.zero)%f64 (Np.flatten (values true_matrix)) = true ->
  forallb F64.isfinite (Np.flatten (values true_matrix)) = true ->
  (forall k t,
      nth_error (Np.flatten (values true_matrix)) k = Some t ->
      (t != F64.zero)%f64 = true ->
      nth_error (Np.flatten pred) k = Some t) ->
  exists z p r f,
    evaluate_predictions true_matrix pred = Ok (Sqrt (Fin z), Fin p, Fin r, Fin f) /\
    z == 0 /\ p == 1 /\ r == 1 /\ f == 1.
Proof.
  intros Hshape Hex Hfin Hsame.
  rewrite EvalFacts.evaluate_predictions_eq by assumption. cbv zeta.
  set (true_flat := Np.flatten (values true_matrix)) in *.
  set (mask := map (fun x => x != F64.zero)%f64 true_flat).
  assert (Hlen : length (Np.flatten pred) = length true_flat)
    by now apply EvalFacts.flatten_length.
  assert (Esel : Np.select (Np.flatten pred) mask = Np.select true_flat mask).
  { apply EvalFacts.select_ext; [assumption|]. intros k Hk.
    unfold mask in Hk. rewrite nth_error_map in Hk.
    destruct (nth_error true_flat k) as [t|] eqn:Et; [|discriminate].
    cbn in Hk. injection Hk as Hk. now apply Hsame. }
  rewrite Esel. apply ExactFacts.score_self.
  - apply existsb_exists in Hex as (t & Ht & Hnz).
    apply In_nth_error in Ht as [k Hk].
    apply (@EvalFacts.select_nonempty _ true_flat mask k).
    + unfold mask. now rewrite length_map.
    + unfold mask. now rewrite nth_error_map, Hk; cbn; rewrite Hnz.
  - now apply EvalFacts.select_forallb.
Qed.

Lemma exact_predictions_score_best_witness :
  exists z p r f,
    evaluate_predictions (mkFrame [1%Z] [10%Z; 20%Z; 30%Z] [[Fin 4; Fin 0; Fin 3]])
                         [[Fin 4; Fin 1; Fin 3]]
    = Ok (Sqrt (Fin z), Fin p, Fin r, Fin f) /\
    z == 0 /\ p == 1 /\ r == 1 /\ f == 1.
Proof.
  apply (@exact_predictions_score_best
           (mkFrame [1%Z] [10%Z; 20%Z; 30%Z] [[Fin 4; Fin 0; Fin 3]])
           [[Fin 4; Fin 1; Fin 3]]); try reflexivity.
  intros [|[|[|k]]] t; cbn; intros [= <-]; try reflexivity; try discriminate.
Defined.

(** A predicted matrix with another number of cells than the test table is
    refused: the mask of the test table does not fit it, and the evaluator
    raises an [IndexError] before any metric is computed. *)
Theorem evaluator_refuses_other_sizes (true_matrix : DataFrame) (pred : ndarray) :
  length (Np.flatten pred) <> length (Np.flatten (values true_matrix)) ->
  exists msg, evaluate_predictions true_matrix pred = Raise (IndexError msg).
Proof.
  intros H. unfold evaluate_predictions.
  rewrite EvalFacts.getmask_Ok by reflexivity. cbn [bind].
  unfold Np.getmask. rewrite length_map.
  destruct (Nat.eqb_spec (length (Np.flatten pred))
              (length (Np.flatten (values true_matrix)))) as [E|E]; [contradiction|].
  cbn [bind]. eauto.
Qed.

Lemma evaluator_refuses_other_sizes_witness :
  exists msg,
    evaluate_predictions (mkFrame [1%Z] [10%Z; 20%Z] [[Fin 4; Fin 3]])
                         [[Fin 4; Fin 3; Fin 1]]
    = Raise (IndexError msg).
Proof.
  apply (@evaluator_refuses_other_sizes
           (mkFrame [1%Z] [10%Z; 20%Z] [[Fin 4; Fin 3]]) [[Fin 4; Fin 3; Fin 1]]).
  cbn. discriminate.
Defined.

(** ** More on recommend_movies *)

Module PickFacts.

Lemma get_loc_contains (idx : Index) (label : Z) (i : nat) :
  Pd.get_loc idx label = Ok i ->
  Pd.contains idx label = true /\ nth_error idx i = Some label.
Proof.
  unfold Pd.get_loc. destruct (Pd.find_loc idx label) as [k|] eqn:E; [|discriminate].
  intros [= <-]. pose proof (RecFacts.find_loc_Some _ _ E) as H.
  split; [|assumption]. apply RecFacts.contains_In. eapply nth_error_In, H.
Qed.

(** The loop returns only when every position is one of the row and of the
    movie index, and then with the pairs of the positions, in order. *)
Lemma collect_inv (row : ndarray1) (movie_mapper : Index) (indices : list nat) :
  forall acc out,
    collect row movie_mapper indices acc = Ok out ->
    out = acc ++ map (fun j => (nth j movie_mapper 0%Z, nth j row F64.zero)) indices /\
    Forall (fun j => (j < length movie_mapper)%nat) indices.
Proof.
  induction indices as [|idx rest IH]; intros acc out; cbn.
  - intros [= <-]. now rewrite app_nil_r.
  - unfold Np.getitem.
    destruct (nth_error movie_mapper idx) as [m|] eqn:Em; [|discriminate].
    destruct (nth_error row idx) as [s|] eqn:Es; [|discriminate].
    cbn [bind]. intros H. apply IH in H as [-> Hrest].
    rewrite <- app_assoc. cbn.
    rewrite (nth_error_nth _ _ _ Em), (nth_error_nth _ _ _ Es).
    split; [reflexivity|]. constructor; [|assumption].
    apply nth_error_Some. congruence.
Qed.

(** A position outside the movie index makes the loop raise. *)
Lemma collect_raises (row : ndarray1) (movie_mapper : Index) (j : nat)
    (indices : list nat) :
  In j indices -> (length movie_mapper <= j)%nat ->
  forall acc, exists msg,
    collect row movie_mapper indices acc = Raise (IndexError msg).
Proof.
  intros Hj Hlen. induction indices as [|idx rest IH]; intros acc; [destruct Hj|].
  cbn. unfold Np.getitem.
  destruct (nth_error movie_mapper idx) as [m|] eqn:Em; [|cbn; eauto].
  destruct (nth_error row idx) as [s|] eqn:Es; [|cbn; eauto].
  cbn [bind]. destruct Hj as [->|Hj].
  - apply nth_error_None in Hlen. congruence.
  - now apply IH.
Qed.

Lemma sorted_NoDup (l : list nat) : StronglySorted lt l -> NoDup l.
Proof.
  induction 1 as [|x l Hl IH Hx]; constructor; [|assumption].
  intros Hin. rewrite Forall_forall in Hx. specialize (Hx _ Hin). lia.
Qed.

Lemma NoDup_map_in {A B : Type} (f : A -> B) (l : list A) :
  (forall x y, In x l -> In y l -> f x = f y -> x = y) ->
  NoDup l -> NoDup (map f l).
Proof.
  intros Hinj Hl. induction Hl as [|x l Hx Hl IH]; cbn; constructor.
  - intros Hin. apply in_map_iff in Hin as (y & E & Hy).
    assert (y = x) by (apply Hinj; [now right|now left|assumption]).
    now subst.
  - apply IH. intros a b Ha Hb. apply Hinj; now right.
Qed.

Lemma NoDup_firstn_of {A : Type} (l : list A) : forall n,
  NoDup l -> NoDup (firstn n l).
Proof.
  induction l as [|x l IH]; intros [|n] H; cbn; try constructor.
  - inversion H as [|? ? Hx Hl]; subst. intros Hin.
    apply Hx. eapply RecFacts.firstn_incl, Hin.
  - inversion H; subst. now apply IH.
Qed.

Lemma map_of_slice {A B : Type} (f : A -> B) (l : list A) (n : Z) :
  map f (slice_to l n) = slice_to (map f l) n.
Proof.
  unfold slice_to. rewrite length_map. destruct (0 <=? n)%Z; symmetry; apply firstn_map.
Qed.

Lemma NoDup_slice_to {A : Type} (l : list A) (n : Z) :
  NoDup l -> NoDup (slice_to l n).
Proof. unfold slice_to. destruct (0 <=? n)%Z; apply NoDup_firstn_of. Qed.

End PickFacts.

(** No movie is recommended twice: with a movie index that does not repeat
    a label, as the columns of a rating table, the movies of the pairs that
    the recommender returns are pairwise different. *)
Theorem no_movie_is_recommended_twice
    (user_id : Z) (pred : ndarray) (user_mapper movie_mapper : Index) (top_n : Z)
    (recs : list (Z * float64)) :
  NoDup movie_mapper ->
  recommend_movies user_id pred user_mapper movie_mapper top_n = Ok recs ->
  NoDup (map fst recs).
Proof.
  intros Hnd. unfold recommend_movies.
  destruct (Pd.contains user_mapper user_id); cbn [negb];
    [|intros [= <-]; constructor].
  intros H. apply bind_Ok in H as (user_idx & _ & H).
  apply bind_Ok in H as (row & _ & H).
  apply bind_Ok in H as (row' & _ & H). cbv zeta in H.
  unfold rank in H. apply bind_Ok in H as (found & Ec & H). injection H as <-.
  apply PickFacts.collect_inv in Ec as [-> Hin]. cbn [app].
  rewrite PickFacts.map_of_slice. apply PickFacts.NoDup_slice_to.
  set (cols := Np.where_ _) in *.
  assert (Hcols : NoDup cols) by apply PickFacts.sorted_NoDup, RecFacts.where_sorted.
  set (pairs := map _ cols).
  assert (Hpairs : NoDup (map fst pairs)).
  { unfold pairs. rewrite map_map. cbn [fst].
    apply PickFacts.NoDup_map_in; [|assumption].
    intros a b Ha Hb E. rewrite Forall_forall in Hin.
    rewrite (NoDup_nth movie_mapper 0%Z) in Hnd. apply Hnd; auto. }
  assert (Hperm : forall l : list (Z * float64),
             Permutation (sort_desc l) l).
  { induction l as [|x l IH]; cbn; [reflexivity|]. fold (sort_desc l).
    transitivity (x :: sort_desc l); [|now constructor].
    generalize (sort_desc l). intros s. induction s as [|y s IHs]; cbn; [reflexivity|].
    destruct (snd x < snd y)%f64; [|reflexivity].
    rewrite IHs. apply perm_swap. }
  eapply Permutation_NoDup; [|exact Hpairs].
  apply Permutation_map, Permutation_sym, Hperm.
Qed.

Lemma no_movie_is_recommended_twice_witness :
  NoDup (map fst [(10%Z, Fin 0); (30%Z, Fin 0)]).
Proof.
  apply (@no_movie_is_recommended_twice 3 pred_2x3 [3; 7]%Z [10; 20; 30]%Z 5).
  - repeat constructor; cbn; intuition discriminate.
  - reflexivity.
Defined.



(** A matrix that does not fit the two indexes is refused: for an index
    without repeated labels, when the user's position has no row in the
    matrix, or the user's row has a cell equal to 0 at a position without a
    movie, the recommender raises an [IndexError]. *)
Theorem recommender_refuses_a_misfit_matrix
    (user_id : Z) (pred : ndarray) (user_mapper movie_mapper : Index) (top_n : Z)
    (user_idx : nat) :
  NoDup user_mapper ->
  Pd.get_loc user_mapper user_id = Ok user_idx ->
  (length pred <= user_idx)%nat \/
  (exists row j s,
      nth_error pred user_idx = Some row /\
      nth_error row j = Some s /\ (s == F64.zero)%f64 = true /\
      (length movie_mapper <= j)%nat) ->
  exists msg,
    recommend_movies user_id pred user_mapper movie_mapper top_n =
    Raise (IndexError msg).
Proof.
  intros _ Hloc H. destruct (PickFacts.get_loc_contains _ _ Hloc) as [Hin _].
  unfold recommend_movies. rewrite Hin, Hloc. cbn [negb bind]. unfold Np.getitem.
  destruct H as [H|(row & j & s & Hrow & Hs & Hz & Hj)].
  - apply nth_error_None in H. rewrite H. cbn. eauto.
  - rewrite Hrow. cbn [bind]. unfold rank.
    destruct (@PickFacts.collect_raises row movie_mapper j
                (Np.where_ (map (fun x => x == F64.zero)%f64 row))) with (acc := @nil (Z * float64))
      as [msg ->]; [apply zero_columns_In; eauto|assumption|].
    cbn. eauto.
Qed.

Lemma recommender_refuses_a_misfit_matrix_witness :
  exists msg,
    recommend_movies 3 pred_2x3 [3; 7]%Z [10; 20]%Z 5 = Raise (IndexError msg).
Proof.
  apply (@recommender_refuses_a_misfit_matrix 3 pred_2x3 [3; 7]%Z [10; 20]%Z 5 0).
  - repeat constructor; cbn; intuition discriminate.
  - reflexivity.
  - right. exists [Fin 0; Fin (7 # 2); Fin 0], 2%nat, (Fin 0).
    repeat split. cbn. lia.
Defined.

(** ** reconstruct_matrix *)

Module DotFacts.

Lemma ncols_diag (s : ndarray1) : Np.ncols (Np.diag s) = length s.
Proof.
  unfold Np.diag, Np.ncols. destruct s as [|x s]; [reflexivity|].
  cbn [length seq map]. now rewrite length_map, length_seq.
Qed.

Lemma nrows_diag (s : ndarray1) : Np.nrows (Np.diag s) = length s.
Proof. unfold Np.diag, Np.nrows. now rewrite length_map, length_seq. Qed.

(** A product that is returned has the rows of its left factor, each with
    the columns of its right factor. *)
Lemma dot_shape (a b out : ndarray) :
  Np.dot a b = Ok out ->
  Np.ncols a = Np.nrows b /\
  Np.nrows out = Np.nrows a /\ Forall (fun r => length r = Np.ncols b) out.
Proof.
  unfold Np.dot. destruct (Nat.eqb_spec (Np.ncols a) (Np.nrows b)) as [E|E];
    [|discriminate].
  intros [= <-]. split; [assumption|]. split; [apply length_map|].
  apply Forall_forall. intros r Hr. apply in_map_iff in Hr as (r0 & <- & _).
  now rewrite length_map, length_seq.
Qed.

Lemma dot_returns (a b : ndarray) :
  Np.ncols a = Np.nrows b -> exists out, Np.dot a b = Ok out.
Proof. intros E. unfold Np.dot. rewrite E, Nat.eqb_refl. eauto. Qed.

Lemma dot_raises (a b : ndarray) :
  Np.ncols a <> Np.nrows b -> exists msg, Np.dot a b = Raise (ValueError msg).
Proof.
  intros E. unfold Np.dot.
  destruct (Nat.eqb_spec (Np.ncols a) (Np.nrows b)); [contradiction|eauto].
Qed.

Lemma ncols_of_rows (a : ndarray) (c : nat) :
  a <> [] -> Forall (fun r => length r = c) a -> Np.ncols a = c.
Proof.
  destruct a as [|r a]; [congruence|]. intros _ H. now inversion H.
Qed.

Lemma flatten_nonempty (a : ndarray) (c : nat) :
  a <> [] -> (0 < c)%nat -> Forall (fun r => length r = c) a -> Np.flatten a <> [].
Proof.
  destruct a as [|r a]; [congruence|]. intros _ Hc H. inversion H; subst.
  unfold Np.flatten. cbn. destruct r; cbn in *; [lia|discriminate].
Qed.

End DotFacts.

(** Factors that fit give a matrix of their outer shape: for [U] with a
    row and as many columns as [Sigma] has entries, and [VT] with as many
    rows and with a column, the reconstruction is returned with the rows of
    [U], each with the columns of [VT]. *)
Theorem reconstruction_has_the_shape_of_the_factors
    (U : ndarray) (Sigma : ndarray1) (VT : ndarray) (ratings : ratings_frame) :
  U <> [] -> Sigma <> [] ->
  Np.ncols U = length Sigma ->
  Np.nrows VT = length Sigma ->
  (0 < Np.ncols VT)%nat ->
  exists pred,
    reconstruct_matrix U Sigma VT ratings = Ok pred /\
    Np.nrows pred = Np.nrows U /\
    Forall (fun r => length r = Np.ncols VT) pred.
Proof.
  intros HU HS HUk HVk Hm. unfold reconstruct_matrix.
  destruct (@DotFacts.dot_returns (Np.diag Sigma) VT) as [inner Ei];
    [rewrite DotFacts.ncols_diag; congruence|].
  destruct (DotFacts.dot_shape _ _ Ei) as (_ & Hri & Hci).
  rewrite DotFacts.nrows_diag in Hri.
  assert (Hinner : inner <> [])
    by (intros ->; cbn in Hri; destruct Sigma; [congruence|discriminate]).
  pose proof (DotFacts.ncols_of_rows Hinner Hci) as Hnc.
  destruct (@DotFacts.dot_returns U inner) as [raw Er];
    [unfold Np.nrows in *; congruence|].
  destruct (DotFacts.dot_shape _ _ Er) as (_ & Hrr & Hcr). rewrite Hnc in Hcr.
  assert (Hraw : raw <> []).
  { intros ->. cbn in Hrr. destruct U; [congruence|discriminate]. }
  rewrite Ei. cbn [bind]. rewrite Er. cbn [bind].
  destruct (@NormFacts.min_max_return raw) as (lo & hi & Hlo & Hhi);
    [now apply DotFacts.flatten_nonempty with (c := Np.ncols VT)|].
  rewrite normalize_predictions_eq with (lo := lo) (hi := hi) by assumption.
  eexists. split; [reflexivity|]. split.
  - unfold Np.nrows, Np.map2d in *. now rewrite length_map.
  - unfold Np.map2d. apply Forall_forall. intros r Hr.
    apply in_map_iff in Hr as (r0 & <- & Hr0). rewrite length_map.
    rewrite Forall_forall in Hcr. now apply Hcr.
Qed.

Lemma reconstruction_has_the_shape_of_the_factors_witness :
  exists pred,
    reconstruct_matrix [[Fin 1]; [Fin 2]] [Fin 3] [[Fin 1; Fin 2; Fin 4]] two_ratings
    = Ok pred /\
    Np.nrows pred = Np.nrows [[Fin 1]; [Fin 2]] /\
    Forall (fun r => length r = Np.ncols [[Fin 1; Fin 2; Fin 4]]) pred.
Proof.
  apply (@reconstruction_has_the_shape_of_the_factors
           [[Fin 1]; [Fin 2]] [Fin 3] [[Fin 1; Fin 2; Fin 4]] two_ratings);
    try discriminate; try reflexivity.
  cbn. lia.
Defined.

(** Factors that do not fit are refused: when [VT] has another number of
    rows, or [U] another number of columns, than [Sigma] has entries, the
    reconstruction raises a [ValueError] and nothing is rescaled. *)
Theorem reconstruction_refuses_misfit_factors
    (U : ndarray) (Sigma : ndarray1) (VT : ndarray) (ratings : ratings_frame) :
  Np.nrows VT <> length Sigma \/ Np.ncols U <> length Sigma ->
  exists msg, reconstruct_matrix U Sigma VT ratings = Raise (ValueError msg).
Proof.
  intros H. unfold reconstruct_matrix.
  destruct (Nat.eq_dec (Np.nrows VT) (length Sigma)) as [E|E].
  - destruct H as [H|H]; [contradiction|].
    destruct (@DotFacts.dot_returns (Np.diag Sigma) VT) as [inner Ei];
      [rewrite DotFacts.ncols_diag; congruence|].
    destruct (DotFacts.dot_shape _ _ Ei) as (_ & Hri & _).
    rewrite DotFacts.nrows_diag in Hri.
    rewrite Ei. cbn [bind].
    destruct (@DotFacts.dot_raises U inner) as [msg ->]; [congruence|].
    cbn. eauto.
  - destruct (@DotFacts.dot_raises (Np.diag Sigma) VT) as [msg ->];
      [rewrite DotFacts.ncols_diag; congruence|].
    cbn. eauto.
Qed.

Lemma reconstruction_refuses_misfit_factors_witness :
  exists msg,
    reconstruct_matrix [[Fin 1]; [Fin 2]] [Fin 3; Fin 1] [[Fin 1; Fin 2]] two_ratings
    = Raise (ValueError msg).
Proof.
  apply (@reconstruction_refuses_misfit_factors
           [[Fin 1]; [Fin 2]] [Fin 3; Fin 1] [[Fin 1; Fin 2]] two_ratings).
  left. cbn. lia.
Defined.

(** ** main on a small catalogue *)

Module CatalogueFacts.

Lemma labels_NoDup (l : Index) : StronglySorted Z.lt l -> NoDup l.
Proof.
  induction 1 as [|x l Hl IH Hx]; constructor; [|assumption].
  intros Hin. rewrite Forall_forall in Hx. specialize (Hx _ Hin). lia.
Qed.

(** The rows of either part of the temporal split are rows of the frame. *)
Lemma temporal_split_incl (ratings : ratings_frame) (r : rating_row) :
  In r (fst (temporal_split ratings)) \/ In r (snd (temporal_split ratings)) ->
  In r ratings.
Proof.
  unfold temporal_split. cbn [fst snd]. intros [H|H];
    apply filter_In in H as [H _];
    eapply Permutation_in; [apply SplitFacts.sort_values_perm|exact H
                           |apply SplitFacts.sort_values_perm|exact H].
Qed.

(** Two parts of a frame share at most the movies of the frame. *)
Lemma common_movies_bound (ratings train_df test_df : ratings_frame) :
  (forall r, In r train_df -> In r ratings) ->
  (length (Pd.intersection (columns (create_user_movie_matrix train_df))
                           (columns (create_user_movie_matrix test_df)))
   <= length (columns (create_user_movie_matrix ratings)))%nat.
Proof.
  intros Hsub. apply NoDup_incl_length.
  - apply labels_NoDup. unfold Pd.intersection.
    apply TableFacts.filter_sorted. cbn. apply TableFacts.sorted_labels_sorted.
  - intros z Hz. apply AlignFacts.intersection_In in Hz as [Hz _]. cbn in *.
    rewrite AlignFacts.sorted_labels_In in Hz. rewrite AlignFacts.sorted_labels_In.
    apply in_map_iff in Hz as (r & <- & Hr). apply in_map. now apply Hsub.
Qed.

End CatalogueFacts.

(** A catalogue of fewer than [N_COMPONENTS] movies cannot be processed:
    whatever the library routines return, the pass on the temporal split
    ends in a [ValueError], and [main] returns no report. *)
Theorem main_needs_ten_movies (lib : library) (ratings : ratings_frame) :
  (length (columns (create_user_movie_matrix ratings)) < N_COMPONENTS)%nat ->
  (exists msg,
      run_split lib (fst (temporal_split ratings)) (snd (temporal_split ratings))
      = Raise (ValueError msg)) /\
  exists e, main lib ratings = Raise e.
Proof.
  intros H.
  assert (Ht : exists msg,
             run_split lib (fst (temporal_split ratings)) (snd (temporal_split ratings))
             = Raise (ValueError msg)).
  { apply PassFacts.few_movies.
    eapply Nat.le_lt_trans; [|exact H].
    apply CatalogueFacts.common_movies_bound.
    intros r Hr. apply CatalogueFacts.temporal_split_incl. now left. }
  split; [assumption|].
  destruct Ht as [msg Ht]. unfold main.
  destruct (train_test_split lib ratings (2 # 10) RANDOM_STATE) as [train_random test_random].
  destruct (temporal_split ratings) as [train_temporal test_temporal].
  cbn [mapM fst snd] in *.
  destruct (run_split lib train_random test_random) as [rep|e]; cbn [bind]; [|eauto].
  rewrite Ht. cbn. eauto.
Qed.

Lemma main_needs_ten_movies_witness :
  (exists msg,
      run_split truncating_library (fst (temporal_split two_ratings))
                (snd (temporal_split two_ratings))
      = Raise (ValueError msg)) /\
  exists e, main truncating_library two_ratings = Raise e.
Proof.
  apply (@main_needs_ten_movies truncating_library two_ratings).
  vm_compute. lia.
Defined.

(** ** The recommendations of a completed pass *)

Module EmptyFacts.

(** With a least rating above 0, the rescaling of a cell between the least
    and the greatest cell never compares equal to 0: it is a real that is at
    least the least rating, an infinity, or [NaN]. *)
Lemma rescale_cell_nonzero (lo hi x : float64) (rl rh : Q) :
  0 < rl -> rl <= rh ->
  (F64.isnan lo = false -> (lo <= x)%f64 = true) ->
  (F64.isnan hi = false -> (x <= hi)%f64 = true) ->
  (rescale_cell lo hi (Fin rl) (Fin rh) x == F64.zero)%f64 = false.
Proof.
  intros Hrl Hr Hlo Hhi.
  destruct lo as [l| | |]; [| | |destruct x; reflexivity].
  - specialize (Hlo eq_refl).
    destruct hi as [h| | |]; [| | |destruct x; reflexivity].
    + specialize (Hhi eq_refl).
      destruct x as [c| | |]; cbn in Hlo, Hhi; try discriminate.
      apply Qle_bool_iff in Hlo, Hhi.
      destruct (Qlt_le_dec l h) as [Hlh|Hlh].
      * rewrite Affine.rescale_cell_fin by assumption.
        pose proof (@Affine.g_le l h rl rh l c Hlh Hr Hlo) as Hle.
        rewrite Affine.g_min in Hle. cbn. qcases.
      * unfold rescale_cell, F64.sub. cbn.
        destruct (Qeq_bool_spec (h + - l) 0) as [E|E]; [|exfalso; lra].
        unfold F64.signed_inf.
        destruct (Qcompare_spec (c + - l) 0) as [E'|E'|E']; [reflexivity| |];
          exfalso; lra.
    + destruct x as [c| | |]; cbn in Hlo; try discriminate; [|reflexivity].
      unfold rescale_cell, F64.sub. cbn. qcases.
    + specialize (Hhi eq_refl). destruct x; cbn in Hlo, Hhi; discriminate.
  - specialize (Hlo eq_refl). destruct x; cbn in Hlo; try discriminate.
    destruct hi; reflexivity.
  - destruct x as [c| | |]; destruct hi as [h| | |]; try reflexivity;
      specialize (Hhi eq_refl); cbn in Hhi; discriminate.
Qed.

(** A matrix without a cell equal to 0 yields no pair, whenever the
    recommender returns. *)
Lemma no_zero_no_pair
    (user_id : Z) (pred : ndarray) (user_mapper movie_mapper : Index) (top_n : Z)
    (recs : list (Z * float64)) :
  forallb (fun x => negb (x == F64.zero)%f64) (Np.flatten pred) = true ->
  recommend_movies user_id pred user_mapper movie_mapper top_n = Ok recs ->
  recs = [].
Proof.
  intros Hnz. unfold recommend_movies.
  destruct (Pd.contains user_mapper user_id); cbn [negb]; [|now intros [= <-]].
  intros H. apply bind_Ok in H as (user_idx & _ & H).
  apply bind_Ok in H as (row & _ & H).
  apply bind_Ok in H as (row' & Erow & H). cbv zeta in H.
  unfold Np.getitem in Erow.
  destruct (nth_error pred user_idx) as [r|] eqn:E; [|discriminate].
  injection Erow as ->.
  rewrite (where_none_of_row row') in H.
  - unfold rank in H. cbn in H. injection H as <-.
    unfold slice_to. now destruct (0 <=? top_n)%Z; destruct (Z.to_nat _).
  - apply forallb_forall. intros x Hx.
    apply (@forallb_In _ (fun x => negb (x == F64.zero)%f64) (Np.flatten pred));
      [exact Hnz|].
    apply in_concat. exists row'. split; [eapply nth_error_In; eassumption|assumption].
Qed.

End EmptyFacts.

(** A completed pass recommends nothing: when the least rating of the train
    split is above 0 and the pass returns its report, the list of
    recommendations in it is empty, whatever the factorisation returned.
    The candidates are the cells of the rescaled matrix that equal 0, and
    the rescaling leaves none. *)
Theorem completed_pass_recommends_nothing
    (lib : library) (train_df test_df : ratings_frame) (rep : report) :
  (F64.zero < Pd.series_min (map rating train_df))%f64 = true ->
  run_split lib train_df test_df = Ok rep ->
  recommendations rep = [].
Proof.
  intros Hpos H. unfold run_split in H.
  apply bind_Ok in H as ([train_matrix test_matrix] & _ & H). cbv zeta in H.
  apply bind_Ok in H as ([[U Sigma] VT] & _ & H). cbv zeta in H.
  apply bind_Ok in H as (pred & Erec & H).
  apply bind_Ok in H as ([[[rm p] r] f] & _ & H). cbv zeta in H.
  apply bind_Ok in H as (recs & Erecs & H). injection H as <-. cbn [recommendations].
  unfold reconstruct_matrix in Erec.
  apply bind_Ok in Erec as (inner & _ & Erec).
  apply bind_Ok in Erec as (raw & _ & Enorm).
  destruct (normalize_predictions_Ok _ _ Enorm) as (lo & hi & Hlo & Hhi & ->).
  destruct (@PdFacts.series_range (map rating train_df)) as (rl & rh & Erl & Erh & Hr).
  { intros E. rewrite E in Hpos. discriminate. }
  rewrite Erl, Erh in *.
  assert (Hrl : 0 < rl) by (cbn in Hpos; qcases).
  eapply EmptyFacts.no_zero_no_pair; [|exact Erecs].
  rewrite NpFacts.flatten_map2d. apply forallb_forall. intros y Hy.
  apply in_map_iff in Hy as (x & <- & Hx).
  rewrite EmptyFacts.rescale_cell_nonzero; [reflexivity|assumption|assumption| |].
  - intros Hn. destruct (NpFacts.min_bounds _ Hlo Hn) as [_ Hmin].
    rewrite Forall_forall in Hmin. now apply Hmin.
  - intros Hn. destruct (NpFacts.max_bounds _ Hhi Hn) as [_ Hmax].
    rewrite Forall_forall in Hmax. now apply Hmax.
Qed.

Lemma completed_pass_recommends_nothing_witness :
  exists rep,
    run_split truncating_library (fst (temporal_split sixty_ratings))
              (snd (temporal_split sixty_ratings)) = Ok rep /\
    recommendations rep = [].
Proof.
  eexists. split.
  - vm_compute. reflexivity.
  - apply (@completed_pass_recommends_nothing truncating_library
             (fst (temporal_split sixty_ratings)) (snd (temporal_split sixty_ratings))).
    + vm_compute. reflexivity.
    + vm_compute. reflexivity.
Defined.

(** ** The cells that equal 0 *)

Module FillFacts.

Lemma qsum_nonneg (l : list Q) : (forall x, In x l -> 0 < x) -> 0 <= qsum l.
Proof.
  induction l as [|x l IH]; intros H; [unfold qsum; cbn; lra|].
  rewrite OrderFacts.qsum_cons.
  assert (0 < x) by (apply H; now left).
  assert (0 <= qsum l) by (apply IH; intros y Hy; apply H; now right).
  lra.
Qed.

(** The mean of ratings above 0 is above 0. *)
Lemma mean_pos (x : Q) (l : list Q) :
  (forall y, In y (x :: l) -> 0 < y) -> 0 < Pd.mean (x :: l).
Proof.
  intros H. unfold Pd.mean.
  assert (Hx : 0 < x) by (apply H; now left).
  assert (Hl : 0 <= qsum l) by (apply qsum_nonneg; intros y Hy; apply H; now right).
  pose proof (OrderFacts.qsum_cons x l) as E.
  assert (Hn : 0 < inject_Z (Z.of_nat (length (x :: l)))).
  { change 0 with (inject_Z 0). rewrite <- Zlt_Qlt. cbn [length]. lia. }
  apply Qlt_shift_div_l; [assumption|]. lra.
Qed.

End FillFacts.

(** In the table of a frame whose ratings are all above 0, the fill value
    marks the missing pairs and nothing else: the cell of a user and a movie
    equals 0 exactly when the frame holds no rating of that movie by that
    user. *)
Theorem zero_cell_means_unrated
    (df : ratings_frame) (i j : nat) (u m : Z) :
  (forall r, In r df -> 0 < rating r) ->
  nth_error (index (create_user_movie_matrix df)) i = Some u ->
  nth_error (columns (create_user_movie_matrix df)) j = Some m ->
  exists x,
    cell (values (create_user_movie_matrix df)) i j = Some x /\
    ((x == F64.zero)%f64 = true <->
     forall r, In r df -> userId r = u -> movieId r <> m).
Proof.
  intros Hpos Hu Hm. rewrite (pivot_table_cell _ _ _ Hu Hm).
  eexists. split; [reflexivity|].
  unfold pivot_cell, Pd.group.
  set (f := fun r => Z.eqb (userId r) u && Z.eqb (movieId r) m).
  destruct (filter f df) as [|r0 g] eqn:Ef; cbn [map].
  - split; [|reflexivity]. intros _ r Hr Eu Em.
    assert (Hin : In r (filter f df)).
    { apply filter_In. split; [assumption|]. unfold f.
      now rewrite Eu, Em, !Z.eqb_refl. }
    rewrite Ef in Hin. destruct Hin.
  - assert (Hr0 : In r0 (filter f df)) by (rewrite Ef; now left).
    apply filter_In in Hr0 as [Hr0 Hf]. unfold f in Hf.
    apply andb_true_iff in Hf as [Eu Em]. apply Z.eqb_eq in Eu, Em.
    split.
    + intros H. exfalso.
      assert (Hmean : 0 < Pd.mean (rating r0 :: map rating g)).
      { apply FillFacts.mean_pos. intros y Hy.
        change (rating r0 :: map rating g) with (map rating (r0 :: g)) in Hy.
        apply in_map_iff in Hy as (r & <- & Hr). apply Hpos.
        rewrite <- Ef in Hr. now apply filter_In in Hr as [Hr _]. }
      cbn in H. apply Qeq_bool_iff in H. lra.
    + intros H. exfalso. exact (H r0 Hr0 Eu Em).
Qed.

Lemma zero_cell_means_unrated_witness :
  exists x,
    cell (values (create_user_movie_matrix two_ratings)) 0 1 = Some x /\
    ((x == F64.zero)%f64 = true <->
     forall r, In r two_ratings -> userId r = 1%Z -> movieId r <> 2%Z).
Proof.
  apply (@zero_cell_means_unrated two_ratings 0 1 1 2).
  - intros r [<-|[<-|[]]]; reflexivity.
  - reflexivity.
  - reflexivity.
Defined.

(** * The rescaling in binary64 *)

Module B64Facts.

Import SpecFloat.


Lemma eqb_refl (x : B64.binary64) : B64.isnan x = false -> B64.eqb x x = true.
Proof.
  unfold B64.eqb, SFeqb, SFcompare. destruct x as [s|s| |s m e]; try discriminate.
  - reflexivity.
  - now destruct s.
  - intros _. rewrite Z.compare_refl.
    assert (E : Pos.compare_cont Eq m m = Eq) by apply Pos.compare_refl.
    rewrite E. now destruct s.
Qed.














End B64Facts.

Module B64Rescale.

Import SpecFloat.


Lemma maximum_finite_b64 (x y : B64.binary64) :
  B64.isfinite x = true -> B64.isfinite y = true ->
  B64.isfinite (B64.maximum x y) = true.
Proof.
  intros Hx Hy. unfold B64.maximum.
  destruct (B64.isnan x); [assumption|]. destruct (B64.isnan y); [assumption|].
  now destruct (B64.ltb x y).
Qed.






End B64Rescale.






